(** * Wheel-spin allocation engine

    A shallow embedding of the wheel-spin backend and the properties of its
    allocation engine.  The repository holds the server in variants that
    differ in where the prize catalog and its counters are kept:

    - [Metafield]  : [index.js], the prize catalog is the constant
      [PRIZES]; remaining counts and distribution counters live in two
      shop-level JSON metafields.
    - [Metaobject] : the metaobject-backed server, the catalog and every
      counter live in [wheel_prize] metaobjects that are read afresh on
      every request.

    (A third variant is [index.js] followed by a mirror of the counters into
    metaobjects that is not awaited; its allocation code is that of
    [index.js].)

    Both talk to one Shopify store, modelled by [Shop].  A handler is a
    function from the store to a response, the new store and the list of
    requests it sent ([M]); requests are served one after the other and
    every request to the store succeeds.  JavaScript numbers that carry
    probabilities are binary64 floats ([PrimFloat]); counters are integers
    ([Z]).  The code adds 1 to a counter and takes 1 from it in binary64,
    which is the integer result as long as the counter is a safe integer
    ([JS.isSafeInteger], a magnitude below 2^53); the theorems on the exact
    growth of a counter assume that much of it. *)

From Stdlib Require Import ZArith List String Ascii Bool Floats Lia.
From stdpp Require Import base option list gmap strings pretty.

Set Warnings "-inexact-float".
Set Default Proof Using "Type".

Local Open Scope string_scope.
Local Open Scope list_scope.
Local Open Scope Z_scope.

(* ===================================================================== *)
(** * JavaScript strings and values *)
(* ===================================================================== *)

(** A Rocq [string] stands for a JavaScript string whose code units are all
    below 256; the functions below are the [String.prototype] methods the
    handlers call, on such strings. *)
Module JS.

(** White space and line terminators removed by [trim]. *)
Definition is_space (c : ascii) : bool :=
  match N_of_ascii c with
  | 9%N | 10%N | 11%N | 12%N | 13%N | 32%N | 160%N => true
  | _ => false
  end.

Fixpoint trimStart (s : string) : string :=
  match s with
  | String c s' => if is_space c then trimStart s' else s
  | EmptyString => EmptyString
  end.

Definition trimEnd (s : string) : string :=
  String.rev (trimStart (String.rev s)).

Definition trim (s : string) : string := trimEnd (trimStart s).

Definition lower (c : ascii) : ascii :=
  let n := N_of_ascii c in
  if ((65 <=? n) && (n <=? 90) || (192 <=? n) && (n <=? 214)
      || (216 <=? n) && (n <=? 222))%N
  then ascii_of_N (n + 32) else c.

Fixpoint toLowerCase (s : string) : string :=
  match s with
  | String c s' => String (lower c) (toLowerCase s')
  | EmptyString => EmptyString
  end.

(** [s.startsWith(p)] *)
Definition startsWith (s p : string) : bool := String.prefix p s.

(** [s.includes(p)] *)
Fixpoint includes (s p : string) : bool :=
  startsWith s p ||
  match s with
  | String _ s' => includes s' p
  | EmptyString => false
  end.

Fixpoint drop (n : nat) (s : string) : string :=
  match n, s with
  | S n', String _ s' => drop n' s'
  | _, _ => s
  end.

(** [s.replace(p, r)] for a string pattern: the first occurrence only. *)
Fixpoint replace (s p r : string) : string :=
  if startsWith s p then r +:+ drop (String.length p) s
  else match s with
       | String c s' => String c (replace s' p r)
       | EmptyString => EmptyString
       end.

(** [s.split(sep)] for a one-character separator. *)
Fixpoint split (sep : ascii) (s : string) : list string :=
  match s with
  | EmptyString => [EmptyString]
  | String c s' =>
      if Ascii.eqb c sep then EmptyString :: split sep s'
      else match split sep s' with
           | piece :: rest => String c piece :: rest
           | [] => [String c EmptyString]
           end
  end.

(** [l.join(sep)] *)
Definition join (sep : string) (l : list string) : string :=
  String.concat sep l.

(** [[...new Set(l)]]: the first occurrence of every element, in order. *)
Fixpoint unique_from (seen l : list string) : list string :=
  match l with
  | [] => []
  | x :: l' =>
      if existsb (String.eqb x) seen then unique_from seen l'
      else x :: unique_from (x :: seen) l'
  end.
Definition unique (l : list string) : list string := unique_from [] l.

(** [String(n)] and [`${n}`] for an integer. *)
Definition ofNumber (n : Z) : string := pretty n.

(** [l.find(f)] *)
Definition find {A} (f : A → bool) (l : list A) : option A := List.find f l.

(** The values a parsed JSON body, a query string or [process.env] can
  hand to a handler.  [Obj] stands for any array or object; a number that
  is not an integer behaves here as any non-zero [Num]. *)
Inductive value :=
  | Undefined
  | Null
  | Bool (b : bool)
  | Num (n : Z)
  | Str (s : string)
  | Obj.

Definition truthy (v : value) : bool :=
  match v with
  | Undefined | Null => false
  | Bool b => b
  | Num n => negb (Z.eqb n 0)
  | Str s => negb (String.eqb s "")
  | Obj => true
  end.

(** [a || b] *)
Definition or (a b : value) : value := if truthy a then a else b.

(** [v.trim()]: only strings have the method; on a number, a boolean or
  an object the call throws a TypeError ([None]). *)
Definition trimOf (v : value) : option string :=
  match v with
  | Str s => Some (trim s)
  | _ => None
  end.

(** [a === b]; two objects are never the same reference here, since one
  side always comes from [process.env]. *)
Definition strictEq (a b : value) : bool :=
  match a, b with
  | Undefined, Undefined => true
  | Null, Null => true
  | Bool x, Bool y => Bool.eqb x y
  | Num x, Num y => Z.eqb x y
  | Str x, Str y => String.eqb x y
  | _, _ => false
  end.

(** [process.env.NAME]: a string, or undefined when the variable is unset. *)
Definition ofEnv (o : option string) : value :=
  match o with
  | Some s => Str s
  | None => Undefined
  end.

(** [Number.MAX_SAFE_INTEGER] and [Number.isSafeInteger], on integers: from
  [-(2^53 - 1)] to [2^53 - 1] a binary64 number holds every integer, and
  [n + 1] and [n - 1] are computed without rounding. *)
Definition MAX_SAFE_INTEGER : Z := 2 ^ 53 - 1.
Definition isSafeInteger (n : Z) : bool :=
  (- MAX_SAFE_INTEGER <=? n) && (n <=? MAX_SAFE_INTEGER).

End JS.

(* ===================================================================== *)
(** * The Shopify store and the requests sent to it *)
(* ===================================================================== *)

(** The platform is outside the repository.  Its model is the least the
    handlers rely on: the customer search returns the first customer whose
    phone is the one asked for, a created customer has no tags, a write
    stores what it is given, and metaobjects are listed in a fixed order. *)
Module Shopify.

(** A customer record, as far as the handlers read and write it. *)
Record Customer := mkCustomer {
  cid : Z;
  phone : string;
  tags : string;
  note : string
}.

(** A JSON object whose members are numbers or [null]: the value of the
  two shop metafields.  A missing member reads as [undefined]. *)
Abbreviation JsonObject := (gmap string (option Z)).

(** A [wheel_prize] metaobject.  Its fields are stored as text; the record
  keeps, for each field the server reads, what [parseInt], [parseFloat]
  or the plain read gives: [None] is a field that is missing or empty
  or, for a numeric field, text that parses to NaN.  A written
  [String(n)] is read back as [Some n]. *)
Record Metaobject := mkMetaobject {
  mo_id : string;
  prize_id : option string;
  prize_label : option string;
  probability : option float;
  max_count : option Z;
  remaining_count : option Z;
  total_distributed : option Z;
  is_available : option bool;
  last_updated : option string
}.

(** One [{ key, value }] entry of a metaobject update. *)
Inductive FieldUpdate :=
  | remaining_count_is (n : Z)
  | is_available_is (b : bool)
  | total_distributed_is (n : Z)
  | last_updated_is (iso : string).

Definition key (u : FieldUpdate) : string :=
  match u with
  | remaining_count_is _ => "remaining_count"
  | is_available_is _ => "is_available"
  | total_distributed_is _ => "total_distributed"
  | last_updated_is _ => "last_updated"
  end.

(** The requests the servers send. *)
Inductive Call :=
  | SearchCustomers (phone : string)
  | PostCustomer (phone : string)
  | PutCustomerTags (id : Z) (tags : string)
  | PutCustomerNote (id : Z) (note : string)
  | GetMetafield (key : string)
  | PostMetafield (key : string) (value : JsonObject)
  | PutMetafield (key : string) (value : JsonObject)
  | QueryMetaobjects
  | UpdateMetaobject (id : string) (updates : list FieldUpdate).

(** The member names of the record a write carries. *)
Definition written_keys (c : Call) : list string :=
  match c with
  | PutCustomerTags _ _ => ["id"; "tags"]
  | PutCustomerNote _ _ => ["id"; "note"]
  | PostCustomer _ => ["phone"; "verified_email"; "note"]
  | PostMetafield _ _ => ["namespace"; "key"; "type"; "value"]
  | PutMetafield _ _ => ["id"; "value"; "type"]
  | UpdateMetaobject _ updates => map key updates
  | SearchCustomers _ | GetMetafield _ | QueryMetaobjects => []
  end.

Record Shop := mkShop {
  customers : list Customer;
  next_customer_id : Z;
  metafields : gmap string JsonObject;   (* namespace wheel_spin, by key *)
  metaobjects : list Metaobject          (* type wheel_prize *)
}.

(** A handler: reads and updates the store and records what it sent. *)
Definition M (A : Type) : Type := Shop → A * Shop * list Call.

Definition ret {A} (a : A) : M A := λ s, (a, s, []).

Definition bind {A B} (m : M A) (f : A → M B) : M B :=
  λ s, let '(a, s1, l1) := m s in
       let '(b, s2, l2) := f a s1 in
       (b, s2, (l1 ++ l2)%list).

Definition result {A} (r : A * Shop * list Call) : A := r.1.1.
Definition store {A} (r : A * Shop * list Call) : Shop := r.1.2.
Definition sent {A} (r : A * Shop * list Call) : list Call := r.2.

(** ** What the store does with each request *)

Definition with_customers (s : Shop) (l : list Customer) (n : Z) : Shop :=
  mkShop l n (metafields s) (metaobjects s).
Definition with_metafields (s : Shop) (m : gmap string JsonObject) : Shop :=
  mkShop (customers s) (next_customer_id s) m (metaobjects s).
Definition with_metaobjects (s : Shop) (l : list Metaobject) : Shop :=
  mkShop (customers s) (next_customer_id s) (metafields s) l.

(** GET /customers/search.json?query=phone:...; the first hit. *)
Definition searchCustomers (p : string) : M (option Customer) :=
  λ s, (List.find (λ c, String.eqb (phone c) p) (customers s), s,
        [SearchCustomers p]).

(** POST /customers.json *)
Definition postCustomer (p : string) : M Customer :=
  λ s, let c := mkCustomer (next_customer_id s) p "" "Created for wheel spin" in
       (c, with_customers s (customers s ++ [c])%list (next_customer_id s + 1),
        [PostCustomer p]).

Definition set_tags (id : Z) (t : string) (c : Customer) : Customer :=
  if Z.eqb (cid c) id then mkCustomer (cid c) (phone c) t (note c) else c.
Definition set_note (id : Z) (n : string) (c : Customer) : Customer :=
  if Z.eqb (cid c) id then mkCustomer (cid c) (phone c) (tags c) n else c.

(** PUT /customers/:id.json *)
Definition putCustomerTags (id : Z) (t : string) : M unit :=
  λ s, (tt, with_customers s (map (set_tags id t) (customers s)) (next_customer_id s),
        [PutCustomerTags id t]).
Definition putCustomerNote (id : Z) (n : string) : M unit :=
  λ s, (tt, with_customers s (map (set_note id n) (customers s)) (next_customer_id s),
        [PutCustomerNote id n]).

(** GET /metafields.json?namespace=wheel_spin&key=... *)
Definition getMetafield (k : string) : M (option JsonObject) :=
  λ s, (metafields s !! k, s, [GetMetafield k]).
(** POST /metafields.json *)
Definition postMetafield (k : string) (v : JsonObject) : M unit :=
  λ s, (tt, with_metafields s (<[k := v]> (metafields s)), [PostMetafield k v]).
(** PUT /metafields/:id.json, for the metafield read under key [k]. *)
Definition putMetafield (k : string) (v : JsonObject) : M unit :=
  λ s, (tt, with_metafields s (<[k := v]> (metafields s)), [PutMetafield k v]).

(** metaobjects(type: "wheel_prize", first: 50) *)
Definition queryMetaobjects : M (list Metaobject) :=
  λ s, (take 50 (metaobjects s), s, [QueryMetaobjects]).

Definition set_field (mo : Metaobject) (u : FieldUpdate) : Metaobject :=
  match u with
  | remaining_count_is n =>
      mkMetaobject (mo_id mo) (prize_id mo) (prize_label mo) (probability mo)
        (max_count mo) (Some n) (total_distributed mo) (is_available mo)
        (last_updated mo)
  | is_available_is b =>
      mkMetaobject (mo_id mo) (prize_id mo) (prize_label mo) (probability mo)
        (max_count mo) (remaining_count mo) (total_distributed mo) (Some b)
        (last_updated mo)
  | total_distributed_is n =>
      mkMetaobject (mo_id mo) (prize_id mo) (prize_label mo) (probability mo)
        (max_count mo) (remaining_count mo) (Some n) (is_available mo)
        (last_updated mo)
  | last_updated_is t =>
      mkMetaobject (mo_id mo) (prize_id mo) (prize_label mo) (probability mo)
        (max_count mo) (remaining_count mo) (total_distributed mo)
        (is_available mo) (Some t)
  end.

Definition apply_updates (id : string) (updates : list FieldUpdate)
    (mo : Metaobject) : Metaobject :=
  if String.eqb (mo_id mo) id then fold_left set_field updates mo else mo.

(** mutation metaobjectUpdate(id, metaobject: { fields }) *)
Definition updateMetaobject (id : string) (updates : list FieldUpdate) : M unit :=
  λ s, (tt, with_metaobjects s (map (apply_updates id updates) (metaobjects s)),
        [UpdateMetaobject id updates]).

End Shopify.

Notation "'let!' x := m 'in' k" := (Shopify.bind m (λ x, k))
  (at level 10, x name, m at level 100, k at level 200, only parsing).
Notation "'do!' m 'in' k" := (Shopify.bind m (λ _, k))
  (at level 10, m at level 100, k at level 200, only parsing).

(** What the environment hands to one request: the value of
    [Math.random()] and the clock reading [new Date().toISOString()]; the
    few clock readings of one request are taken to be the same instant. *)
Record Env := mkEnv {
  random : float;
  now : string
}.

(** [process.env], as far as the handlers read it. *)
Record ProcessEnv := mkProcessEnv {
  ADMIN_RESET_KEY : option string
}.

(* ===================================================================== *)
(** * Code that is the same in both servers *)
(* ===================================================================== *)

Section Helpers.
Import Shopify.

Definition findCustomerByPhone (p : string) : M (option Customer) :=
  searchCustomers p.

Definition createCustomerWithPhone (p : string) : M Customer :=
  postCustomer p.

Definition updateCustomerTags (customerId : Z) (t : string) : M unit :=
  putCustomerTags customerId t.

(** [customer.tags ? customer.tags.split(',').map(t => t.trim()) : []] *)
Definition tagList (customer : Customer) : list string :=
  if String.eqb (tags customer) "" then []
  else map JS.trim (JS.split "," (tags customer)).

(** [new Date().toISOString().split('T')[0]] *)
Definition currentDate (env : Env) : string :=
  hd "" (JS.split "T" (now env)).

End Helpers.

(** The weighted selection loop, for a prize type with a [prob] member. *)
Section WeightedSelection.
Context {Prize : Type} (prob : Prize → float).

(** [available.reduce((sum, p) => sum + p.prob, 0)] *)
Definition totalProb (available : list Prize) : float :=
  fold_left (λ sum p, sum + prob p)%float available 0%float.

(** The [for (const p of available)] loop, from the entries still to visit. *)
Fixpoint walk (r cumulative : float) (rest : list Prize) (chosen : Prize) : Prize :=
  match rest with
  | [] => chosen
  | p :: rest' =>
      let cumulative := (cumulative + prob p)%float in
      if (r <=? cumulative)%float then p else walk r cumulative rest' chosen
  end.

(** The selection over the non-empty list [first :: others]. *)
Definition select (rnd : float) (first : Prize) (others : list Prize) : Prize :=
  let available := first :: others in
  let r := (rnd * totalProb available)%float in
  walk r 0%float available (List.last available first).

(** ** The selection rule in the words of the design *)

(** The weight of entry [i], counted from 0. *)
Definition weightAt (available : list Prize) (i : nat) : float :=
  match available !! i with
  | Some p => prob p
  | None => 0%float
  end.

(** The weight accumulated, from 0 and in the order of the list, over the
  entries up to and including entry [i]. *)
Fixpoint cumulative (available : list Prize) (i : nat) : float :=
  match i with
  | O => (0 + weightAt available 0)%float
  | S j => (cumulative available j + weightAt available (S j))%float
  end.

(** The sum of the weights of the entries: the weight accumulated over all
  of them. *)
Definition sumOfWeights (available : list Prize) : float :=
  match length available with
  | O => 0%float
  | S n => cumulative available n
  end.

(** [chosen] is the first entry whose cumulative weight is [>= r], or the
  last entry when no cumulative weight reaches [r]. *)
Definition firstReaching (r : float) (available : list Prize) (chosen : Prize) : Prop :=
  (∃ i, available !! i = Some chosen ∧
        (r <=? cumulative available i)%float = true ∧
        ∀ j, (j < i)%nat → (r <=? cumulative available j)%float = false)
  ∨ ((∀ j, (j < length available)%nat → (r <=? cumulative available j)%float = false) ∧
     last available = Some chosen).

End WeightedSelection.

(* ===================================================================== *)
(** * index.js: constant catalog, counters in two shop metafields *)
(* ===================================================================== *)

Module Metafield.
Import Shopify.

Definition SHOP_METAFIELD_KEY : string := "prize_counts".
Definition PRIZE_DISTRIBUTION_KEY : string := "prize_distribution".

Record Prize := mkPrize {
  id : string;
  label : string;
  prob : float;
  max : option Z          (* [None] is [null]: no cap *)
}.

Definition PRIZES : list Prize := [
  mkPrize "kivo_easy_lite" "Kivo Easy Lite" 0.001 (Some 1);
  mkPrize "1gm_gold_coin" "1gm Gold Coin" 0.05 (Some 5);
  mkPrize "free_helmet" "Free Helmet Rs.2000" 0.33 (Some 20);
  mkPrize "mobile_holder" "Mobile Holder" 0.30 (Some 20);
  mkPrize "water_bottle" "Water Bottle + Cap" 0.30 (Some 20);
  mkPrize "better_luck" "Better Luck Next Time" 0.01 None
].

(** What the two [ensure...] functions return: the metafield (named here
  by its key, which stands for its id) and its parsed value. *)
Record Loaded := mkLoaded {
  metafield : string;
  value : JsonObject
}.

(** [PRIZES.forEach(p => initialCounts[p.id] = p.max === null ? null : p.max)] *)
Definition initialCounts : JsonObject :=
  fold_left (λ o p, <[id p := max p]> o) PRIZES ∅.

(** [PRIZES.forEach(p => initialDistribution[p.id] = 0)] *)
Definition initialDistribution : JsonObject :=
  fold_left (λ o p, <[id p := Some 0]> o) PRIZES ∅.

Definition ensureShopPrizeCounts : M Loaded :=
  let! res := getMetafield SHOP_METAFIELD_KEY in
  match res with
  | Some val => ret (mkLoaded SHOP_METAFIELD_KEY val)
  | None =>
      do! postMetafield SHOP_METAFIELD_KEY initialCounts in
      ret (mkLoaded SHOP_METAFIELD_KEY initialCounts)
  end.

Definition ensurePrizeDistribution : M Loaded :=
  let! res := getMetafield PRIZE_DISTRIBUTION_KEY in
  match res with
  | Some val => ret (mkLoaded PRIZE_DISTRIBUTION_KEY val)
  | None =>
      do! postMetafield PRIZE_DISTRIBUTION_KEY initialDistribution in
      ret (mkLoaded PRIZE_DISTRIBUTION_KEY initialDistribution)
  end.

Definition setShopPrizeCounts (countObj : JsonObject) (metafieldId : string) : M unit :=
  putMetafield metafieldId countObj.

(** [distribution[prizeId] || 0] *)
Definition orZero (v : option (option Z)) : Z :=
  match v with
  | Some (Some n) => n
  | _ => 0
  end.

(** [distribution[prizeId] = (distribution[prizeId] || 0) + 1], put back as a
  whole; the sum is written in the integers, which is the binary64 sum of
  the code for a counter that is a safe integer. *)
Definition incrementPrizeDistribution (prizeId : string) (distributionMf : Loaded)
    : M Z :=
  let distribution := value distributionMf in
  let distribution :=
    <[prizeId := Some (orZero (distribution !! prizeId) + 1)]> distribution in
  do! putMetafield (metafield distributionMf) distribution in
  ret (orZero (distribution !! prizeId)).

Definition addPrizeToCustomer (customer : Customer) (prizeId prizeLabel : string)
    (prizeNumber : Z) (env : Env) : M unit :=
  let spinPrizeTag := "Spin Prize: " +:+ prizeLabel in
  let spinDateTag := "Spin Date: " +:+ currentDate env in
  let prizeNumberTag := "Prize Number: " +:+ JS.ofNumber prizeNumber in
  let internalTag := "wheel_prize:" +:+ prizeId in
  let playedTag := "wheel_played" in
  let existingTags := tagList customer in
  let newTags :=
    (existingTags ++
     [spinPrizeTag; spinDateTag; prizeNumberTag; internalTag; playedTag])%list in
  let uniqueTags := JS.join ", " (JS.unique newTags) in
  do! updateCustomerTags (cid customer) uniqueTags in
  do! putCustomerNote (cid customer)
        ("Wheel Spin Prize: " +:+ prizeLabel +:+ " (#" +:+ JS.ofNumber prizeNumber
         +:+ ") on " +:+ now env) in
  ret tt.

Definition hasPlayedWheel (customer : Customer) : bool :=
  if String.eqb (tags customer) "" then false
  else
    let tags := JS.toLowerCase (tags customer) in
    JS.includes tags "wheel_played" || JS.includes tags "wheel_prize:".

Module PrizeInfo.
Record t := mk {
  label : string;
  date : option string;
  number : option string
}.
End PrizeInfo.

Definition getPrizeFromTags (customer : Customer) : option PrizeInfo.t :=
  if String.eqb (tags customer) "" then None
  else
    let tags := map JS.trim (JS.split "," (tags customer)) in
    let spinPrizeTag := JS.find (λ t, JS.startsWith t "Spin Prize:") tags in
    let spinDateTag := JS.find (λ t, JS.startsWith t "Spin Date:") tags in
    let prizeNumberTag := JS.find (λ t, JS.startsWith t "Prize Number:") tags in
    match spinPrizeTag with
    | None => None
    | Some spinPrizeTag =>
        Some (PrizeInfo.mk
                (JS.trim (JS.replace spinPrizeTag "Spin Prize:" ""))
                ((λ t, JS.trim (JS.replace t "Spin Date:" "")) <$> spinDateTag)
                ((λ t, JS.trim (JS.replace t "Prize Number:" "")) <$> prizeNumberTag))
    end.

(** The [prize] member of an already-played answer:
  [prizeInfo || { label: 'Already Played' }]. *)
Inductive Replay :=
  | Recorded (info : PrizeInfo.t)
  | LabelOnly (label : string).

Record Stat := mkStat {
  stat_id : string;
  stat_label : string;
  maxAvailable : option Z;
  remaining : option (option Z);   (* [None]: undefined *)
  totalDistributed : Z
}.

Inductive Response :=
  | BadRequest (error : string)                      (* 400 *)
  | Forbidden (error : string)                       (* 403 *)
  | ServerError (error : string)                     (* 500 *)
  | AlreadyPlayed (prize : Replay)                   (* { alreadyPlayed: true, prize } *)
  | Fallback (label : string) (number : Z)           (* { prize: { label, number } } *)
  | Won (id label : string) (number : Z)             (* { prize: { id, label, number } } *)
  | ResetDone (newCounts : JsonObject)               (* { success: true, message, newCounts } *)
  | StatsAre (stats : list Stat).                    (* { stats } *)

(** [counts[p.id] === null || counts[p.id] > 0] *)
Definition isAvailable (counts : JsonObject) (p : Prize) : bool :=
  match counts !! id p with
  | Some None => true
  | Some (Some n) => 0 <? n
  | None => false
  end.

(** The count update: nothing for [null]; [Math.max(0, n - 1)] for a
  number; for an absent member [Math.max(0, undefined - 1)] is NaN,
  which [JSON.stringify] stores as [null]. *)
Definition updateCounts (counts : JsonObject) (chosen : Prize) (shopMf : Loaded)
    : M unit :=
  match counts !! id chosen with
  | Some None => ret tt
  | Some (Some n) =>
      setShopPrizeCounts (<[id chosen := Some (Z.max 0 (n - 1))]> counts)
        (metafield shopMf)
  | None =>
      setShopPrizeCounts (<[id chosen := None]> counts) (metafield shopMf)
  end.

(** POST /spin, from the catalog read on: the customer has not played. *)
Definition allocate (customer : Customer) (env : Env) : M Response :=
  let! shopMf := ensureShopPrizeCounts in
  let! distributionMf := ensurePrizeDistribution in
  let counts := value shopMf in
  let available := List.filter (isAvailable counts) PRIZES in
  match available with
  | [] =>
      match JS.find (λ p, String.eqb (id p) "better_luck") PRIZES with
      | None => ret (ServerError "server error")   (* [fallback.id] throws *)
      | Some fallback =>
          let! prizeNumber := incrementPrizeDistribution (id fallback) distributionMf in
          do! addPrizeToCustomer customer (id fallback) (label fallback) prizeNumber env in
          ret (Fallback (label fallback) prizeNumber)
      end
  | first :: others =>
      let chosen := select prob (random env) first others in
      do! updateCounts counts chosen shopMf in
      let! prizeNumber := incrementPrizeDistribution (id chosen) distributionMf in
      do! addPrizeToCustomer customer (id chosen) (label chosen) prizeNumber env in
      ret (Won (id chosen) (label chosen) prizeNumber)
  end.

(** POST /spin; [phone] is [req.body.phone]. *)
Definition spin (phone : JS.value) (env : Env) : M Response :=
  match JS.trimOf (JS.or phone (JS.Str "")) with
  | None => ret (ServerError "server error")       (* [.trim] is not a function *)
  | Some phone =>
      if String.eqb phone "" then ret (BadRequest "phone required")
      else
        let! customer := findCustomerByPhone phone in
        match customer with
        | Some customer =>
            if hasPlayedWheel customer then
              ret (AlreadyPlayed
                     match getPrizeFromTags customer with
                     | Some prizeInfo => Recorded prizeInfo
                     | None => LabelOnly "Already Played"
                     end)
            else allocate customer env
        | None =>
            let! customer := createCustomerWithPhone phone in
            allocate customer env
        end
  end.

(** POST /admin/reset-prizes; [adminKey] is [req.body.adminKey]. *)
Definition resetPrizes (penv : ProcessEnv) (adminKey : JS.value) : M Response :=
  if negb (JS.strictEq adminKey (JS.ofEnv (ADMIN_RESET_KEY penv)))
  then ret (Forbidden "Unauthorized")
  else
    let! shopMf := ensureShopPrizeCounts in
    let resetCounts := fold_left (λ o p, <[id p := max p]> o) PRIZES ∅ in
    do! setShopPrizeCounts resetCounts (metafield shopMf) in
    ret (ResetDone resetCounts).

(** GET /admin/stats; [adminKey] is [req.query.adminKey]. *)
Definition stats (penv : ProcessEnv) (adminKey : JS.value) : M Response :=
  if negb (JS.strictEq adminKey (JS.ofEnv (ADMIN_RESET_KEY penv)))
  then ret (Forbidden "Unauthorized")
  else
    let! shopMf := ensureShopPrizeCounts in
    let! distributionMf := ensurePrizeDistribution in
    ret (StatsAre
           (map (λ p, mkStat (id p) (label p) (max p)
                        (value shopMf !! id p)
                        (orZero (value distributionMf !! id p)))
              PRIZES)).

(** ** Views of the store, used to state properties *)

(** The counts and the distribution the next request will work with. *)
Definition countsOf (s : Shop) : JsonObject :=
  default initialCounts (metafields s !! SHOP_METAFIELD_KEY).
Definition distributionOf (s : Shop) : JsonObject :=
  default initialDistribution (metafields s !! PRIZE_DISTRIBUTION_KEY).

(** What the statistics report for the prize [prizeId]. *)
Definition remainingOf (s : Shop) (prizeId : string) : option (option Z) :=
  countsOf s !! prizeId.
Definition totalDistributedOf (s : Shop) (prizeId : string) : Z :=
  orZero (distributionOf s !! prizeId).

(** The available subset of the catalog. *)
Definition availableOf (s : Shop) : list Prize :=
  List.filter (isAvailable (countsOf s)) PRIZES.

(** The counts and the distribution after one award of [prizeId]. *)
Definition decremented (counts : JsonObject) (prizeId : string) : JsonObject :=
  match counts !! prizeId with
  | Some (Some n) => <[prizeId := Some (Z.max 0 (n - 1))]> counts
  | Some None => counts
  | None => <[prizeId := None]> counts
  end.
Definition incremented (distribution : JsonObject) (prizeId : string) : JsonObject :=
  <[prizeId := Some (orZero (distribution !! prizeId) + 1)]> distribution.

(** The prize a request awards on the store [s]. *)
Definition awardedOn (s : Shop) (env : Env) : option Prize :=
  match availableOf s with
  | [] => JS.find (λ p, String.eqb (id p) "better_luck") PRIZES
  | first :: others => Some (select prob (random env) first others)
  end.

(** The customer behind an identity has no played-marker (or does not
  exist yet). *)
Definition mayPlay (s : Shop) (p : string) : bool :=
  match List.find (λ c, String.eqb (phone c) p) (customers s) with
  | Some customer => negb (hasPlayedWheel customer)
  | None => true
  end.

(** A run of spin requests, one after the other. *)
Fixpoint spins (reqs : list (JS.value * Env)) (s : Shop) : list Response * Shop :=
  match reqs with
  | [] => ([], s)
  | (phone, env) :: reqs' =>
      let r := spin phone env s in
      let rs := spins reqs' (store r) in
      (result r :: rs.1, rs.2)
  end.

End Metafield.

(* ===================================================================== *)
(** * The metaobject-backed server: catalog and counters in metaobjects *)
(* ===================================================================== *)

Module Metaobject.
Import Shopify.

Record Prize := mkPrize {
  id : string;
  label : string;
  prob : float;
  max : option Z;               (* [None] is [null]: no cap *)
  remaining : option Z;         (* [None] is [null]: unbounded *)
  totalDistributed : Z;
  metaobjectId : string
}.

(** The query does not fail in the store model, so the [null] results of
  the source (no [metaobjects] member, a thrown error) do not arise. *)
Definition getAllWheelPrizeMetaobjects : M (list Shopify.Metaobject) :=
  queryMetaobjects.

Definition updatePrizeMetaobject (metaobjectId : string) (updates : list FieldUpdate)
    : M unit :=
  updateMetaobject metaobjectId updates.

(** The probability of one entry: a percentage, turned into a decimal and
  capped at 1; 1.0 when the field is empty, not a number or negative. *)
Definition parseProb (probStr : option float) : float :=
  let prob :=
    match probStr with
    | None => 1.0%float
    | Some prob =>
        if PrimFloat.is_nan prob || (prob <? 0)%float then 1.0%float
        else (prob / 100)%float
    end in
  if (1 <? prob)%float then 1%float else prob.

(** A count field that is present, not [-1], a number and [>= 0]. *)
Definition parseCount (str : option Z) : option Z :=
  match str with
  | Some parsed => if 0 <=? parsed then Some parsed else None
  | None => None
  end.

(** The body of [metaobjects.forEach]: [None] for an entry that is skipped. *)
Definition toPrize (mo : Shopify.Metaobject) : option Prize :=
  match prize_id mo, prize_label mo with
  | Some id, Some label =>
      if String.eqb id "" || String.eqb label "" then None
      else
        let prob := parseProb (probability mo) in
        let max := parseCount (max_count mo) in
        let remaining :=
          match parseCount (remaining_count mo) with
          | Some parsed => Some parsed
          | None => max
          end in
        let remaining :=
          match max, remaining with
          | Some m, Some r => if m <? r then max else remaining
          | _, _ => remaining
          end in
        let totalDistributed :=
          match total_distributed mo with
          | Some n => n
          | None => 0
          end in
        Some (mkPrize id label prob max
                (match max with None => None | Some _ => remaining end)
                totalDistributed (mo_id mo))
  | _, _ => None
  end.

(** [inl message] is the thrown [Error(message)]. *)
Definition loadPrizesFromMetaobjects : M (string + list Prize) :=
  let! metaobjects := getAllWheelPrizeMetaobjects in
  match metaobjects with
  | [] =>
      ret (inl "No metaobjects found. Please create prize metaobjects in Shopify Admin first.")
  | _ =>
      match omap toPrize metaobjects with
      | [] =>
          ret (inl "No valid prizes found in metaobjects. Check prize_id and prize_label fields.")
      | prizes => ret (inr prizes)
      end
  end.

Definition getCurrentPrizes : M (string + list Prize) :=
  loadPrizesFromMetaobjects.

(** [Math.max(0, prize.remaining - 1)] and [prize.totalDistributed + 1] are
  written in the integers, which is the binary64 arithmetic of the code
  for counters that are safe integers. *)
Definition updatePrizeAfterSpin (prize : Prize) (env : Env) : M Z :=
  let updates :=
    match remaining prize with
    | Some r =>
        let newRemaining := Z.max 0 (r - 1) in
        [remaining_count_is newRemaining; is_available_is (0 <? newRemaining)]
    | None => [is_available_is true]
    end in
  let newTotal := totalDistributed prize + 1 in
  let updates := (updates ++ [total_distributed_is newTotal])%list in
  let updates := (updates ++ [last_updated_is (now env)])%list in
  do! updatePrizeMetaobject (metaobjectId prize) updates in
  ret newTotal.

Definition addPrizeToCustomer (customer : Customer) (prizeLabel : string)
    (env : Env) : M unit :=
  let spinPrizeTag := "Spin Prize: " +:+ prizeLabel in
  let spinDateTag := "Spin Date: " +:+ currentDate env in
  let existingTags := tagList customer in
  let newTags := (existingTags ++ [spinPrizeTag; spinDateTag])%list in
  let uniqueTags := JS.join ", " (JS.unique newTags) in
  do! updateCustomerTags (cid customer) uniqueTags in
  do! putCustomerNote (cid customer)
        ("Wheel Spin Prize: " +:+ prizeLabel +:+ " on " +:+ now env) in
  ret tt.

Definition hasPlayedWheel (customer : Customer) : bool :=
  if String.eqb (tags customer) "" then false
  else
    let tags := JS.toLowerCase (tags customer) in
    JS.includes tags "spin prize:".

Module PrizeInfo.
Record t := mk {
  label : string;
  date : option string
}.
End PrizeInfo.

Definition getPrizeFromTags (customer : Customer) : option PrizeInfo.t :=
  if String.eqb (tags customer) "" then None
  else
    let tags := map JS.trim (JS.split "," (tags customer)) in
    let spinPrizeTag := JS.find (λ t, JS.startsWith t "Spin Prize:") tags in
    let spinDateTag := JS.find (λ t, JS.startsWith t "Spin Date:") tags in
    match spinPrizeTag with
    | None => None
    | Some spinPrizeTag =>
        Some (PrizeInfo.mk
                (JS.trim (JS.replace spinPrizeTag "Spin Prize:" ""))
                ((λ t, JS.trim (JS.replace t "Spin Date:" "")) <$> spinDateTag))
    end.

Inductive Replay :=
  | Recorded (info : PrizeInfo.t)
  | LabelOnly (label : string).

(** One entry of the statistics; [probability] is [p.prob * 100], before
  it is printed with two decimals. *)
Record Stat := mkStat {
  stat_id : string;
  stat_label : string;
  probability : float;
  maxCount : option Z;
  stat_remaining : option Z;
  stat_totalDistributed : Z;
  isAvailable : bool
}.

Inductive Response :=
  | BadRequest (error : string)                      (* 400 *)
  | Forbidden (error : string)                       (* 403 *)
  | ServerError (error : string)                     (* 500 *)
  | AlreadyPlayed (prize : Replay)                   (* { alreadyPlayed: true, prize } *)
  | Fallback (label : string) (number : Z)           (* { prize: { label, number } } *)
  | Won (id label : string) (number : Z)             (* { prize: { id, label, number } } *)
  | ResetDone                                        (* { success: true, message } *)
  | StatsAre (stats : list Stat).                    (* { stats } *)

(** [p.remaining === null || p.remaining > 0] *)
Definition available (p : Prize) : bool :=
  match remaining p with
  | None => true
  | Some n => 0 <? n
  end.

(** [PRIZES.find(p => p.id === 'better_luck') || PRIZES[PRIZES.length - 1]] *)
Definition fallbackOf (PRIZES : list Prize) : option Prize :=
  match JS.find (λ p, String.eqb (id p) "better_luck") PRIZES with
  | Some p => Some p
  | None => last PRIZES
  end.

(** POST /spin, from the catalog read on: the customer has not played. *)
Definition allocate (customer : Customer) (env : Env) : M Response :=
  let! loaded := getCurrentPrizes in
  match loaded with
  | inl _ => ret (ServerError "server error")
  | inr PRIZES =>
      match List.filter available PRIZES with
      | [] =>
          match fallbackOf PRIZES with
          | None => ret (ServerError "server error")   (* [fallback] undefined *)
          | Some fallback =>
              let! prizeNumber := updatePrizeAfterSpin fallback env in
              do! addPrizeToCustomer customer (label fallback) env in
              ret (Fallback (label fallback) prizeNumber)
          end
      | first :: others =>
          let chosen := select prob (random env) first others in
          let! prizeNumber := updatePrizeAfterSpin chosen env in
          do! addPrizeToCustomer customer (label chosen) env in
          ret (Won (id chosen) (label chosen) prizeNumber)
      end
  end.

(** POST /spin; [phone] is [req.body.phone]. *)
Definition spin (phone : JS.value) (env : Env) : M Response :=
  match JS.trimOf (JS.or phone (JS.Str "")) with
  | None => ret (ServerError "server error")       (* [.trim] is not a function *)
  | Some phone =>
      if String.eqb phone "" then ret (BadRequest "phone required")
      else
        let! customer := findCustomerByPhone phone in
        match customer with
        | Some customer =>
            if hasPlayedWheel customer then
              ret (AlreadyPlayed
                     match getPrizeFromTags customer with
                     | Some prizeInfo => Recorded prizeInfo
                     | None => LabelOnly "Already Played"
                     end)
            else allocate customer env
        | None =>
            let! customer := createCustomerWithPhone phone in
            allocate customer env
        end
  end.

(** [for (const prize of PRIZES) await f(prize)] *)
Fixpoint forEach {A} (l : list A) (f : A → M unit) : M unit :=
  match l with
  | [] => ret tt
  | x :: l' => do! f x in forEach l' f
  end.

Definition resetOne (env : Env) (prize : Prize) : M unit :=
  let resetValue := match max prize with None => -1 | Some m => m end in
  updatePrizeMetaobject (metaobjectId prize)
    [remaining_count_is resetValue;
     is_available_is (match max prize with None => true | Some m => 0 <? m end);
     last_updated_is (now env)].

(** POST /admin/reset-prizes; [adminKey] is [req.body.adminKey]. *)
Definition resetPrizes (penv : ProcessEnv) (adminKey : JS.value) (env : Env)
    : M Response :=
  if negb (JS.strictEq adminKey (JS.ofEnv (ADMIN_RESET_KEY penv)))
  then ret (Forbidden "Unauthorized")
  else
    let! loaded := getCurrentPrizes in
    match loaded with
    | inl _ => ret (ServerError "server error")
    | inr PRIZES =>
        do! forEach PRIZES (resetOne env) in
        ret ResetDone
    end.

Definition statOf (p : Prize) : Stat :=
  mkStat (id p) (label p) (prob p * 100)%float (max p) (remaining p)
    (totalDistributed p) (available p).

(** GET /admin/stats; [adminKey] is [req.query.adminKey]. *)
Definition stats (penv : ProcessEnv) (adminKey : JS.value) : M Response :=
  if negb (JS.strictEq adminKey (JS.ofEnv (ADMIN_RESET_KEY penv)))
  then ret (Forbidden "Unauthorized")
  else
    let! loaded := getCurrentPrizes in
    match loaded with
    | inl _ => ret (ServerError "server error")
    | inr PRIZES => ret (StatsAre (map statOf PRIZES))
    end.

(** ** Views of the store, used to state properties *)

(** The catalog snapshot the next request will load. *)
Definition catalogOf (s : Shop) : list Prize :=
  omap toPrize (take 50 (metaobjects s)).

Definition availableOf (s : Shop) : list Prize :=
  List.filter available (catalogOf s).

Definition mayPlay (s : Shop) (p : string) : bool :=
  match List.find (λ c, String.eqb (phone c) p) (customers s) with
  | Some customer => negb (hasPlayedWheel customer)
  | None => true
  end.

(** The prize a request awards on the store [s]. *)
Definition awardedOn (s : Shop) (env : Env) : option Prize :=
  match availableOf s with
  | [] => fallbackOf (catalogOf s)
  | first :: others => Some (select prob (random env) first others)
  end.

(** The remaining count the loader derives for a cap and a stored count. *)
Definition loadedRemaining (max remainingStr : option Z) : option Z :=
  match max with
  | None => None
  | Some m =>
      match parseCount remainingStr with
      | Some parsed => if m <? parsed then Some m else Some parsed
      | None => Some m
      end
  end.

(** The field updates of one award and of one reset. *)
Definition awardUpdates (prize : Prize) (env : Env) : list FieldUpdate :=
  ((match remaining prize with
    | Some r =>
        [remaining_count_is (Z.max 0 (r - 1));
         is_available_is (0 <? Z.max 0 (r - 1))]
    | None => [is_available_is true]
    end ++ [total_distributed_is (totalDistributed prize + 1)])
   ++ [last_updated_is (now env)])%list.
Definition resetUpdates (prize : Prize) (env : Env) : list FieldUpdate :=
  [remaining_count_is (match max prize with None => -1 | Some m => m end);
   is_available_is (match max prize with None => true | Some m => 0 <? m end);
   last_updated_is (now env)].

(** The stored entries after the reset loop has run over [ps]. *)
Definition afterResets (env : Env) (ps : list Prize) (mos : list Shopify.Metaobject)
    : list Shopify.Metaobject :=
  fold_left (λ mos p, map (apply_updates (metaobjectId p) (resetUpdates p env)) mos) ps mos.

(** One award applied to a catalog entry. *)
Definition award (p : Prize) : Prize :=
  mkPrize (id p) (label p) (prob p) (max p)
    (match remaining p with Some r => Some (Z.max 0 (r - 1)) | None => None end)
    (totalDistributed p + 1) (metaobjectId p).

(** One reset applied to a catalog entry. *)
Definition refill (p : Prize) : Prize :=
  mkPrize (id p) (label p) (prob p) (max p) (max p) (totalDistributed p)
    (metaobjectId p).

(** A run of spin requests, one after the other. *)
Fixpoint spins (reqs : list (JS.value * Env)) (s : Shop) : list Response * Shop :=
  match reqs with
  | [] => ([], s)
  | (phone, env) :: reqs' =>
      let r := spin phone env s in
      let rs := spins reqs' (store r) in
      (result r :: rs.1, rs.2)
  end.

End Metaobject.

(** ** Views shared by both servers *)

(** The identity a request body carries: [(req.body.phone || '').trim()];
    [None] when the call throws. *)
Definition identityOf (phone : JS.value) : option string :=
  JS.trimOf (JS.or phone (JS.Str "")).

(** The identity is missing, falsy, or a string of white space only. *)
Definition emptyIdentity (phone : JS.value) : Prop :=
  JS.truthy phone = false ∨ ∃ str, phone = JS.Str str ∧ JS.trim str = "".

(** The customer the search returns for an identity. *)
Definition customerOf (s : Shopify.Shop) (p : string) : option Shopify.Customer :=
  List.find (λ c, String.eqb (Shopify.phone c) p) (Shopify.customers s).

(** Passing the participation gate: the customer the rest of the request
    works for, the store and the requests sent so far. *)
Definition enter (s : Shopify.Shop) (p : string)
    : Shopify.Customer * Shopify.Shop * list Shopify.Call :=
  match customerOf s p with
  | Some customer => (customer, s, [Shopify.SearchCustomers p])
  | None =>
      (Shopify.result (Shopify.postCustomer p s), Shopify.store (Shopify.postCustomer p s),
       [Shopify.SearchCustomers p; Shopify.PostCustomer p])
  end.

(** The fallback in the words of the design: the entry of the catalog
  that has no cap and, when the catalog has none, its last entry. *)
Definition uncappedElseLast {Prize : Type} (cap : Prize → option Z) (catalog : list Prize)
    : option Prize :=
  match List.find (λ q, match cap q with None => true | Some _ => false end) catalog with
  | Some q => Some q
  | None => last catalog
  end.

(** A write carries a last-updated stamp. *)
Definition stamped (c : Shopify.Call) : bool :=
  existsb (String.eqb "last_updated") (Shopify.written_keys c).

(** A request to the customer or metafield endpoints. *)
Definition restCall (c : Shopify.Call) : bool :=
  match c with
  | Shopify.QueryMetaobjects | Shopify.UpdateMetaobject _ _ => false
  | _ => true
  end.

(** A write of inventory counters: a metafield or a metaobject write. *)
Definition writesCounters (c : Shopify.Call) : bool :=
  match c with
  | Shopify.PutMetafield _ _ | Shopify.UpdateMetaobject _ _ => true
  | _ => false
  end.

(* ===================================================================== *)
(** * Example stores *)
(* ===================================================================== *)

Module Example.
Import Shopify.

Definition env : Env := mkEnv 0.5%float "2025-01-02T03:04:05.000Z".
Definition env' : Env := mkEnv 0.25%float "2025-01-03T10:00:00.000Z".

(** A customer who has played, as either server records it. *)
Definition played : Customer :=
  mkCustomer 7 "98765"
    "Spin Prize: Mobile Holder, Spin Date: 2025-01-02, Prize Number: 1, wheel_prize:mobile_holder, wheel_played"
    "Wheel Spin Prize: Mobile Holder (#1) on 2025-01-02T03:04:05.000Z".

(** Prize A: 50 percent, cap 1, one left.  Prize B: 50 percent, no cap
  ([max_count] is [-1]).  Prize C: cap 2, none left. *)
Definition prizeA : Metaobject :=
  mkMetaobject "gid://shopify/Metaobject/1" (Some "A") (Some "Prize A")
    (Some 50%float) (Some 1) (Some 1) (Some 0) (Some true) None.
Definition prizeB : Metaobject :=
  mkMetaobject "gid://shopify/Metaobject/2" (Some "B") (Some "Prize B")
    (Some 50%float) (Some (-1)) None None None None.
Definition prizeC : Metaobject :=
  mkMetaobject "gid://shopify/Metaobject/3" (Some "C") (Some "Prize C")
    (Some 10%float) (Some 2) (Some 0) (Some 2) (Some false) None.

(** A store in which nothing was created yet for index.js, with the
  catalog A, B. *)
Definition fresh : Shop := mkShop [played] 8 ∅ [prizeA; prizeB].

(** A store whose counts are all used up: for index.js every count is 0,
  also the one of [better_luck]; the metaobject catalog is C alone. *)
Definition exhausted : Shop :=
  mkShop [played] 8
    {[ "prize_counts" :=
         {[ "kivo_easy_lite" := Some 0; "1gm_gold_coin" := Some 0;
            "free_helmet" := Some 0; "mobile_holder" := Some 0;
            "water_bottle" := Some 0; "better_luck" := Some 0 ]} ]}
    [prizeC].

(** One prize used up, the others not: index.js has no [kivo_easy_lite]
  left; the metaobject catalog is C (none left), A, B. *)
Definition partly : Shop :=
  mkShop [played] 8
    {[ "prize_counts" :=
         {[ "kivo_easy_lite" := Some 0; "1gm_gold_coin" := Some 5;
            "free_helmet" := Some 20; "mobile_holder" := Some 20;
            "water_bottle" := Some 20; "better_luck" := None ]} ]}
    [prizeC; prizeA; prizeB].

(** A metaobject catalog that is used up and whose first entry carries the
  id 'better_luck', with a cap. *)
Definition prizeLuck : Metaobject :=
  mkMetaobject "gid://shopify/Metaobject/4" (Some "better_luck")
    (Some "Better Luck Next Time") (Some 1%float) (Some 3) (Some 0) (Some 3)
    (Some false) None.
Definition luckFirst : Shop := mkShop [] 1 ∅ [prizeLuck; prizeC].

(** Prize D: cap 1, none left.  A catalog that is used up and has no entry
  with the id 'better_luck': C, D. *)
Definition prizeD : Metaobject :=
  mkMetaobject "gid://shopify/Metaobject/5" (Some "D") (Some "Prize D")
    (Some 20%float) (Some 1) (Some 0) (Some 1) (Some false) None.
Definition usedUp : Shop := mkShop [] 1 ∅ [prizeC; prizeD].

(** Prize E: cap 2, both left.  A catalog with the entry 'better_luck',
  used up, and E. *)
Definition prizeE : Metaobject :=
  mkMetaobject "gid://shopify/Metaobject/6" (Some "E") (Some "Prize E")
    (Some 30%float) (Some 2) (Some 2) (Some 0) (Some true) None.
Definition stocked : Shop := mkShop [] 1 ∅ [prizeLuck; prizeE].

End Example.

(* ===================================================================== *)
(** * The routes that only read, and the start of the server *)
(* ===================================================================== *)

(** index.js *)
Module MetafieldRoutes.
Import Shopify.

(** The answer of GET /customer/:phone. *)
Inductive CustomerAnswer :=
  | NotFound                                         (* { found: false } *)
  | Found (customerId : Z) (hasPlayed : bool)
      (prize : option Metafield.PrizeInfo.t) (tags note : string).

(** GET /customer/:phone; [phone] is [req.params.phone], a string. *)
Definition customer (phone : string) : M CustomerAnswer :=
  let! customer := findCustomerByPhone phone in
  match customer with
  | None => ret NotFound
  | Some customer =>
      let hasPlayed := Metafield.hasPlayedWheel customer in
      let prize := Metafield.getPrizeFromTags customer in
      ret (Found (cid customer) hasPlayed prize (tags customer) (note customer))
  end.

(** The start of the server, up to [app.listen]. *)
Definition startup : M unit :=
  do! Metafield.ensureShopPrizeCounts in
  do! Metafield.ensurePrizeDistribution in
  ret tt.

End MetafieldRoutes.

(** The metaobject-backed server *)
Module MetaobjectRoutes.
Import Shopify.

Inductive CustomerAnswer :=
  | NotFound                                         (* { found: false } *)
  | Found (customerId : Z) (hasPlayed : bool)
      (prize : option Metaobject.PrizeInfo.t) (tags note : string).

(** GET /customer/:phone; [phone] is [req.params.phone], a string. *)
Definition customer (phone : string) : M CustomerAnswer :=
  let! customer := findCustomerByPhone phone in
  match customer with
  | None => ret NotFound
  | Some customer =>
      let hasPlayed := Metaobject.hasPlayedWheel customer in
      let prize := Metaobject.getPrizeFromTags customer in
      ret (Found (cid customer) hasPlayed prize (tags customer) (note customer))
  end.

Inductive PrizesAnswer :=
  | PrizesError (error : string)                               (* 500 *)
  | PrizesAre (prizes : list Metaobject.Stat) (lastUpdated : string).

(** GET /api/prizes/available; no key is asked for. *)
Definition availablePrizes (env : Env) : M PrizesAnswer :=
  let! loaded := Metaobject.getCurrentPrizes in
  match loaded with
  | inl _ => ret (PrizesError "server error")
  | inr PRIZES =>
      let availablePrizes :=
        map (λ p, Metaobject.mkStat (Metaobject.id p) (Metaobject.label p)
                    (Metaobject.prob p * 100)%float (Metaobject.max p)
                    (Metaobject.remaining p) (Metaobject.totalDistributed p)
                    (match Metaobject.remaining p with
                     | None => true
                     | Some n => 0 <? n
                     end))
          PRIZES in
      ret (PrizesAre availablePrizes (now env))
  end.

End MetaobjectRoutes.

(** The variant of index.js that mirrors its counters into metaobjects:
    its allocation code is that of index.js; besides, it has the route
    below. *)
Module MirrorRoutes.
Import Shopify.

Record Entry := mkEntry {
  entry_id : string;
  entry_label : string;
  remaining : option (option Z);   (* [None]: undefined *)
  totalDistributed : Z;
  isAvailable : bool
}.

Inductive PrizesAnswer :=
  | PrizesAre (prizes : list Entry) (lastUpdated : string).

(** GET /api/prizes/available; no key is asked for. *)
Definition availablePrizes (env : Env) : M PrizesAnswer :=
  let! shopMf := Metafield.ensureShopPrizeCounts in
  let! distributionMf := Metafield.ensurePrizeDistribution in
  let availablePrizes :=
    map (λ p, mkEntry (Metafield.id p) (Metafield.label p)
                (Metafield.value shopMf !! Metafield.id p)
                (Metafield.orZero (Metafield.value distributionMf !! Metafield.id p))
                (match Metafield.value shopMf !! Metafield.id p with
                 | Some None => true
                 | Some (Some n) => 0 <? n
                 | None => false
                 end))
      Metafield.PRIZES in
  ret (PrizesAre availablePrizes (now env)).

End MirrorRoutes.

(** ** Views of the customer tags *)

Module Tags.
Import Shopify.

(** Every character of [s] passes [f]. *)
Fixpoint all (f : ascii → bool) (s : string) : bool :=
  match s with
  | String c s' => f c && all f s'
  | EmptyString => true
  end.

(** The text holds no comma, the separator of the stored tag list. *)
Definition noComma (s : string) : bool :=
  all (λ c, negb (Ascii.eqb c ","%char)) s.

(** The text [x] occurs in the text [s]. *)
Definition occurs (x s : string) : Prop := ∃ a b, s = a +:+ x +:+ b.

(** The tags one award adds, in index.js and in the metaobject-backed
  server. *)
Definition ofMetafieldAward (prizeId prizeLabel : string) (prizeNumber : Z)
    (env : Env) : list string :=
  ["Spin Prize: " +:+ prizeLabel; "Spin Date: " +:+ currentDate env;
   "Prize Number: " +:+ JS.ofNumber prizeNumber; "wheel_prize:" +:+ prizeId;
   "wheel_played"].
Definition ofMetaobjectAward (prizeLabel : string) (env : Env) : list string :=
  ["Spin Prize: " +:+ prizeLabel; "Spin Date: " +:+ currentDate env].

(** The stored tag text after the tags [new] were added to a customer. *)
Definition merged (customer : Customer) (new : list string) : string :=
  JS.join ", " (JS.unique (tagList customer ++ new)).

(** The customer carries no tag that records a prize, a date or a number. *)
Definition unrecorded (customer : Customer) : bool :=
  forallb (λ t, negb (JS.startsWith t "Spin Prize:") &&
                negb (JS.startsWith t "Spin Date:") &&
                negb (JS.startsWith t "Prize Number:"))
    (tagList customer).

End Tags.

(** The number of answers of a run that award the prize [prizeId] in a
    draw. *)
Definition wins (prizeId : string) (answers : list Metafield.Response) : Z :=
  Z.of_nat (length (List.filter
    (λ a, match a with
          | Metafield.Won i _ _ => String.eqb i prizeId
          | _ => false
          end) answers)).

(** The entry [q'] has the configuration of the entry [q]: the same id,
    label, weight, cap and metaobject. *)
Definition sameSetup (q q' : Metaobject.Prize) : Prop :=
  Metaobject.id q' = Metaobject.id q ∧ Metaobject.label q' = Metaobject.label q ∧
  Metaobject.prob q' = Metaobject.prob q ∧ Metaobject.max q' = Metaobject.max q ∧
  Metaobject.metaobjectId q' = Metaobject.metaobjectId q.

(** ** More example stores *)

Module Visitors.
Import Shopify.

(** A customer with tags of the shop's own, who has not played. *)
Definition regular : Customer :=
  mkCustomer 3 "5550100" "vip, newsletter" "".

(** The store [Example.partly] with that customer added. *)
Definition store : Shop :=
  mkShop [Example.played; regular] 8 (metafields Example.partly)
    (metaobjects Example.partly).

End Visitors.

(* ===================================================================== *)
(** * Running a handler *)
(* ===================================================================== *)

Section Running.
Import Shopify.
Context {A B : Type}.

Lemma bind_step (m : M A) (f : A → M B) s a s1 l1 :
  m s = (a, s1, l1) →
  bind m f s = let '(b, s2, l2) := f a s1 in (b, s2, (l1 ++ l2)%list).
Proof. unfold bind. by intros ->. Qed.

Lemma bind_sent (m : M A) (f : A → M B) s :
  sent (bind m f s) = (sent (m s) ++ sent (f (result (m s)) (store (m s))))%list.
Proof.
  unfold bind, result, store, sent. destruct (m s) as [[a s1] l1]. simpl.
  by destruct (f a s1) as [[b s2] l2].
Qed.

End Running.

Lemma shop_eta (s : Shopify.Shop) :
  Shopify.mkShop (Shopify.customers s) (Shopify.next_customer_id s)
    (Shopify.metafields s) (Shopify.metaobjects s) = s.
Proof. by destruct s. Qed.

(* ===================================================================== *)
(** * Request validation and the admin key *)
(* ===================================================================== *)

Section Requests.
Import Shopify.

Lemma strictEq_ofEnv (a : JS.value) (k : option string) :
  JS.strictEq a (JS.ofEnv k) = true ↔ a = JS.ofEnv k.
Proof.
  destruct a, k; simpl; split; try done.
  - intros H. apply String.eqb_eq in H. by subst.
  - intros [= ->]. apply String.eqb_refl.
Qed.

Lemma strictEq_ofEnv_false (a : JS.value) (k : option string) :
  JS.strictEq a (JS.ofEnv k) = false ↔ a ≠ JS.ofEnv k.
Proof.
  rewrite <- strictEq_ofEnv.
  destruct (JS.strictEq a (JS.ofEnv k)); split; congruence.
Qed.

Lemma identityOf_empty phone : emptyIdentity phone → identityOf phone = Some "".
Proof.
  unfold identityOf, JS.or. intros [H | (str & -> & H)].
  - by rewrite H.
  - destruct (JS.truthy (JS.Str str)); simpl; [by rewrite H | done].
Qed.

Lemma enter_metafields s p : metafields (store (enter s p)) = metafields s.
Proof. unfold enter. by destruct (customerOf s p). Qed.

Lemma enter_metaobjects s p : metaobjects (store (enter s p)) = metaobjects s.
Proof. unfold enter. by destruct (customerOf s p). Qed.

End Requests.

(* ===================================================================== *)
(** * index.js: what one request does to the counters *)
(* ===================================================================== *)

Section MetafieldRuns.
Import Shopify Metafield.

Lemma mf_spin_played phone env s p customer :
  identityOf phone = Some p → p ≠ "" →
  customerOf s p = Some customer →
  hasPlayedWheel customer = true →
  spin phone env s =
    (AlreadyPlayed
       match getPrizeFromTags customer with
       | Some prizeInfo => Recorded prizeInfo
       | None => LabelOnly "Already Played"
       end, s, [SearchCustomers p]).
Proof.
  intros Hid Hne Hc Hpl. unfold spin. fold (identityOf phone). rewrite Hid.
  destruct (String.eqb_spec p "") as [->|_]; [done|].
  unfold bind, findCustomerByPhone, searchCustomers. unfold customerOf in Hc.
  by rewrite Hc, Hpl.
Qed.

Lemma mf_spin_allocates phone env s p :
  identityOf phone = Some p → p ≠ "" → mayPlay s p = true →
  spin phone env s =
    let '(b, s2, l2) := allocate (result (enter s p)) env (store (enter s p)) in
    (b, s2, (sent (enter s p) ++ l2)%list).
Proof.
  intros Hid Hne Hmay. unfold spin. fold (identityOf phone). rewrite Hid.
  destruct (String.eqb_spec p "") as [->|_]; [done|].
  unfold mayPlay in Hmay. revert Hmay. unfold enter, customerOf.
  unfold bind at 1, findCustomerByPhone, searchCustomers.
  destruct (List.find _ _) as [c|] eqn:Hc; intros Hmay.
  - apply negb_true_iff in Hmay. rewrite Hmay. reflexivity.
  - unfold bind, createCustomerWithPhone. cbn [result store sent fst snd].
    destruct (postCustomer p s) as [[c s1] l1] eqn:Hpost.
    unfold postCustomer in Hpost. injection Hpost as <- <- <-.
    by destruct (allocate _ _ _) as [[b s2] l2].
Qed.

Lemma mf_spin_refused phone env s :
  (∀ p, identityOf phone = Some p → p ≠ "" → mayPlay s p = false) →
  store (spin phone env s) = s ∧
  (∀ i l n, result (spin phone env s) ≠ Won i l n) ∧
  (∀ l n, result (spin phone env s) ≠ Fallback l n).
Proof.
  intros Hno.
  enough (∃ resp l, spin phone env s = (resp, s, l) ∧
            (∀ i l n, resp ≠ Won i l n) ∧ (∀ l n, resp ≠ Fallback l n))
    as (resp & l & -> & ? & ?) by done.
  unfold spin. fold (identityOf phone).
  destruct (identityOf phone) as [p|] eqn:Hid; [|by eexists _, _].
  destruct (String.eqb_spec p "") as [->|Hne]; [by eexists _, _|].
  specialize (Hno p eq_refl Hne). unfold mayPlay in Hno. revert Hno.
  unfold bind at 1, findCustomerByPhone, searchCustomers.
  destruct (List.find _ _) as [c|] eqn:Hc; [|discriminate].
  intros Hno. apply negb_false_iff in Hno. rewrite Hno. by eexists _, _.
Qed.

Lemma ensureShopPrizeCounts_run s :
  ensureShopPrizeCounts s =
    (mkLoaded SHOP_METAFIELD_KEY (countsOf s),
     with_metafields s (<[SHOP_METAFIELD_KEY := countsOf s]> (metafields s)),
     GetMetafield SHOP_METAFIELD_KEY ::
       match metafields s !! SHOP_METAFIELD_KEY with
       | Some _ => []
       | None => [PostMetafield SHOP_METAFIELD_KEY initialCounts]
       end).
Proof.
  unfold ensureShopPrizeCounts, countsOf, bind, getMetafield, postMetafield, ret.
  destruct (metafields s !! SHOP_METAFIELD_KEY) as [v|] eqn:E; simpl; [|done].
  unfold with_metafields. by rewrite insert_id, shop_eta.
Qed.

Lemma ensurePrizeDistribution_run s :
  ensurePrizeDistribution s =
    (mkLoaded PRIZE_DISTRIBUTION_KEY (distributionOf s),
     with_metafields s (<[PRIZE_DISTRIBUTION_KEY := distributionOf s]> (metafields s)),
     GetMetafield PRIZE_DISTRIBUTION_KEY ::
       match metafields s !! PRIZE_DISTRIBUTION_KEY with
       | Some _ => []
       | None => [PostMetafield PRIZE_DISTRIBUTION_KEY initialDistribution]
       end).
Proof.
  unfold ensurePrizeDistribution, distributionOf, bind, getMetafield, postMetafield, ret.
  destruct (metafields s !! PRIZE_DISTRIBUTION_KEY) as [v|] eqn:E; simpl; [|done].
  unfold with_metafields. by rewrite insert_id, shop_eta.
Qed.

Lemma incrementPrizeDistribution_run prizeId dmf s :
  incrementPrizeDistribution prizeId dmf s =
    (orZero (value dmf !! prizeId) + 1,
     with_metafields s (<[metafield dmf := incremented (value dmf) prizeId]> (metafields s)),
     [PutMetafield (metafield dmf) (incremented (value dmf) prizeId)]).
Proof.
  unfold incrementPrizeDistribution, incremented, bind, putMetafield, ret.
  cbn beta iota zeta. by rewrite lookup_insert_eq.
Qed.

Lemma updateCounts_run counts chosen shopMf s :
  metafields s !! metafield shopMf = Some counts →
  updateCounts counts chosen shopMf s =
    (tt, with_metafields s (<[metafield shopMf := decremented counts (id chosen)]> (metafields s)),
     match counts !! id chosen with
     | Some None => []
     | _ => [PutMetafield (metafield shopMf) (decremented counts (id chosen))]
     end).
Proof.
  intros Hc. unfold updateCounts, decremented, setShopPrizeCounts, putMetafield, ret.
  destruct (counts !! id chosen) as [[n|]|]; simpl; try done.
  unfold with_metafields. by rewrite insert_id, shop_eta.
Qed.

(** The two metafields are stored under different keys. *)
Lemma keys_differ : SHOP_METAFIELD_KEY ≠ PRIZE_DISTRIBUTION_KEY.
Proof. done. Qed.

Lemma countsOf_with s m :
  countsOf (with_metafields s m) = default initialCounts (m !! SHOP_METAFIELD_KEY).
Proof. done. Qed.

Lemma distributionOf_with s m :
  distributionOf (with_metafields s m) = default initialDistribution (m !! PRIZE_DISTRIBUTION_KEY).
Proof. done. Qed.

Lemma countsOf_with_customers s l n : countsOf (with_customers s l n) = countsOf s.
Proof. done. Qed.

Lemma distributionOf_with_customers s l n :
  distributionOf (with_customers s l n) = distributionOf s.
Proof. done. Qed.

Lemma better_luck_entry :
  JS.find (λ p, String.eqb (id p) "better_luck") PRIZES =
    Some (mkPrize "better_luck" "Better Luck Next Time" 0.01 None).
Proof. reflexivity. Qed.

(** The catalog read and the award, on the counters. *)
Lemma allocate_awards customer env s :
  let r := allocate customer env s in
  metaobjects (store r) = metaobjects s ∧
  match availableOf s with
  | [] =>
      result r = Fallback "Better Luck Next Time" (totalDistributedOf s "better_luck" + 1) ∧
      countsOf (store r) = countsOf s ∧
      distributionOf (store r) = incremented (distributionOf s) "better_luck"
  | first :: others =>
      let chosen := select prob (random env) first others in
      result r = Won (id chosen) (label chosen) (totalDistributedOf s (id chosen) + 1) ∧
      countsOf (store r) = decremented (countsOf s) (id chosen) ∧
      distributionOf (store r) = incremented (distributionOf s) (id chosen)
  end.
Proof.
  intros r. subst r. unfold allocate, availableOf, totalDistributedOf.
  erewrite bind_step by apply ensureShopPrizeCounts_run.
  erewrite bind_step by apply ensurePrizeDistribution_run.
  cbn [value]. rewrite distributionOf_with, lookup_insert_ne by apply keys_differ.
  fold (distributionOf s).
  destruct (List.filter (isAvailable (countsOf s)) PRIZES) as [|first others].
  - rewrite better_luck_entry. cbn [id label].
    erewrite bind_step by apply incrementPrizeDistribution_run.
    unfold addPrizeToCustomer, updateCustomerTags, putCustomerTags, putCustomerNote, bind, ret.
    cbn [result store fst snd metafields metaobjects with_metafields with_customers
           metafield value].
    rewrite !countsOf_with_customers, !distributionOf_with_customers.
    rewrite countsOf_with, distributionOf_with. by simplify_map_eq.
  - set (chosen := select prob (random env) first others).
    erewrite bind_step.
    2:{ apply updateCounts_run. cbn. by simplify_map_eq. }
    erewrite bind_step by apply incrementPrizeDistribution_run.
    unfold addPrizeToCustomer, updateCustomerTags, putCustomerTags, putCustomerNote, bind, ret.
    cbn [result store fst snd metafields metaobjects with_metafields with_customers
           metafield value].
    rewrite !countsOf_with_customers, !distributionOf_with_customers.
    rewrite countsOf_with, distributionOf_with. by simplify_map_eq.
Qed.

(** The same, for the whole request of a customer who may play. *)
Lemma mf_spin_awards phone env s p :
  identityOf phone = Some p → p ≠ "" → mayPlay s p = true →
  let r := spin phone env s in
  metaobjects (store r) = metaobjects s ∧
  match availableOf s with
  | [] =>
      result r = Fallback "Better Luck Next Time" (totalDistributedOf s "better_luck" + 1) ∧
      countsOf (store r) = countsOf s ∧
      distributionOf (store r) = incremented (distributionOf s) "better_luck"
  | first :: others =>
      let chosen := select prob (random env) first others in
      result r = Won (id chosen) (label chosen) (totalDistributedOf s (id chosen) + 1) ∧
      countsOf (store r) = decremented (countsOf s) (id chosen) ∧
      distributionOf (store r) = incremented (distributionOf s) (id chosen)
  end.
Proof.
  intros Hid Hne Hmay r. subst r. rewrite (mf_spin_allocates _ _ _ _ Hid Hne Hmay).
  pose proof (allocate_awards (result (enter s p)) env (store (enter s p))) as H.
  destruct (allocate _ _ _) as [[b s2] l2]. cbn [result store fst snd] in *.
  unfold availableOf, totalDistributedOf, countsOf, distributionOf in *.
  by rewrite enter_metafields, enter_metaobjects in H.
Qed.

End MetafieldRuns.

(* ===================================================================== *)
(** * The metaobject-backed server: the catalog snapshot *)
(* ===================================================================== *)

Section Snapshot.
Import Shopify Metaobject.

Lemma parseCount_Some str n : parseCount str = Some n → 0 ≤ n.
Proof.
  unfold parseCount. destruct str as [parsed|]; [|done].
  destruct (Z.leb_spec 0 parsed); [|done]. by intros [= <-].
Qed.

Lemma parseCount_nonneg n : 0 ≤ n → parseCount (Some n) = Some n.
Proof. intros H. unfold parseCount. by destruct (Z.leb_spec 0 n); [|lia]. Qed.

Lemma toPrize_metaobjectId mo p : toPrize mo = Some p → metaobjectId p = mo_id mo.
Proof.
  unfold toPrize. destruct (prize_id mo), (prize_label mo); try done.
  destruct (_ || _); [done|]. by intros [= <-].
Qed.

(** A loaded entry has no remaining count exactly when it has no cap, and
  otherwise [0 <= remaining <= cap]. *)
Lemma toPrize_range mo p :
  toPrize mo = Some p →
  match max p, remaining p with
  | Some m, Some r => 0 ≤ r ≤ m
  | None, None => True
  | _, _ => False
  end.
Proof.
  unfold toPrize. destruct (prize_id mo), (prize_label mo); try done.
  destruct (_ || _); [done|]. intros [= <-]. cbn [max remaining].
  destruct (parseCount (max_count mo)) as [m|] eqn:Hm; [|done].
  apply parseCount_Some in Hm.
  destruct (parseCount (remaining_count mo)) as [r|] eqn:Hr.
  - apply parseCount_Some in Hr. destruct (Z.ltb_spec m r); lia.
  - destruct (Z.ltb_spec m m); lia.
Qed.

Lemma set_field_identity mo u :
  mo_id (set_field mo u) = mo_id mo ∧ prize_id (set_field mo u) = prize_id mo ∧
  prize_label (set_field mo u) = prize_label mo ∧
  Shopify.probability (set_field mo u) = Shopify.probability mo ∧
  max_count (set_field mo u) = max_count mo.
Proof. by destruct u. Qed.

Lemma set_fields_identity ups mo :
  mo_id (fold_left set_field ups mo) = mo_id mo ∧
  prize_id (fold_left set_field ups mo) = prize_id mo ∧
  prize_label (fold_left set_field ups mo) = prize_label mo ∧
  Shopify.probability (fold_left set_field ups mo) = Shopify.probability mo ∧
  max_count (fold_left set_field ups mo) = max_count mo.
Proof.
  revert mo. induction ups as [|u ups IH]; intros mo; [done|]. cbn [fold_left].
  destruct (IH (set_field mo u)) as (-> & -> & -> & -> & ->). apply set_field_identity.
Qed.

Lemma toPrize_view mo :
  toPrize mo =
    match prize_id mo, prize_label mo with
    | Some i, Some l =>
        if String.eqb i "" || String.eqb l "" then None
        else Some (mkPrize i l (parseProb (Shopify.probability mo))
                     (parseCount (max_count mo))
                     (loadedRemaining (parseCount (max_count mo)) (remaining_count mo))
                     (default 0 (total_distributed mo)) (mo_id mo))
    | _, _ => None
    end.
Proof.
  unfold toPrize, loadedRemaining.
  destruct (prize_id mo), (prize_label mo); try done.
  destruct (_ || _); [done|]. do 2 f_equal.
  destruct (parseCount (max_count mo)) as [m|]; [|done].
  destruct (parseCount (remaining_count mo)) as [r|]; [done|].
  by rewrite Z.ltb_irrefl.
Qed.

(** Reloading an entry after a write that leaves its identity, its
  probability and its cap alone. *)
Lemma toPrize_rewritten mo mo' p :
  mo_id mo' = mo_id mo → prize_id mo' = prize_id mo →
  prize_label mo' = prize_label mo →
  Shopify.probability mo' = Shopify.probability mo →
  max_count mo' = max_count mo →
  toPrize mo = Some p →
  toPrize mo' =
    Some (mkPrize (id p) (label p) (prob p) (max p)
            (loadedRemaining (max p) (remaining_count mo'))
            (default 0 (total_distributed mo')) (metaobjectId p)).
Proof.
  intros H1 H2 H3 H4 H5. rewrite !toPrize_view, H1, H2, H3, H4, H5.
  destruct (prize_id mo), (prize_label mo); try done.
  destruct (_ || _); [done|]. by intros [= <-].
Qed.

Lemma toPrize_skipped mo mo' :
  prize_id mo' = prize_id mo → prize_label mo' = prize_label mo →
  toPrize mo = None → toPrize mo' = None.
Proof.
  intros H2 H3. rewrite !toPrize_view, H2, H3.
  destruct (prize_id mo), (prize_label mo); try done. by destruct (_ || _).
Qed.

Lemma award_fields p env mo :
  remaining_count (fold_left set_field (awardUpdates p env) mo) =
    match remaining p with
    | Some r => Some (Z.max 0 (r - 1))
    | None => remaining_count mo
    end ∧
  total_distributed (fold_left set_field (awardUpdates p env) mo) =
    Some (totalDistributed p + 1).
Proof. unfold awardUpdates. by destruct (remaining p). Qed.

Lemma reset_fields p env mo :
  remaining_count (fold_left set_field (resetUpdates p env) mo) =
    Some (match max p with None => -1 | Some m => m end) ∧
  total_distributed (fold_left set_field (resetUpdates p env) mo) = total_distributed mo.
Proof. done. Qed.

Lemma toPrize_total mo p : toPrize mo = Some p → totalDistributed p = default 0 (total_distributed mo).
Proof.
  rewrite toPrize_view. destruct (prize_id mo), (prize_label mo); try done.
  destruct (_ || _); [done|]. by intros [= <-].
Qed.

Lemma toPrize_remaining mo p :
  toPrize mo = Some p → remaining p = loadedRemaining (max p) (remaining_count mo).
Proof.
  rewrite toPrize_view. destruct (prize_id mo), (prize_label mo); try done.
  destruct (_ || _); [done|]. by intros [= <-].
Qed.

Lemma toPrize_award mo p env :
  toPrize mo = Some p →
  toPrize (fold_left set_field (awardUpdates p env) mo) = Some (award p).
Proof.
  intros Hp. pose proof (toPrize_range _ _ Hp) as Hrange.
  pose proof (toPrize_remaining _ _ Hp) as Hrem.
  destruct (set_fields_identity (awardUpdates p env) mo) as (H1 & H2 & H3 & H4 & H5).
  rewrite (toPrize_rewritten _ _ _ H1 H2 H3 H4 H5 Hp).
  destruct (award_fields p env mo) as [-> ->]. unfold award. do 2 f_equal.
  destruct (max p) as [m|], (remaining p) as [r|]; try done.
  unfold loadedRemaining. rewrite parseCount_nonneg by lia.
  destruct (Z.ltb_spec m (Z.max 0 (r - 1))); [lia|done].
Qed.

Lemma toPrize_refill mo p env :
  toPrize mo = Some p →
  toPrize (fold_left set_field (resetUpdates p env) mo) = Some (refill p).
Proof.
  intros Hp. pose proof (toPrize_range _ _ Hp) as Hrange.
  destruct (set_fields_identity (resetUpdates p env) mo) as (H1 & H2 & H3 & H4 & H5).
  rewrite (toPrize_rewritten _ _ _ H1 H2 H3 H4 H5 Hp).
  destruct (reset_fields p env mo) as [-> ->]. unfold refill.
  rewrite <- (toPrize_total _ _ Hp). do 2 f_equal.
  destruct (max p) as [m|], (remaining p) as [r|]; try done.
  unfold loadedRemaining. rewrite parseCount_nonneg by lia.
  by rewrite Z.ltb_irrefl.
Qed.

End Snapshot.

(* ===================================================================== *)
(** * The metaobject-backed server: what one request does *)
(* ===================================================================== *)

Section MetaobjectRuns.
Import Shopify Metaobject.

Lemma mo_spin_played phone env s p customer :
  identityOf phone = Some p → p ≠ "" →
  customerOf s p = Some customer →
  hasPlayedWheel customer = true →
  spin phone env s =
    (AlreadyPlayed
       match getPrizeFromTags customer with
       | Some prizeInfo => Recorded prizeInfo
       | None => LabelOnly "Already Played"
       end, s, [SearchCustomers p]).
Proof.
  intros Hid Hne Hc Hpl. unfold spin. fold (identityOf phone). rewrite Hid.
  destruct (String.eqb_spec p "") as [->|_]; [done|].
  unfold bind, findCustomerByPhone, searchCustomers. unfold customerOf in Hc.
  by rewrite Hc, Hpl.
Qed.

Lemma mo_spin_allocates phone env s p :
  identityOf phone = Some p → p ≠ "" → mayPlay s p = true →
  spin phone env s =
    let '(b, s2, l2) := allocate (result (enter s p)) env (store (enter s p)) in
    (b, s2, (sent (enter s p) ++ l2)%list).
Proof.
  intros Hid Hne Hmay. unfold spin. fold (identityOf phone). rewrite Hid.
  destruct (String.eqb_spec p "") as [->|_]; [done|].
  unfold mayPlay in Hmay. revert Hmay. unfold enter, customerOf.
  unfold bind at 1, findCustomerByPhone, searchCustomers.
  destruct (List.find _ _) as [c|] eqn:Hc; intros Hmay.
  - apply negb_true_iff in Hmay. rewrite Hmay. reflexivity.
  - unfold bind, createCustomerWithPhone. cbn [result store sent fst snd].
    destruct (postCustomer p s) as [[c s1] l1] eqn:Hpost.
    unfold postCustomer in Hpost. injection Hpost as <- <- <-.
    by destruct (allocate _ _ _) as [[b s2] l2].
Qed.

Lemma mo_spin_refused phone env s :
  (∀ p, identityOf phone = Some p → p ≠ "" → mayPlay s p = false) →
  ∃ resp l, spin phone env s = (resp, s, l) ∧
    (∀ i l n, resp ≠ Won i l n) ∧ (∀ l n, resp ≠ Fallback l n) ∧
    (∀ c, In c l → writesCounters c = false).
Proof.
  intros Hno. unfold spin. fold (identityOf phone).
  destruct (identityOf phone) as [p|] eqn:Hid.
  2:{ eexists _, _. repeat split; try done. }
  destruct (String.eqb_spec p "") as [->|Hne].
  { eexists _, _. repeat split; try done. }
  specialize (Hno p eq_refl Hne). unfold mayPlay in Hno. revert Hno.
  unfold bind at 1, findCustomerByPhone, searchCustomers.
  destruct (List.find _ _) as [c|] eqn:Hc; [|discriminate].
  intros Hno. apply negb_false_iff in Hno. rewrite Hno.
  eexists _, _. repeat split; try done. by intros c' [<-|[]].
Qed.

Lemma getCurrentPrizes_run s :
  ∃ loaded, getCurrentPrizes s = (loaded, s, [QueryMetaobjects]) ∧
    match catalogOf s with
    | [] => ∃ message, loaded = inl message
    | _ => loaded = inr (catalogOf s)
    end.
Proof.
  unfold getCurrentPrizes, loadPrizesFromMetaobjects, getAllWheelPrizeMetaobjects,
    bind, queryMetaobjects, catalogOf.
  destruct (take 50 (metaobjects s)) as [|mo l] eqn:Ht.
  { eexists. split; [reflexivity|]. cbn. eauto. }
  destruct (omap toPrize (mo :: l)) as [|p ps] eqn:Ho.
  { eexists. split; [reflexivity|]. eauto. }
  eexists. split; [reflexivity|]. done.
Qed.

Lemma updatePrizeAfterSpin_run prize env s :
  updatePrizeAfterSpin prize env s =
    (totalDistributed prize + 1,
     with_metaobjects s
       (map (apply_updates (metaobjectId prize) (awardUpdates prize env)) (metaobjects s)),
     [UpdateMetaobject (metaobjectId prize) (awardUpdates prize env)]).
Proof. reflexivity. Qed.

Lemma fallbackOf_nonempty (PRIZES : list Prize) :
  PRIZES ≠ [] → is_Some (fallbackOf PRIZES).
Proof.
  intros Hne. unfold fallbackOf. destruct (JS.find _ _); [by eexists|].
  destruct PRIZES as [|p ps] using rev_ind; [done|]. rewrite last_snoc. by eexists.
Qed.

(** The catalog read and the award. *)
Lemma mo_allocate_awards customer env s :
  let r := allocate customer env s in
  metafields (store r) = metafields s ∧
  match awardedOn s env with
  | Some chosen =>
      result r =
        match availableOf s with
        | [] => Fallback (label chosen) (totalDistributed chosen + 1)
        | _ => Won (id chosen) (label chosen) (totalDistributed chosen + 1)
        end ∧
      metaobjects (store r) =
        map (apply_updates (metaobjectId chosen) (awardUpdates chosen env)) (metaobjects s) ∧
      ∀ c, In c (sent r) → writesCounters c = true →
           c = UpdateMetaobject (metaobjectId chosen) (awardUpdates chosen env)
  | None =>
      result r = ServerError "server error" ∧ store r = s ∧
      ∀ c, In c (sent r) → writesCounters c = false
  end.
Proof.
  intros r. subst r. unfold allocate, awardedOn, availableOf.
  destruct (getCurrentPrizes_run s) as (loaded & Hrun & Hloaded).
  erewrite bind_step by apply Hrun.
  destruct (catalogOf s) as [|p0 ps] eqn:Hcat.
  { destruct Hloaded as [message ->]. cbn. repeat split; try done. by intros c [<-|[]]. }
  rewrite Hloaded.
  destruct (List.filter available (p0 :: ps)) as [|first others] eqn:Hav.
  - destruct (fallbackOf (p0 :: ps)) as [fallback|] eqn:Hfb.
    + erewrite bind_step by apply updatePrizeAfterSpin_run.
      unfold addPrizeToCustomer, updateCustomerTags, putCustomerTags, putCustomerNote, bind, ret.
      cbn [result store sent fst snd metafields metaobjects with_metaobjects with_customers].
      repeat split; try done.
      intros c [<-|[<-|[<-|[<-|[]]]]]; done.
    + cbn. repeat split; try done. by intros c [<-|[]].
  - erewrite bind_step by apply updatePrizeAfterSpin_run.
    unfold addPrizeToCustomer, updateCustomerTags, putCustomerTags, putCustomerNote, bind, ret.
    cbn [result store sent fst snd metafields metaobjects with_metaobjects with_customers].
    repeat split; try done.
    intros c [<-|[<-|[<-|[<-|[]]]]]; done.
Qed.

End MetaobjectRuns.

(* ===================================================================== *)
(** * The weighted selection *)
(* ===================================================================== *)

Section Selection.
Context {Prize : Type} (prob : Prize → float).

Lemma totalProb_snoc (l : list Prize) (p : Prize) :
  totalProb prob (l ++ [p]) = (totalProb prob l + prob p)%float.
Proof. unfold totalProb. by rewrite fold_left_app. Qed.

(** The weight the design accumulates up to entry [i] is what the reducer
  of the code gives on the entries up to entry [i]. *)
Lemma cumulative_take (l : list Prize) (i : nat) :
  (i < length l)%nat → cumulative prob l i = totalProb prob (take (S i) l).
Proof.
  induction i as [|i IH]; intros Hi.
  - destruct l as [|p l]; [cbn in Hi; lia|]. reflexivity.
  - destruct (lookup_lt_is_Some_2 l (S i) Hi) as [p Hp].
    rewrite (take_S_r l (S i) p Hp), totalProb_snoc. cbn [cumulative].
    rewrite IH by lia. unfold weightAt. by rewrite Hp.
Qed.

(** The total of the code is the sum of the weights. *)
Lemma sumOfWeights_totalProb (l : list Prize) :
  sumOfWeights prob l = totalProb prob l.
Proof.
  unfold sumOfWeights. destruct (length l) as [|n] eqn:Hn.
  - by destruct l.
  - rewrite cumulative_take by lia. rewrite take_ge; [done|lia].
Qed.

Lemma cumulative_middle (pre rest : list Prize) (p : Prize) :
  cumulative prob (pre ++ p :: rest) (length pre) = (totalProb prob pre + prob p)%float.
Proof.
  rewrite cumulative_take by (rewrite length_app; cbn; lia).
  replace (take (S (length pre)) (pre ++ p :: rest)) with (pre ++ [p]).
  - apply totalProb_snoc.
  - change (pre ++ p :: rest) with (pre ++ [p] ++ rest). rewrite app_assoc.
    rewrite take_app_length'; [done|]. rewrite length_app. simpl. lia.
Qed.

(** The rule of the design names one entry. *)
Lemma firstReaching_unique (r : float) (l : list Prize) (a b : Prize) :
  firstReaching prob r l a → firstReaching prob r l b → a = b.
Proof.
  intros [(i & Hi & Hle & Hlt)|[Hno Hl]] [(i' & Hi' & Hle' & Hlt')|[Hno' Hl']].
  - destruct (Nat.lt_trichotomy i i') as [H|[->|H]].
    + by rewrite (Hlt' i H) in Hle.
    + congruence.
    + by rewrite (Hlt i' H) in Hle'.
  - apply lookup_lt_Some in Hi. by rewrite (Hno' i Hi) in Hle.
  - apply lookup_lt_Some in Hi'. by rewrite (Hno i' Hi') in Hle'.
  - congruence.
Qed.

(** The loop, entered after the entries [pre] were passed over. *)
Lemma walk_spec (r : float) (pre rest : list Prize) (chosen0 : Prize) :
  (∀ j, (j < length pre)%nat → (r <=? cumulative prob (pre ++ rest) j)%float = false) →
  let chosen := walk prob r (totalProb prob pre) rest chosen0 in
  (∃ i, (pre ++ rest) !! i = Some chosen ∧
        (r <=? cumulative prob (pre ++ rest) i)%float = true ∧
        ∀ j, (j < i)%nat → (r <=? cumulative prob (pre ++ rest) j)%float = false)
  ∨ ((∀ j, (j < length (pre ++ rest))%nat →
           (r <=? cumulative prob (pre ++ rest) j)%float = false) ∧
     chosen = chosen0).
Proof.
  revert pre. induction rest as [|p rest IH]; intros pre Hpre; cbn [walk].
  - right. split; [|done]. by rewrite app_nil_r in *.
  - destruct (r <=? totalProb prob pre + prob p)%float eqn:Hle.
    + left. exists (length pre). split; [by rewrite list_lookup_middle|].
      split; [by rewrite cumulative_middle|done].
    + specialize (IH (pre ++ [p])). rewrite <- !app_assoc in IH. cbn [app] in IH.
      rewrite totalProb_snoc in IH. apply IH.
      intros j Hj. rewrite length_app in Hj. cbn in Hj.
      destruct (decide (j = length pre)) as [->|Hne].
      * by rewrite cumulative_middle.
      * apply Hpre. lia.
Qed.

Lemma last_default (l : list Prize) (x d : Prize) :
  last (x :: l) = Some (List.last (x :: l) d).
Proof.
  revert x. induction l as [|y l IH]; intros x; [done|].
  rewrite last_cons_cons, (IH y). done.
Qed.

Lemma select_firstReaching (rnd : float) (first : Prize) (others : list Prize) :
  firstReaching prob (rnd * totalProb prob (first :: others))%float (first :: others)
    (select prob rnd first others).
Proof.
  unfold select, firstReaching.
  destruct (walk_spec (rnd * totalProb prob (first :: others))%float [] (first :: others)
              (List.last (first :: others) first)) as [H|[H1 H2]].
  - intros j Hj. cbn in Hj. lia.
  - by left.
  - right. split; [done|]. change (totalProb prob []) with 0%float in H2.
    rewrite H2. apply last_default.
Qed.

Lemma walk_In (r c : float) (rest : list Prize) (chosen0 : Prize) :
  In (walk prob r c rest chosen0) rest ∨ walk prob r c rest chosen0 = chosen0.
Proof.
  revert c. induction rest as [|p rest IH]; intros c; cbn [walk]; [by right|].
  destruct (r <=? c + prob p)%float; [left; by left|].
  destruct (IH (c + prob p)%float) as [H|H]; [left; by right|by right].
Qed.

Lemma select_In (rnd : float) (first : Prize) (others : list Prize) :
  In (select prob rnd first others) (first :: others).
Proof.
  unfold select. destruct (walk_In (rnd * totalProb prob (first :: others))%float 0%float
                             (first :: others) (List.last (first :: others) first)) as [H|H];
    [done|]. rewrite H.
  apply list_elem_of_In, list_elem_of_lookup. 
  pose proof (last_default others first first) as Hl.
  rewrite last_lookup in Hl. eauto.
Qed.

(** Filtering keeps the order of the list. *)
Lemma kept_in_order (keep : Prize → bool) (l : list Prize) :
  sublist (List.filter keep l) l.
Proof.
  induction l as [|x l IH]; cbn [List.filter]; [constructor|].
  destruct (keep x); by constructor.
Qed.

End Selection.

(* ===================================================================== *)
(** * The metaobject-backed server: the catalog after a write *)
(* ===================================================================== *)

Section CatalogAfterWrite.
Import Shopify Metaobject.

Lemma handles_unique (l : list Prize) p q :
  NoDup (map metaobjectId l) → In p l → In q l → metaobjectId p = metaobjectId q → p = q.
Proof.
  induction l as [|x l IH]; [done|]. cbn [map]. intros Hnd.
  apply NoDup_cons in Hnd as [Hx Hnd].
  intros [->|Hin] [->|Hin'] Hid; try done.
  - exfalso. apply Hx. rewrite Hid. apply list_elem_of_In, in_map, Hin'.
  - exfalso. apply Hx. rewrite <- Hid. apply list_elem_of_In, in_map, Hin.
  - by apply IH.
Qed.

(** Distinct metaobject ids give distinct handles in the catalog. *)
Lemma distinct_ids_distinct_handles s :
  NoDup (map mo_id (metaobjects s)) → NoDup (map metaobjectId (catalogOf s)).
Proof.
  intros H. unfold catalogOf.
  assert (NoDup (map mo_id (take 50 (metaobjects s)))) as Ht.
  { change (NoDup (mo_id <$> take 50 (metaobjects s))). rewrite fmap_take.
    eapply sublist_NoDup; [exact H|apply sublist_take]. }
  clear H. induction (take 50 (metaobjects s)) as [|mo l IH]; [constructor|].
  cbn [map] in Ht. apply NoDup_cons in Ht as [Hmo Hl]. cbn [omap list_omap].
  destruct (toPrize mo) as [p|] eqn:Hp; [|by apply IH]. cbn [map].
  apply NoDup_cons. split; [|by apply IH].
  intros Hin. apply Hmo. rewrite (toPrize_metaobjectId _ _ Hp) in Hin.
  apply list_elem_of_In, in_map_iff in Hin as (q & Hq & Hin).
  apply list_elem_of_In, list_elem_of_omap in Hin as (mo' & Hin & Hq').
  rewrite (toPrize_metaobjectId _ _ Hq') in Hq. rewrite <- Hq.
  apply list_elem_of_In, in_map. by apply list_elem_of_In.
Qed.

(** Reloading after one entry was rewritten: the entry with the written
  handle changes by [g], every other entry is as before. *)
Lemma omap_toPrize_update (l : list Shopify.Metaobject) handle ups g :
  (∀ mo p, In mo l → mo_id mo = handle → toPrize mo = Some p →
           toPrize (fold_left set_field ups mo) = Some (g p)) →
  omap toPrize (map (apply_updates handle ups) l) =
    map (λ p, if String.eqb (metaobjectId p) handle then g p else p) (omap toPrize l).
Proof.
  induction l as [|mo l IH]; intros Hg; [done|]. cbn [map omap list_omap].
  rewrite IH by (intros ????; apply Hg; by try right). clear IH.
  unfold apply_updates at 1.
  destruct (String.eqb_spec (mo_id mo) handle) as [Hid|Hid].
  - destruct (toPrize mo) as [p|] eqn:Hp.
    + rewrite (Hg mo p) by (done || by left). cbn [map].
      rewrite (toPrize_metaobjectId _ _ Hp), Hid, String.eqb_refl. done.
    + rewrite (toPrize_skipped mo); [done| | |done]; apply set_fields_identity.
  - destruct (toPrize mo) as [p|] eqn:Hp; [|done]. cbn [map].
    rewrite (toPrize_metaobjectId _ _ Hp).
    by destruct (String.eqb_spec (mo_id mo) handle).
Qed.

Lemma take_map_updates n handle ups (l : list Shopify.Metaobject) :
  take n (map (apply_updates handle ups) l) = map (apply_updates handle ups) (take n l).
Proof. symmetry. apply (fmap_take (apply_updates handle ups)). Qed.

Lemma catalog_entry_source s p :
  In p (catalogOf s) → ∃ mo, In mo (take 50 (metaobjects s)) ∧ toPrize mo = Some p.
Proof.
  unfold catalogOf. intros H. apply list_elem_of_In, list_elem_of_omap in H as (mo & H & ?).
  exists mo. split; [by apply list_elem_of_In|done].
Qed.

(** The catalog after the entry [chosen] was rewritten. *)
Lemma catalog_after_write s chosen ups g :
  NoDup (map metaobjectId (catalogOf s)) → In chosen (catalogOf s) →
  (∀ mo, toPrize mo = Some chosen → toPrize (fold_left set_field ups mo) = Some (g chosen)) →
  catalogOf
    (with_metaobjects s (map (apply_updates (metaobjectId chosen) ups) (metaobjects s))) =
  map (λ p, if String.eqb (metaobjectId p) (metaobjectId chosen) then g p else p)
    (catalogOf s).
Proof.
  intros Hnd Hin Hg. unfold catalogOf. cbn [metaobjects with_metaobjects].
  rewrite take_map_updates. apply omap_toPrize_update.
  intros mo p Hmo Hid Hp.
  assert (p = chosen) as ->; [|by apply Hg].
  apply (handles_unique (catalogOf s)); try done.
  - unfold catalogOf. apply list_elem_of_In, list_elem_of_omap.
    exists mo. split; [by apply list_elem_of_In|done].
  - by rewrite (toPrize_metaobjectId _ _ Hp).
Qed.

Lemma catalog_after_award s chosen env :
  NoDup (map metaobjectId (catalogOf s)) → In chosen (catalogOf s) →
  catalogOf
    (with_metaobjects s
       (map (apply_updates (metaobjectId chosen) (awardUpdates chosen env)) (metaobjects s))) =
  map (λ p, if String.eqb (metaobjectId p) (metaobjectId chosen) then award p else p)
    (catalogOf s).
Proof.
  intros Hnd Hin. apply catalog_after_write; try done.
  intros mo. apply toPrize_award.
Qed.

(** Rewriting the one entry with a given handle, in a list of distinct
  handles. *)
Lemma map_at_handle (pre ps : list Prize) p (g : Prize → Prize) :
  NoDup (map metaobjectId (pre ++ p :: ps)) →
  map (λ q, if String.eqb (metaobjectId q) (metaobjectId p) then g q else q)
    (pre ++ p :: ps) = pre ++ g p :: ps.
Proof.
  intros Hnd. rewrite map_app. cbn [map]. rewrite String.eqb_refl.
  assert (∀ l, (∀ q, In q l → metaobjectId q ≠ metaobjectId p) →
    map (λ q, if String.eqb (metaobjectId q) (metaobjectId p) then g q else q) l = l) as Hsame.
  { induction l as [|x l IH]; intros Hl; [done|]. cbn [map].
    rewrite IH by (intros; apply Hl; by right).
    destruct (String.eqb_spec (metaobjectId x) (metaobjectId p)) as [E|_]; [|done].
    by destruct (Hl x (or_introl eq_refl)). }
  rewrite map_app in Hnd. cbn [map] in Hnd.
  apply NoDup_app in Hnd as (Hpre & Hmid & Hps). apply NoDup_cons in Hps as [Hp Hps].
  rewrite !Hsame; [done| |].
  - intros q Hq E. apply Hp. rewrite <- E. apply list_elem_of_In, in_map, Hq.
  - intros q Hq E. apply (Hmid (metaobjectId q)).
    + apply list_elem_of_In, in_map, Hq.
    + rewrite E. by left.
Qed.

Lemma resetOne_run env p s :
  resetOne env p s =
    (tt, with_metaobjects s
           (map (apply_updates (metaobjectId p) (resetUpdates p env)) (metaobjects s)),
     [UpdateMetaobject (metaobjectId p) (resetUpdates p env)]).
Proof. reflexivity. Qed.

Lemma forEach_resetOne_run env ps s :
  ∃ l, forEach ps (resetOne env) s =
         (tt, with_metaobjects s (afterResets env ps (metaobjects s)), l) ∧
       ∀ c, In c l → stamped c = true.
Proof.
  revert s. induction ps as [|p ps IH]; intros s.
  - exists []. split; [|done]. unfold afterResets. cbn. unfold ret, with_metaobjects.
    by rewrite shop_eta.
  - cbn [forEach]. erewrite bind_step by apply resetOne_run.
    destruct (IH (with_metaobjects s
                    (map (apply_updates (metaobjectId p) (resetUpdates p env))
                       (metaobjects s)))) as (l & -> & Hl).
    eexists. split; [reflexivity|]. intros c [<-|Hc]; [done|by apply Hl].
Qed.

(** The catalog after the reset loop: the entries it ran over are refilled. *)
Lemma catalog_after_resets env ps : ∀ s pre,
  catalogOf s = pre ++ ps → NoDup (map metaobjectId (pre ++ ps)) →
  catalogOf (with_metaobjects s (afterResets env ps (metaobjects s))) =
    pre ++ map refill ps.
Proof.
  induction ps as [|p ps IH]; intros s pre Hcat Hnd.
  - unfold afterResets. cbn [fold_left map]. unfold with_metaobjects.
    by rewrite shop_eta.
  - unfold afterResets. cbn [fold_left]. fold (afterResets env ps).
    set (s1 := with_metaobjects s
                 (map (apply_updates (metaobjectId p) (resetUpdates p env)) (metaobjects s))).
    assert (catalogOf s1 = (pre ++ [refill p]) ++ ps) as Hcat1.
    { subst s1. rewrite (catalog_after_write s p _ refill).
      - rewrite Hcat, <- app_assoc. by apply map_at_handle.
      - by rewrite Hcat.
      - rewrite Hcat. apply in_or_app. right. by left.
      - intros mo. apply toPrize_refill. }
    specialize (IH s1 (pre ++ [refill p]) Hcat1).
    rewrite <- !app_assoc in IH. cbn [app map].
    change (catalogOf (with_metaobjects s1 (afterResets env ps (metaobjects s1))) =
            pre ++ refill p :: map refill ps).
    apply IH. rewrite map_app in *. exact Hnd.
Qed.

End CatalogAfterWrite.

(* ===================================================================== *)
(** * Properties of the allocation engine *)
(* ===================================================================== *)

Section Gate.
Import Shopify.

(** C8.  A spin request whose identity is empty (missing, falsy, or white
  space only) is answered 400 'phone required' by both servers, the
  store is left as it was and no request at all is sent to it: no
  customer search, no customer creation, no catalog read. *)
Theorem spin_empty_identity_rejected :
  (∀ phone env s, emptyIdentity phone →
     Metafield.spin phone env s = (Metafield.BadRequest "phone required", s, [])) ∧
  (∀ phone env s, emptyIdentity phone →
     Metaobject.spin phone env s = (Metaobject.BadRequest "phone required", s, [])).
Proof.
  split; intros phone env s H%identityOf_empty.
  - unfold Metafield.spin. fold (identityOf phone). by rewrite H.
  - unfold Metaobject.spin. fold (identityOf phone). by rewrite H.
Qed.

Lemma spin_empty_identity_rejected_witness :
  emptyIdentity (JS.Str "   ") ∧
  Metafield.spin (JS.Str "   ") Example.env Example.fresh =
    (Metafield.BadRequest "phone required", Example.fresh, []) ∧
  Metaobject.spin JS.Undefined Example.env Example.fresh =
    (Metaobject.BadRequest "phone required", Example.fresh, []).
Proof.
  assert (emptyIdentity (JS.Str "   ")) as H1 by (right; by exists "   ").
  assert (emptyIdentity JS.Undefined) as H2 by (by left).
  split; [exact H1|]. split.
  - exact (proj1 spin_empty_identity_rejected _ Example.env Example.fresh H1).
  - exact (proj2 spin_empty_identity_rejected _ Example.env Example.fresh H2).
Defined.



End Gate.

Section Admin.
Import Shopify.

Lemma mf_reset_run penv adminKey s :
  JS.strictEq adminKey (JS.ofEnv (ADMIN_RESET_KEY penv)) = true →
  result (Metafield.resetPrizes penv adminKey s) = Metafield.ResetDone Metafield.initialCounts ∧
  store (Metafield.resetPrizes penv adminKey s) =
    with_metafields s
      (<[Metafield.SHOP_METAFIELD_KEY := Metafield.initialCounts]> (metafields s)).
Proof.
  intros Hk. unfold Metafield.resetPrizes. rewrite Hk. cbn [negb].
  erewrite bind_step by apply ensureShopPrizeCounts_run.
  unfold Metafield.setShopPrizeCounts, putMetafield, bind, ret.
  cbn [result store fst snd Metafield.metafield metafields with_metafields].
  split; [done|]. unfold with_metafields. cbn [customers next_customer_id metaobjects].
  by rewrite insert_insert_eq.
Qed.

Lemma mf_stats_run penv adminKey s :
  JS.strictEq adminKey (JS.ofEnv (ADMIN_RESET_KEY penv)) = true →
  result (Metafield.stats penv adminKey s) =
    Metafield.StatsAre
      (map (λ p, Metafield.mkStat (Metafield.id p) (Metafield.label p) (Metafield.max p)
                   (Metafield.remainingOf s (Metafield.id p))
                   (Metafield.totalDistributedOf s (Metafield.id p)))
         Metafield.PRIZES).
Proof.
  intros Hk. unfold Metafield.stats. rewrite Hk. cbn [negb].
  erewrite bind_step by apply ensureShopPrizeCounts_run.
  erewrite bind_step by apply ensurePrizeDistribution_run.
  unfold ret. cbn [result fst Metafield.value].
  rewrite distributionOf_with, lookup_insert_ne by apply keys_differ. done.
Qed.

Lemma mo_reset_run penv adminKey env s :
  JS.strictEq adminKey (JS.ofEnv (ADMIN_RESET_KEY penv)) = true →
  let r := Metaobject.resetPrizes penv adminKey env s in
  (∀ c, In c (sent r) → writesCounters c = true → stamped c = true) ∧
  match Metaobject.catalogOf s with
  | [] => result r = Metaobject.ServerError "server error" ∧ store r = s
  | ps =>
      result r = Metaobject.ResetDone ∧
      store r = with_metaobjects s (Metaobject.afterResets env ps (metaobjects s))
  end.
Proof.
  intros Hk r. subst r. unfold Metaobject.resetPrizes. rewrite Hk. cbn [negb].
  destruct (getCurrentPrizes_run s) as (loaded & Hrun & Hloaded).
  erewrite bind_step by apply Hrun.
  destruct (Metaobject.catalogOf s) as [|p0 ps] eqn:Hcat.
  { destruct Hloaded as [message ->]. cbn. split; [|done]. by intros c [<-|[]]. }
  rewrite Hloaded.
  destruct (forEach_resetOne_run env (p0 :: ps) s) as (l & Hl & Hst).
  erewrite bind_step by apply Hl. unfold ret. cbn [result store sent fst snd].
  split; [|done]. intros c [<-|Hc]; [done|].
  rewrite app_nil_r in Hc. intros _. by apply Hst.
Qed.

Lemma mo_stats_run penv adminKey s :
  JS.strictEq adminKey (JS.ofEnv (ADMIN_RESET_KEY penv)) = true →
  result (Metaobject.stats penv adminKey s) =
    match Metaobject.catalogOf s with
    | [] => Metaobject.ServerError "server error"
    | ps => Metaobject.StatsAre (map Metaobject.statOf ps)
    end.
Proof.
  intros Hk. unfold Metaobject.stats. rewrite Hk. cbn [negb].
  destruct (getCurrentPrizes_run s) as (loaded & Hrun & Hloaded).
  erewrite bind_step by apply Hrun.
  destruct (Metaobject.catalogOf s) as [|p0 ps] eqn:Hcat.
  { by destruct Hloaded as [message ->]. }
  by rewrite Hloaded.
Qed.

(** C10.  The admin gate of the reset and statistics handlers, in both
  servers, is the strict comparison of the supplied key with
  [process.env.ADMIN_RESET_KEY]: a request is answered 403
  'Unauthorized', with nothing read or written, when the two differ, and
  goes on to the operation when they are the same value.  With the
  variable unset and no key supplied both sides are [undefined], so the
  operation runs without any credential. *)
Theorem admin_gate_plain_equality :
  (∀ penv adminKey env s,
     adminKey ≠ JS.ofEnv (ADMIN_RESET_KEY penv) →
     Metafield.resetPrizes penv adminKey s = (Metafield.Forbidden "Unauthorized", s, []) ∧
     Metafield.stats penv adminKey s = (Metafield.Forbidden "Unauthorized", s, []) ∧
     Metaobject.resetPrizes penv adminKey env s =
       (Metaobject.Forbidden "Unauthorized", s, []) ∧
     Metaobject.stats penv adminKey s = (Metaobject.Forbidden "Unauthorized", s, [])) ∧
  (∀ penv adminKey env s,
     adminKey = JS.ofEnv (ADMIN_RESET_KEY penv) →
     result (Metafield.resetPrizes penv adminKey s) =
       Metafield.ResetDone Metafield.initialCounts ∧
     (∃ l, result (Metafield.stats penv adminKey s) = Metafield.StatsAre l) ∧
     (∀ e, result (Metaobject.resetPrizes penv adminKey env s) ≠ Metaobject.Forbidden e) ∧
     (∀ e, result (Metaobject.stats penv adminKey s) ≠ Metaobject.Forbidden e)) ∧
  (∀ env s,
     result (Metafield.resetPrizes (mkProcessEnv None) JS.Undefined s) =
       Metafield.ResetDone Metafield.initialCounts ∧
     Metafield.remainingOf
       (store (Metafield.resetPrizes (mkProcessEnv None) JS.Undefined s)) "kivo_easy_lite" =
       Some (Some 1) ∧
     (∃ l, result (Metafield.stats (mkProcessEnv None) JS.Undefined s) = Metafield.StatsAre l) ∧
     (Metaobject.catalogOf s ≠ [] →
      result (Metaobject.resetPrizes (mkProcessEnv None) JS.Undefined env s) =
        Metaobject.ResetDone ∧
      result (Metaobject.stats (mkProcessEnv None) JS.Undefined s) =
        Metaobject.StatsAre (map Metaobject.statOf (Metaobject.catalogOf s)))).
Proof.
  split; [|split].
  - intros penv adminKey env s H%strictEq_ofEnv_false.
    unfold Metafield.resetPrizes, Metafield.stats, Metaobject.resetPrizes, Metaobject.stats.
    by rewrite H.
  - intros penv adminKey env s H%strictEq_ofEnv.
    split; [by apply mf_reset_run|]. split; [by rewrite mf_stats_run; eauto|].
    split; intros e.
    + destruct (mo_reset_run penv adminKey env s H) as [_ Hr].
      destruct (Metaobject.catalogOf s); destruct Hr as [-> _]; done.
    + rewrite (mo_stats_run penv adminKey s H). by destruct (Metaobject.catalogOf s).
  - intros env s.
    assert (JS.strictEq JS.Undefined (JS.ofEnv (ADMIN_RESET_KEY (mkProcessEnv None))) = true)
      as H by done.
    destruct (mf_reset_run _ _ s H) as [Hr Hs].
    split; [done|]. split.
    { rewrite Hs. unfold Metafield.remainingOf. rewrite countsOf_with, lookup_insert_eq. done. }
    split; [by rewrite mf_stats_run; eauto|]. intros Hne.
    destruct (mo_reset_run _ _ env s H) as [_ Hreset].
    rewrite (mo_stats_run _ _ s H).
    destruct (Metaobject.catalogOf s); [done|]. by destruct Hreset as [-> _].
Qed.

Lemma admin_gate_plain_equality_witness :
  Metafield.resetPrizes (mkProcessEnv (Some "s3cret")) JS.Undefined Example.partly =
    (Metafield.Forbidden "Unauthorized", Example.partly, []) ∧
  result (Metafield.resetPrizes (mkProcessEnv (Some "s3cret")) (JS.Str "s3cret") Example.partly) =
    Metafield.ResetDone Metafield.initialCounts ∧
  result (Metaobject.resetPrizes (mkProcessEnv None) JS.Undefined Example.env Example.partly) =
    Metaobject.ResetDone.
Proof.
  split; [|split].
  - refine (proj1 (proj1 admin_gate_plain_equality (mkProcessEnv (Some "s3cret"))
                     JS.Undefined Example.env Example.partly _)). discriminate.
  - refine (proj1 (proj1 (proj2 admin_gate_plain_equality) (mkProcessEnv (Some "s3cret"))
                     (JS.Str "s3cret") Example.env Example.partly _)). reflexivity.
  - refine (proj1 (proj2 (proj2 (proj2 (proj2 (proj2 admin_gate_plain_equality)
                     Example.env Example.partly))) _)). discriminate.
Defined.

End Admin.

Section Awards.
Import Shopify.

Lemma mo_views_same s1 s :
  metaobjects s1 = metaobjects s →
  Metaobject.catalogOf s1 = Metaobject.catalogOf s ∧
  Metaobject.availableOf s1 = Metaobject.availableOf s ∧
  ∀ env, Metaobject.awardedOn s1 env = Metaobject.awardedOn s env.
Proof.
  intros H. unfold Metaobject.awardedOn, Metaobject.availableOf, Metaobject.catalogOf.
  by rewrite H.
Qed.

Lemma enter_sent s p c : In c (sent (enter s p)) → writesCounters c = false.
Proof.
  unfold enter. destruct (customerOf s p); cbn; intros H; by repeat destruct H as [<-|H].
Qed.

(** The whole request of a customer who may play, on the catalog. *)
Lemma mo_spin_awards phone env s p :
  identityOf phone = Some p → p ≠ "" → Metaobject.mayPlay s p = true →
  let r := Metaobject.spin phone env s in
  metafields (store r) = metafields s ∧
  match Metaobject.awardedOn s env with
  | Some chosen =>
      result r =
        match Metaobject.availableOf s with
        | [] => Metaobject.Fallback (Metaobject.label chosen)
                  (Metaobject.totalDistributed chosen + 1)
        | _ => Metaobject.Won (Metaobject.id chosen) (Metaobject.label chosen)
                 (Metaobject.totalDistributed chosen + 1)
        end ∧
      Metaobject.catalogOf (store r) =
        Metaobject.catalogOf
          (with_metaobjects s
             (map (apply_updates (Metaobject.metaobjectId chosen)
                     (Metaobject.awardUpdates chosen env)) (metaobjects s))) ∧
      ∀ c, In c (sent r) → writesCounters c = true →
           c = UpdateMetaobject (Metaobject.metaobjectId chosen)
                 (Metaobject.awardUpdates chosen env)
  | None =>
      result r = Metaobject.ServerError "server error" ∧
      metaobjects (store r) = metaobjects s ∧
      ∀ c, In c (sent r) → writesCounters c = false
  end.
Proof.
  intros Hid Hne Hmay r. subst r. rewrite (mo_spin_allocates _ _ _ _ Hid Hne Hmay).
  pose proof (mo_allocate_awards (result (enter s p)) env (store (enter s p))) as H.
  destruct (Metaobject.allocate _ _ _) as [[b s2] l2]. cbn [result store sent fst snd] in *.
  destruct (mo_views_same (store (enter s p)) s (enter_metaobjects s p)) as (Hc & Ha & Hw).
  rewrite Hw, Ha, enter_metafields, enter_metaobjects in H. destruct H as [Hmf H].
  split; [done|].
  destruct (Metaobject.awardedOn s env) as [chosen|].
  - destruct H as (Hr & Hs & Hsent). split; [done|]. split.
    + unfold Metaobject.catalogOf. by rewrite Hs.
    + intros c [Hin|Hin]%in_app_or Hw'; [|by apply Hsent].
      apply enter_sent in Hin. congruence.
  - destruct H as (Hr & Hs & Hsent). split; [done|]. split.
    + by rewrite Hs, enter_metaobjects.
    + intros c [Hin|Hin]%in_app_or; [by apply enter_sent in Hin|by apply Hsent].
Qed.





End Awards.

Section Draw.
Import Shopify.

(** C2.  With a non-empty available subset, a spin request of a customer
  who may play awards the entry picked as follows: the available entries
  are the entries of the catalog, in its order, whose remaining count is
  null or above 0; [total] is the sum of the weights of the available
  entries only, [r] is [Math.random()] times [total], the available
  entries are walked in catalog order while their weights are accumulated,
  and the first entry whose cumulative weight is [>= r] is chosen; when no
  cumulative weight reaches [r] the last available entry is chosen.  The
  rule names one entry, and that entry is in the answer.  [Math.random()]
  is the input [random env]; the sums are the binary64 sums taken from 0
  in catalog order. *)
Theorem weighted_draw_picks_first_reaching :
  (∀ phone env s p first others,
     identityOf phone = Some p → p ≠ "" → Metafield.mayPlay s p = true →
     Metafield.availableOf s = first :: others →
     let available := Metafield.availableOf s in
     let total := sumOfWeights Metafield.prob available in
     let r := (random env * total)%float in
     (∀ q, In q available ↔
           In q Metafield.PRIZES ∧
           (Metafield.remainingOf s (Metafield.id q) = Some None ∨
            ∃ n, Metafield.remainingOf s (Metafield.id q) = Some (Some n) ∧ 0 < n)) ∧
     sublist available Metafield.PRIZES ∧
     ∃ chosen,
       firstReaching Metafield.prob r available chosen ∧
       (∀ other, firstReaching Metafield.prob r available other → other = chosen) ∧
       ∃ number,
         result (Metafield.spin phone env s) =
           Metafield.Won (Metafield.id chosen) (Metafield.label chosen) number) ∧
  (∀ phone env s p first others,
     identityOf phone = Some p → p ≠ "" → Metaobject.mayPlay s p = true →
     Metaobject.availableOf s = first :: others →
     let available := Metaobject.availableOf s in
     let total := sumOfWeights Metaobject.prob available in
     let r := (random env * total)%float in
     (∀ q, In q available ↔
           In q (Metaobject.catalogOf s) ∧
           (Metaobject.remaining q = None ∨
            ∃ n, Metaobject.remaining q = Some n ∧ 0 < n)) ∧
     sublist available (Metaobject.catalogOf s) ∧
     ∃ chosen,
       firstReaching Metaobject.prob r available chosen ∧
       (∀ other, firstReaching Metaobject.prob r available other → other = chosen) ∧
       ∃ number,
         result (Metaobject.spin phone env s) =
           Metaobject.Won (Metaobject.id chosen) (Metaobject.label chosen) number).
Proof.
  split; intros phone env s p first others Hid Hne Hmay Hav; cbn zeta;
    rewrite sumOfWeights_totalProb.
  - split; [|split; [apply kept_in_order|]].
    { intros q. unfold Metafield.availableOf, Metafield.remainingOf, Metafield.isAvailable.
      rewrite filter_In. split.
      - intros [Hin Hq]. split; [done|].
        destruct (Metafield.countsOf s !! Metafield.id q) as [[n|]|]; [|by left|done].
        right. exists n. split; [done|]. by apply Z.ltb_lt.
      - intros [Hin [->|(n & -> & Hn)]]; [done|]. split; [done|]. by apply Z.ltb_lt. }
    destruct (mf_spin_awards phone env s p Hid Hne Hmay) as [_ H].
    rewrite Hav in *. destruct H as (Hr & _).
    exists (select Metafield.prob (random env) first others).
    split; [apply select_firstReaching|]. split; [|by eexists].
    intros other Hother. eapply firstReaching_unique; [exact Hother|].
    apply select_firstReaching.
  - split; [|split; [apply kept_in_order|]].
    { intros q. unfold Metaobject.availableOf, Metaobject.available.
      rewrite filter_In. split.
      - intros [Hin Hq]. split; [done|].
        destruct (Metaobject.remaining q) as [n|]; [|by left].
        right. exists n. split; [done|]. by apply Z.ltb_lt.
      - intros [Hin [->|(n & -> & Hn)]]; [done|]. split; [done|]. by apply Z.ltb_lt. }
    destruct (mo_spin_awards phone env s p Hid Hne Hmay) as [_ H].
    unfold Metaobject.awardedOn in H. rewrite Hav in *. destruct H as (Hr & _).
    exists (select Metaobject.prob (random env) first others).
    split; [apply select_firstReaching|]. split; [|by eexists].
    intros other Hother. eapply firstReaching_unique; [exact Hother|].
    apply select_firstReaching.
Qed.

(** On [Example.partly] with [Math.random()] = 0.5.  index.js: the
  available entries weigh 0.05, 0.33, 0.30, 0.30 and 0.01, r is half their
  sum, and the third of them, the mobile holder, is the first to reach it.
  The metaobject-backed server: A and B weigh 0.5 each, r is 0.5, and A
  reaches it. *)
Lemma weighted_draw_picks_first_reaching_witness :
  (map Metafield.id (Metafield.availableOf Example.partly) =
     ["1gm_gold_coin"; "free_helmet"; "mobile_holder"; "water_bottle"; "better_luck"] ∧
   (cumulative Metafield.prob (Metafield.availableOf Example.partly) 1 <?
      0.5 * sumOfWeights Metafield.prob (Metafield.availableOf Example.partly))%float = true ∧
   firstReaching Metafield.prob
     (0.5 * sumOfWeights Metafield.prob (Metafield.availableOf Example.partly))%float
     (Metafield.availableOf Example.partly)
     (Metafield.mkPrize "mobile_holder" "Mobile Holder" 0.30 (Some 20)) ∧
   result (Metafield.spin (JS.Str "12345") Example.env Example.partly) =
     Metafield.Won "mobile_holder" "Mobile Holder" 1) ∧
  (map Metaobject.id (Metaobject.catalogOf Example.partly) = ["C"; "A"; "B"] ∧
   map Metaobject.id (Metaobject.availableOf Example.partly) = ["A"; "B"] ∧
   firstReaching Metaobject.prob
     (0.5 * sumOfWeights Metaobject.prob (Metaobject.availableOf Example.partly))%float
     (Metaobject.availableOf Example.partly)
     (Metaobject.mkPrize "A" "Prize A" 0.5 (Some 1) (Some 1) 0 "gid://shopify/Metaobject/1") ∧
   result (Metaobject.spin (JS.Str "12345") Example.env Example.partly) =
     Metaobject.Won "A" "Prize A" 1).
Proof.
  split.
  - destruct (proj1 weighted_draw_picks_first_reaching (JS.Str "12345") Example.env
                Example.partly "12345"
                (Metafield.mkPrize "1gm_gold_coin" "1gm Gold Coin" 0.05 (Some 5))
                [Metafield.mkPrize "free_helmet" "Free Helmet Rs.2000" 0.33 (Some 20);
                 Metafield.mkPrize "mobile_holder" "Mobile Holder" 0.30 (Some 20);
                 Metafield.mkPrize "water_bottle" "Water Bottle + Cap" 0.30 (Some 20);
                 Metafield.mkPrize "better_luck" "Better Luck Next Time" 0.01 None])
      as (_ & _ & chosen & Hchosen & Hone & number & Hanswer);
      [reflexivity|discriminate|reflexivity|reflexivity|].
    assert (firstReaching Metafield.prob
              (0.5 * sumOfWeights Metafield.prob (Metafield.availableOf Example.partly))%float
              (Metafield.availableOf Example.partly)
              (Metafield.mkPrize "mobile_holder" "Mobile Holder" 0.30 (Some 20))) as Hthird.
    { left. exists 2%nat. split; [reflexivity|]. split; [vm_compute; reflexivity|].
      intros j Hj. destruct j as [|[|j]]; [vm_compute; reflexivity..|lia]. }
    split; [reflexivity|]. split; [vm_compute; reflexivity|]. split; [exact Hthird|].
    rewrite Hanswer, <- (Hone _ Hthird).
    assert (result (Metafield.spin (JS.Str "12345") Example.env Example.partly) =
              Metafield.Won "mobile_holder" "Mobile Holder" 1) as Hrun
      by (vm_compute; reflexivity).
    rewrite Hanswer in Hrun. by injection Hrun as _ _ ->.
  - destruct (proj2 weighted_draw_picks_first_reaching (JS.Str "12345") Example.env
                Example.partly "12345"
                (Metaobject.mkPrize "A" "Prize A" 0.5 (Some 1) (Some 1) 0
                   "gid://shopify/Metaobject/1")
                [Metaobject.mkPrize "B" "Prize B" 0.5 None None 0
                   "gid://shopify/Metaobject/2"])
      as (_ & _ & chosen & Hchosen & Hone & number & Hanswer);
      [reflexivity|discriminate|reflexivity|reflexivity|].
    assert (firstReaching Metaobject.prob
              (0.5 * sumOfWeights Metaobject.prob (Metaobject.availableOf Example.partly))%float
              (Metaobject.availableOf Example.partly)
              (Metaobject.mkPrize "A" "Prize A" 0.5 (Some 1) (Some 1) 0
                 "gid://shopify/Metaobject/1")) as Hfirst.
    { left. exists 0%nat. split; [reflexivity|]. split; [vm_compute; reflexivity|].
      intros j Hj. lia. }
    split; [reflexivity|]. split; [reflexivity|]. split; [exact Hfirst|].
    rewrite Hanswer, <- (Hone _ Hfirst).
    assert (result (Metaobject.spin (JS.Str "12345") Example.env Example.partly) =
              Metaobject.Won "A" "Prize A" 1) as Hrun
      by (vm_compute; reflexivity).
    rewrite Hanswer in Hrun. by injection Hrun as _ _ ->.
Defined.

(** The draw of index.js on the store [Example.partly]: total 0.99,
  r = 0.495, cumulative weights 0.05, 0.38, 0.68: the third available
  entry is the first to reach r. *)
Example draw_partly :
  result (Metafield.spin (JS.Str "12345") Example.env Example.partly) =
    Metafield.Won "mobile_holder" "Mobile Holder" 1.
Proof. vm_compute. reflexivity. Qed.

(** One available entry is chosen whatever the random value. *)
Lemma select_single {Prize} (prob : Prize → float) rnd (only : Prize) :
  select prob rnd only [] = only.
Proof. unfold select. cbn. by destruct (_ <=? _)%float. Qed.

End Draw.

Section Counters.
Import Shopify.

Lemma incremented_total d X Y :
  Metafield.orZero (Metafield.incremented d X !! Y) =
    if decide (Y = X) then Metafield.orZero (d !! X) + 1 else Metafield.orZero (d !! Y).
Proof.
  unfold Metafield.incremented. destruct (decide (Y = X)) as [->|Hne].
  - by rewrite lookup_insert_eq.
  - by rewrite lookup_insert_ne.
Qed.

Lemma mf_awardedOn_In s env X : Metafield.awardedOn s env = Some X → In X Metafield.PRIZES.
Proof.
  unfold Metafield.awardedOn. destruct (Metafield.availableOf s) as [|first others] eqn:Hav.
  - rewrite better_luck_entry. intros [= <-]. cbn. tauto.
  - intros [= <-]. pose proof (select_In Metafield.prob (random env) first others) as H.
    rewrite <- Hav in H. by apply filter_In in H as [H _].
Qed.

Lemma mo_awardedOn_In s env X :
  Metaobject.awardedOn s env = Some X → In X (Metaobject.catalogOf s).
Proof.
  unfold Metaobject.awardedOn, Metaobject.fallbackOf.
  destruct (Metaobject.availableOf s) as [|first others] eqn:Hav.
  - destruct (JS.find _ _) as [q|] eqn:Hf.
    + intros [= <-]. by apply find_some in Hf as [Hf _].
    + intros Hl. apply list_elem_of_In. rewrite last_lookup in Hl.
      by apply list_elem_of_lookup_2 in Hl.
  - intros [= <-]. pose proof (select_In Metaobject.prob (random env) first others) as H.
    rewrite <- Hav in H. by apply filter_In in H as [H _].
Qed.

(** The catalog after the request of a customer who may play. *)
Lemma mo_spin_catalog phone env s p X :
  identityOf phone = Some p → p ≠ "" → Metaobject.mayPlay s p = true →
  NoDup (map Metaobject.metaobjectId (Metaobject.catalogOf s)) →
  Metaobject.awardedOn s env = Some X →
  Metaobject.catalogOf (store (Metaobject.spin phone env s)) =
    map (λ q, if String.eqb (Metaobject.metaobjectId q) (Metaobject.metaobjectId X)
              then Metaobject.award q else q)
      (Metaobject.catalogOf s).
Proof.
  intros Hid Hne Hmay Hnd HX.
  destruct (mo_spin_awards phone env s p Hid Hne Hmay) as [_ H]. rewrite HX in H.
  destruct H as (_ & -> & _). apply catalog_after_award; [done|].
  by apply (mo_awardedOn_In s env).
Qed.

(** Why a counter is taken to be a safe integer: binary64 adds 1 to
  2^53 - 1 exactly, and gives 2^53 again for 2^53 + 1. *)
Example binary64_adds_one_to_safe_integers_only :
  JS.MAX_SAFE_INTEGER = 9007199254740991 ∧
  (9007199254740991 + 1 =? 9007199254740992)%float = true ∧
  (9007199254740992 + 1 =? 9007199254740992)%float = true.
Proof. split; [reflexivity|]. split; vm_compute; reflexivity. Qed.

(** C4.  Every award of a prize X by a spin request raises X's
  totalDistributed by exactly 1, whether X has a cap or not and whether it
  was drawn or given as the fallback, and leaves the totalDistributed of
  every other prize as it was.  In index.js the counter is the member of
  the distribution metafield under X's id; in the metaobject-backed server
  it is the field of X's own metaobject, the catalog entries having
  distinct handles.  X's counter is a safe integer before the award, so
  that the sum of the code, taken in binary64, is the integer sum. *)
Theorem award_increments_only_its_counter :
  (∀ phone env s p,
     identityOf phone = Some p → p ≠ "" → Metafield.mayPlay s p = true →
     ∃ X, Metafield.awardedOn s env = Some X ∧ In X Metafield.PRIZES ∧
       (JS.isSafeInteger (Metafield.totalDistributedOf s (Metafield.id X)) = true →
        let r := Metafield.spin phone env s in
        let n := Metafield.totalDistributedOf s (Metafield.id X) + 1 in
        (result r = Metafield.Won (Metafield.id X) (Metafield.label X) n ∨
         result r = Metafield.Fallback (Metafield.label X) n) ∧
        Metafield.totalDistributedOf (store r) (Metafield.id X) = n ∧
        ∀ Y, Y ≠ Metafield.id X →
             Metafield.totalDistributedOf (store r) Y = Metafield.totalDistributedOf s Y)) ∧
  (∀ phone env s p X,
     identityOf phone = Some p → p ≠ "" → Metaobject.mayPlay s p = true →
     NoDup (map Metaobject.metaobjectId (Metaobject.catalogOf s)) →
     Metaobject.awardedOn s env = Some X →
     JS.isSafeInteger (Metaobject.totalDistributed X) = true →
     let r := Metaobject.spin phone env s in
     let n := Metaobject.totalDistributed X + 1 in
     In X (Metaobject.catalogOf s) ∧
     (result r = Metaobject.Won (Metaobject.id X) (Metaobject.label X) n ∨
      result r = Metaobject.Fallback (Metaobject.label X) n) ∧
     ∀ i q, Metaobject.catalogOf s !! i = Some q →
       ∃ q', Metaobject.catalogOf (store r) !! i = Some q' ∧
         Metaobject.metaobjectId q' = Metaobject.metaobjectId q ∧
         Metaobject.totalDistributed q' =
           if String.eqb (Metaobject.metaobjectId q) (Metaobject.metaobjectId X)
           then Metaobject.totalDistributed q + 1 else Metaobject.totalDistributed q).
Proof.
  split.
  - intros phone env s p Hid Hne Hmay.
    destruct (mf_spin_awards phone env s p Hid Hne Hmay) as [_ H].
    destruct (Metafield.awardedOn s env) as [X|] eqn:HX.
    2:{ unfold Metafield.awardedOn in HX. destruct (Metafield.availableOf s); [|done].
        by rewrite better_luck_entry in HX. }
    exists X. split; [done|]. split; [by apply (mf_awardedOn_In s env)|]. intros _.
    unfold Metafield.awardedOn in HX. cbn zeta.
    destruct (Metafield.availableOf s) as [|first others].
    + rewrite better_luck_entry in HX. injection HX as <-. cbn [Metafield.id Metafield.label].
      destruct H as (Hr & _ & Hd). split; [by right|].
      unfold Metafield.totalDistributedOf. rewrite Hd. split.
      * rewrite incremented_total. by destruct (decide _).
      * intros Y HY. rewrite incremented_total. by destruct (decide _).
    + injection HX as <-. destruct H as (Hr & _ & Hd). split; [by left|].
      unfold Metafield.totalDistributedOf. rewrite Hd. split.
      * rewrite incremented_total. by destruct (decide _).
      * intros Y HY. rewrite incremented_total. by destruct (decide _).
  - intros phone env s p X Hid Hne Hmay Hnd HX _. cbn zeta.
    split; [by apply (mo_awardedOn_In s env)|]. split.
    + destruct (mo_spin_awards phone env s p Hid Hne Hmay) as [_ H]. rewrite HX in H.
      destruct H as (-> & _). destruct (Metaobject.availableOf s); [by right|by left].
    + intros i q Hq. rewrite (mo_spin_catalog phone env s p X Hid Hne Hmay Hnd HX).
      rewrite list_lookup_fmap, Hq. cbn [fmap option_fmap option_map]. eexists. split; [done|].
      by destruct (String.eqb _ _).
Qed.

(** On [Example.partly] with [Math.random()] = 0.5: index.js awards the
  mobile holder and its counter goes from 0 to 1; the metaobject-backed
  server awards A, whose counter goes from 0 to 1 while those of C and
  B stay 2 and 0. *)
Lemma award_increments_only_its_counter_witness :
  (result (Metafield.spin (JS.Str "12345") Example.env Example.partly) =
     Metafield.Won "mobile_holder" "Mobile Holder" 1 ∧
   Metafield.totalDistributedOf Example.partly "mobile_holder" = 0 ∧
   Metafield.totalDistributedOf
     (store (Metafield.spin (JS.Str "12345") Example.env Example.partly)) "mobile_holder" = 1 ∧
   ∀ Y, Y ≠ "mobile_holder" →
     Metafield.totalDistributedOf
       (store (Metafield.spin (JS.Str "12345") Example.env Example.partly)) Y =
     Metafield.totalDistributedOf Example.partly Y) ∧
  (result (Metaobject.spin (JS.Str "12345") Example.env Example.partly) =
     Metaobject.Won "A" "Prize A" 1 ∧
   map Metaobject.totalDistributed (Metaobject.catalogOf Example.partly) = [2; 0; 0] ∧
   ∀ i q, Metaobject.catalogOf Example.partly !! i = Some q →
     ∃ q', Metaobject.catalogOf
             (store (Metaobject.spin (JS.Str "12345") Example.env Example.partly)) !! i =
             Some q' ∧
       Metaobject.metaobjectId q' = Metaobject.metaobjectId q ∧
       Metaobject.totalDistributed q' =
         if String.eqb (Metaobject.metaobjectId q) "gid://shopify/Metaobject/1"
         then Metaobject.totalDistributed q + 1 else Metaobject.totalDistributed q).
Proof.
  split.
  - destruct (proj1 award_increments_only_its_counter (JS.Str "12345") Example.env
                Example.partly "12345") as (X & HX & _ & H);
      [reflexivity|discriminate|reflexivity|].
    vm_compute in HX. injection HX as <-.
    destruct (H eq_refl) as ([Hr|Hr] & Hn & Hothers).
    + split; [exact Hr|]. split; [reflexivity|]. split; [exact Hn|exact Hothers].
    + exfalso. revert Hr. vm_compute. discriminate.
  - pose proof (proj2 award_increments_only_its_counter (JS.Str "12345") Example.env
                  Example.partly "12345"
                  (Metaobject.mkPrize "A" "Prize A" 0.5 (Some 1) (Some 1) 0
                     "gid://shopify/Metaobject/1")) as H.
    cbn zeta in H. destruct H as (_ & [Hr|Hr] & Hall);
      [reflexivity|discriminate|reflexivity|apply (bool_decide_unpack _); vm_compute; reflexivity
      |reflexivity|reflexivity| |].
    + split; [exact Hr|]. split; [reflexivity|exact Hall].
    + exfalso. revert Hr. vm_compute. discriminate.
Defined.

End Counters.

Section FallbackBranch.
Import Shopify.

(** With nothing available the request does not look at the random value. *)
Lemma mf_allocate_fallback_fixed customer env rnd s :
  Metafield.availableOf s = [] →
  Metafield.allocate customer (mkEnv rnd (now env)) s = Metafield.allocate customer env s.
Proof.
  intros Hav. unfold Metafield.allocate.
  do 2 (erewrite bind_step by apply ensureShopPrizeCounts_run;
        erewrite bind_step by apply ensurePrizeDistribution_run).
  cbn [Metafield.value]. unfold Metafield.availableOf in Hav. by rewrite Hav.
Qed.

Lemma mo_allocate_fallback_fixed customer env rnd s :
  Metaobject.availableOf s = [] →
  Metaobject.allocate customer (mkEnv rnd (now env)) s = Metaobject.allocate customer env s.
Proof.
  intros Hav. unfold Metaobject.allocate.
  destruct (getCurrentPrizes_run s) as (loaded & Hrun & Hloaded).
  do 2 (erewrite bind_step by apply Hrun).
  destruct (Metaobject.catalogOf s) as [|p0 ps] eqn:Hcat.
  { by destruct Hloaded as [message ->]. }
  rewrite Hloaded. unfold Metaobject.availableOf in Hav. rewrite Hcat in Hav. by rewrite Hav.
Qed.

(** C5, as the code has it.  When no prize is available, a spin request of
  a customer who may play awards the designated fallback entry, which is
  the entry whose id is 'better_luck': in index.js that entry of the
  constant catalog has no cap and is also its last entry; in the
  metaobject-backed server the first entry with that id is taken, capped
  or not, and, when the catalog has none, its last entry.  The answer and
  the store do not depend on the random value, and the totalDistributed
  of the entry awarded goes up by one, its counter being a safe integer
  before the award. *)
Theorem fallback_is_designated_and_never_random :
  (∀ phone env s p,
     identityOf phone = Some p → p ≠ "" → Metafield.mayPlay s p = true →
     Metafield.availableOf s = [] →
     ∃ fallback,
       JS.find (λ q, String.eqb (Metafield.id q) "better_luck") Metafield.PRIZES = Some fallback ∧
       Metafield.max fallback = None ∧ last Metafield.PRIZES = Some fallback ∧
       let r := Metafield.spin phone env s in
       (∀ rnd, Metafield.spin phone (mkEnv rnd (now env)) s = r) ∧
       ∃ number,
         result r = Metafield.Fallback (Metafield.label fallback) number ∧
         (JS.isSafeInteger (Metafield.totalDistributedOf s (Metafield.id fallback)) = true →
          number = Metafield.totalDistributedOf s (Metafield.id fallback) + 1 ∧
          Metafield.totalDistributedOf (store r) (Metafield.id fallback) =
            Metafield.totalDistributedOf s (Metafield.id fallback) + 1)) ∧
  (∀ phone env s p,
     identityOf phone = Some p → p ≠ "" → Metaobject.mayPlay s p = true →
     NoDup (map Metaobject.metaobjectId (Metaobject.catalogOf s)) →
     Metaobject.availableOf s = [] → Metaobject.catalogOf s ≠ [] →
     ∃ fallback i,
       Metaobject.catalogOf s !! i = Some fallback ∧
       (JS.find (λ q, String.eqb (Metaobject.id q) "better_luck") (Metaobject.catalogOf s) =
          Some fallback ∨
        JS.find (λ q, String.eqb (Metaobject.id q) "better_luck") (Metaobject.catalogOf s) =
          None ∧ last (Metaobject.catalogOf s) = Some fallback) ∧
       let r := Metaobject.spin phone env s in
       (∀ rnd, Metaobject.spin phone (mkEnv rnd (now env)) s = r) ∧
       ∃ number,
         result r = Metaobject.Fallback (Metaobject.label fallback) number ∧
         (JS.isSafeInteger (Metaobject.totalDistributed fallback) = true →
          number = Metaobject.totalDistributed fallback + 1 ∧
          ∃ after, Metaobject.catalogOf (store r) !! i = Some after ∧
            Metaobject.metaobjectId after = Metaobject.metaobjectId fallback ∧
            Metaobject.totalDistributed after = Metaobject.totalDistributed fallback + 1)).
Proof.
  split.
  - intros phone env s p Hid Hne Hmay Hav. eexists. split; [apply better_luck_entry|].
    split; [done|]. split; [done|]. cbn zeta. cbn [Metafield.id Metafield.label].
    destruct (mf_spin_awards phone env s p Hid Hne Hmay) as [_ H]. rewrite Hav in H.
    destruct H as (Hr & _ & Hd). split.
    + intros rnd. rewrite !(mf_spin_allocates _ _ _ _ Hid Hne Hmay).
      rewrite mf_allocate_fallback_fixed; [done|].
      unfold Metafield.availableOf, Metafield.countsOf in *. by rewrite enter_metafields.
    + eexists. split; [exact Hr|]. intros _. split; [done|].
      unfold Metafield.totalDistributedOf. rewrite Hd, incremented_total.
      by destruct (decide _).
  - intros phone env s p Hid Hne Hmay Hnd Hav Hcat.
    destruct (fallbackOf_nonempty _ Hcat) as [fallback Hfb].
    assert (Metaobject.awardedOn s env = Some fallback) as HX.
    { unfold Metaobject.awardedOn. by rewrite Hav. }
    pose proof (mo_awardedOn_In _ _ _ HX) as Hin.
    apply list_elem_of_In, list_elem_of_lookup in Hin as [i Hi].
    exists fallback, i. split; [done|]. split.
    { unfold Metaobject.fallbackOf in Hfb. destruct (JS.find _ _); [left|right]; by try split. }
    cbn zeta. destruct (mo_spin_awards phone env s p Hid Hne Hmay) as [_ H].
    rewrite HX, Hav in H. destruct H as (Hr & _). split.
    { intros rnd. rewrite !(mo_spin_allocates _ _ _ _ Hid Hne Hmay).
      rewrite mo_allocate_fallback_fixed; [done|].
      destruct (mo_views_same (store (enter s p)) s (enter_metaobjects s p)) as (_ & -> & _).
      done. }
    eexists. split; [exact Hr|]. intros _. split; [done|].
    exists (Metaobject.award fallback). split; [|done].
    rewrite (mo_spin_catalog phone env s p fallback Hid Hne Hmay Hnd HX).
    rewrite list_lookup_fmap, Hi. cbn [fmap option_fmap option_map].
    by rewrite String.eqb_refl.
Qed.

(** Three used-up stores.  index.js on [Example.exhausted] gives the entry
  'better_luck', whose counter goes from 0 to 1.  The metaobject-backed
  server gives, on the catalog 'better_luck', C, its first entry, whose
  counter goes from 3 to 4 and, on the catalog C, D, which has no entry
  'better_luck', the last entry D, whose counter goes from 1 to 2. *)
Lemma fallback_is_designated_and_never_random_witness :
  (result (Metafield.spin (JS.Str "12345") Example.env Example.exhausted) =
     Metafield.Fallback "Better Luck Next Time" 1 ∧
   Metafield.totalDistributedOf
     (store (Metafield.spin (JS.Str "12345") Example.env Example.exhausted)) "better_luck" = 1 ∧
   ∀ rnd, Metafield.spin (JS.Str "12345") (mkEnv rnd (now Example.env)) Example.exhausted =
          Metafield.spin (JS.Str "12345") Example.env Example.exhausted) ∧
  (map Metaobject.id (Metaobject.catalogOf Example.luckFirst) = ["better_luck"; "C"] ∧
   result (Metaobject.spin (JS.Str "12345") Example.env Example.luckFirst) =
     Metaobject.Fallback "Better Luck Next Time" 4 ∧
   (∃ i after,
      Metaobject.id <$> Metaobject.catalogOf Example.luckFirst !! i = Some "better_luck" ∧
      Metaobject.catalogOf
        (store (Metaobject.spin (JS.Str "12345") Example.env Example.luckFirst)) !! i =
        Some after ∧
      Metaobject.totalDistributed after = 4) ∧
   ∀ rnd, Metaobject.spin (JS.Str "12345") (mkEnv rnd (now Example.env)) Example.luckFirst =
          Metaobject.spin (JS.Str "12345") Example.env Example.luckFirst) ∧
  (map Metaobject.id (Metaobject.catalogOf Example.usedUp) = ["C"; "D"] ∧
   result (Metaobject.spin (JS.Str "12345") Example.env Example.usedUp) =
     Metaobject.Fallback "Prize D" 2 ∧
   (∃ i after,
      Metaobject.id <$> Metaobject.catalogOf Example.usedUp !! i = Some "D" ∧
      Metaobject.catalogOf
        (store (Metaobject.spin (JS.Str "12345") Example.env Example.usedUp)) !! i =
        Some after ∧
      Metaobject.totalDistributed after = 2) ∧
   ∀ rnd, Metaobject.spin (JS.Str "12345") (mkEnv rnd (now Example.env)) Example.usedUp =
          Metaobject.spin (JS.Str "12345") Example.env Example.usedUp).
Proof.
  split; [|split].
  - destruct (proj1 fallback_is_designated_and_never_random (JS.Str "12345") Example.env
                Example.exhausted "12345")
      as (fallback & Hfind & _ & _ & Hfixed & number & Hanswer & Hcount);
      [reflexivity|discriminate|reflexivity|reflexivity|].
    vm_compute in Hfind. injection Hfind as <-.
    destruct (Hcount eq_refl) as [-> Hafter].
    split; [exact Hanswer|]. split; [exact Hafter|exact Hfixed].
  - destruct (proj2 fallback_is_designated_and_never_random (JS.Str "12345") Example.env
                Example.luckFirst "12345")
      as (fallback & i & Hi & Hwhich & Hfixed & number & Hanswer & Hcount);
      [reflexivity|discriminate|reflexivity|apply (bool_decide_unpack _); vm_compute; reflexivity
      |reflexivity|discriminate|].
    vm_compute in Hwhich. destruct Hwhich as [Hfind|[Hfind _]]; [|discriminate Hfind].
    injection Hfind as <-.
    destruct (Hcount eq_refl) as (-> & after & Hafter & _ & Htotal).
    split; [reflexivity|]. split; [exact Hanswer|]. split; [|exact Hfixed].
    exists i, after. split; [by rewrite Hi|]. split; [exact Hafter|exact Htotal].
  - destruct (proj2 fallback_is_designated_and_never_random (JS.Str "12345") Example.env
                Example.usedUp "12345")
      as (fallback & i & Hi & Hwhich & Hfixed & number & Hanswer & Hcount);
      [reflexivity|discriminate|reflexivity|apply (bool_decide_unpack _); vm_compute; reflexivity
      |reflexivity|discriminate|].
    vm_compute in Hwhich. destruct Hwhich as [Hfind|[_ Hlast]]; [discriminate Hfind|].
    injection Hlast as <-.
    destruct (Hcount eq_refl) as (-> & after & Hafter & _ & Htotal).
    split; [reflexivity|]. split; [exact Hanswer|]. split; [|exact Hfixed].
    exists i, after. split; [by rewrite Hi|]. split; [exact Hafter|exact Htotal].
Defined.

(** C5, as stated, fails on the metaobject-backed server.  There an entry
  without a cap is always available, so that with nothing available the
  statement asks for the last entry of the catalog.  On the used-up
  catalog 'better_luck', C of [Example.luckFirst], where no entry is
  without a cap and C is the last entry, the request awards the first
  entry, found by its id, and leaves the counter of C as it was. *)
Lemma fallback_is_found_by_id_not_by_cap :
  ¬ (∀ phone env s p fallback,
       identityOf phone = Some p → p ≠ "" → Metaobject.mayPlay s p = true →
       NoDup (map Metaobject.metaobjectId (Metaobject.catalogOf s)) →
       Metaobject.availableOf s = [] →
       uncappedElseLast Metaobject.max (Metaobject.catalogOf s) = Some fallback →
       ∃ number,
         result (Metaobject.spin phone env s) =
           Metaobject.Fallback (Metaobject.label fallback) number).
Proof.
  intros H.
  destruct (H (JS.Str "12345") Example.env Example.luckFirst "12345"
              (Metaobject.mkPrize "C" "Prize C" 0.1 (Some 2) (Some 0) 2
                 "gid://shopify/Metaobject/3"))
    as [number Hanswer];
    [reflexivity|discriminate|reflexivity|apply (bool_decide_unpack _); vm_compute; reflexivity
    |reflexivity|reflexivity|].
  revert Hanswer. vm_compute. discriminate.
Qed.

(** The run behind it: the catalog has no entry without a cap, its last
  entry is C, the answer names the first entry, and the counter of C
  stays 2 while that of the first entry goes from 3 to 4. *)
Example fallback_on_luckFirst :
  map Metaobject.max (Metaobject.catalogOf Example.luckFirst) = [Some 3; Some 2] ∧
  Metaobject.label <$> uncappedElseLast Metaobject.max (Metaobject.catalogOf Example.luckFirst) =
    Some "Prize C" ∧
  result (Metaobject.spin (JS.Str "12345") Example.env Example.luckFirst) =
    Metaobject.Fallback "Better Luck Next Time" 4 ∧
  map Metaobject.totalDistributed
    (Metaobject.catalogOf
       (store (Metaobject.spin (JS.Str "12345") Example.env Example.luckFirst))) = [4; 2].
Proof. repeat split; vm_compute; reflexivity. Qed.

(** The answer on the exhausted store: index.js gives the 'better_luck'
  entry although its own count is 0; the other server gives its last
  entry, C. *)
Example fallback_exhausted :
  result (Metafield.spin (JS.Str "12345") Example.env Example.exhausted) =
    Metafield.Fallback "Better Luck Next Time" 1 ∧
  result (Metaobject.spin (JS.Str "12345") Example.env Example.exhausted) =
    Metaobject.Fallback "Prize C" 3.
Proof. split; vm_compute; reflexivity. Qed.

End FallbackBranch.

Section Depletion.
Import Shopify.

Lemma decremented_other counts X Y :
  Y ≠ X → Metafield.decremented counts X !! Y = counts !! Y.
Proof.
  intros Hne. unfold Metafield.decremented.
  destruct (counts !! X) as [[n|]|]; by rewrite ?lookup_insert_ne.
Qed.

Lemma decremented_same counts X n :
  counts !! X = Some (Some n) →
  Metafield.decremented counts X !! X = Some (Some (Z.max 0 (n - 1))).
Proof. intros H. unfold Metafield.decremented. by rewrite H, lookup_insert_eq. Qed.

(** Any spin request, on the counts of index.js: either they are as before
  and no prize was drawn, or an available prize was drawn and its count
  went down. *)
Lemma mf_spin_counts phone env s :
  let r := Metafield.spin phone env s in
  (Metafield.countsOf (store r) = Metafield.countsOf s ∧
   ∀ i l n, result r ≠ Metafield.Won i l n) ∨
  (∃ chosen n, In chosen (Metafield.availableOf s) ∧
     Metafield.countsOf (store r) =
       Metafield.decremented (Metafield.countsOf s) (Metafield.id chosen) ∧
     result r = Metafield.Won (Metafield.id chosen) (Metafield.label chosen) n).
Proof.
  intros r. subst r.
  destruct (identityOf phone) as [p|] eqn:Hid.
  2:{ left. destruct (mf_spin_refused phone env s) as (-> & H & _); [|done].
      intros p. by rewrite Hid. }
  destruct (decide (p = "")) as [->|Hne].
  { left. destruct (mf_spin_refused phone env s) as (-> & H & _); [|done].
    intros p. rewrite Hid. by intros [= <-]. }
  destruct (Metafield.mayPlay s p) eqn:Hmay.
  2:{ left. destruct (mf_spin_refused phone env s) as (-> & H & _); [|done].
      intros p'. rewrite Hid. by intros [= <-]. }
  destruct (mf_spin_awards phone env s p Hid Hne Hmay) as [_ H].
  destruct (Metafield.availableOf s) as [|first others] eqn:Hav.
  - left. destruct H as (-> & -> & _). done.
  - right. destruct H as (Hr & Hc & _). eexists _, _. split; [apply select_In|done].
Qed.

Lemma mf_available_positive s q :
  In q (Metafield.availableOf s) →
  Metafield.remainingOf s (Metafield.id q) = Some None ∨
  ∃ n, Metafield.remainingOf s (Metafield.id q) = Some (Some n) ∧ 0 < n.
Proof.
  intros [_ H]%filter_In. unfold Metafield.isAvailable, Metafield.remainingOf in *.
  destruct (Metafield.countsOf s !! Metafield.id q) as [[n|]|]; try done; [right|by left].
  exists n. split; [done|]. by apply Z.ltb_lt.
Qed.

(** One request, for the count of one prize of index.js. *)
Lemma mf_spin_remaining phone env s X n :
  Metafield.remainingOf s X = Some (Some n) → 0 ≤ n →
  let r := Metafield.spin phone env s in
  ∃ n', Metafield.remainingOf (store r) X = Some (Some n') ∧ 0 ≤ n' ≤ n ∧
        (n = 0 → ∀ l k, result r ≠ Metafield.Won X l k).
Proof.
  intros HX Hn r. subst r. unfold Metafield.remainingOf in *.
  destruct (mf_spin_counts phone env s) as [[-> Hr]|(chosen & k & Hin & -> & ->)].
  { exists n. split; [done|]. split; [lia|]. intros _ l k. apply Hr. }
  destruct (decide (X = Metafield.id chosen)) as [->|Hne].
  - destruct (mf_available_positive s chosen Hin) as [H|(m & H & Hm)];
      unfold Metafield.remainingOf in H; rewrite HX in H; [done|]. injection H as <-.
    rewrite (decremented_same _ _ n HX). eexists. split; [done|]. split; lia.
  - rewrite decremented_other by done. exists n. split; [done|]. split; [lia|].
    intros _ l k' [= E]. by destruct Hne.
Qed.

(** Any spin request, on the catalog of the metaobject-backed server: every
  entry is as before or has received one award. *)
Lemma mo_spin_step phone env s :
  NoDup (map Metaobject.metaobjectId (Metaobject.catalogOf s)) →
  ∃ f, Metaobject.catalogOf (store (Metaobject.spin phone env s)) =
         map f (Metaobject.catalogOf s) ∧
       ∀ q, f q = q ∨ f q = Metaobject.award q.
Proof.
  intros Hnd.
  assert ((∀ p, identityOf phone = Some p → p ≠ "" → Metaobject.mayPlay s p = false) ∨
          ∃ p, identityOf phone = Some p ∧ p ≠ "" ∧ Metaobject.mayPlay s p = true) as [H|H].
  { destruct (identityOf phone) as [p|]; [|by left].
    destruct (decide (p = "")) as [->|Hne]; [left; by intros ? [= <-]|].
    destruct (Metaobject.mayPlay s p) eqn:Hmay; [right; eauto|left; by intros ? [= <-]]. }
  - destruct (mo_spin_refused phone env s H) as (resp & l & -> & _).
    exists (λ q, q). split; [by rewrite map_id|by left].
  - destruct H as (p & Hid & Hne & Hmay).
    destruct (Metaobject.awardedOn s env) as [X|] eqn:HX.
    + exists (λ q, if String.eqb (Metaobject.metaobjectId q) (Metaobject.metaobjectId X)
                   then Metaobject.award q else q).
      split; [by apply (mo_spin_catalog phone env s p X)|].
      intros q. cbn beta.
      destruct (String.eqb (Metaobject.metaobjectId q) (Metaobject.metaobjectId X));
        [by right|by left].
    + destruct (mo_spin_awards phone env s p Hid Hne Hmay) as [_ H]. rewrite HX in H.
      destruct H as (_ & Hs & _). exists (λ q, q).
      split; [|by left]. rewrite map_id. by apply mo_views_same.
Qed.

Lemma mo_catalog_remaining_nonneg s q n :
  In q (Metaobject.catalogOf s) → Metaobject.remaining q = Some n → 0 ≤ n.
Proof.
  intros (mo & _ & Hq)%catalog_entry_source Hr. pose proof (toPrize_range _ _ Hq) as H.
  rewrite Hr in H. destruct (Metaobject.max q); [lia|done].
Qed.

(** One request, for one entry of the metaobject catalog. *)
Lemma mo_spin_remaining phone env s i q n :
  NoDup (map Metaobject.metaobjectId (Metaobject.catalogOf s)) →
  Metaobject.catalogOf s !! i = Some q → Metaobject.remaining q = Some n →
  let r := Metaobject.spin phone env s in
  NoDup (map Metaobject.metaobjectId (Metaobject.catalogOf (store r))) ∧
  ∃ q' n', Metaobject.catalogOf (store r) !! i = Some q' ∧
    Metaobject.metaobjectId q' = Metaobject.metaobjectId q ∧
    Metaobject.remaining q' = Some n' ∧ 0 ≤ n' ≤ n.
Proof.
  intros Hnd Hq Hr r. subst r.
  assert (0 ≤ n) as Hn.
  { apply (mo_catalog_remaining_nonneg s q); [|done].
    apply list_elem_of_In. by apply list_elem_of_lookup_2 in Hq. }
  destruct (mo_spin_step phone env s Hnd) as (f & -> & Hf). split.
  - rewrite map_map. erewrite map_ext; [exact Hnd|].
    intros a. cbn beta. by destruct (Hf a) as [->| ->].
  - rewrite list_lookup_fmap, Hq. cbn [fmap option_fmap option_map].
    destruct (Hf q) as [->| ->].
    + exists q, n. repeat split; try done; lia.
    + eexists _, _. split; [done|]. split; [done|]. unfold Metaobject.award.
      cbn [Metaobject.remaining]. rewrite Hr. split; [done|]. lia.
Qed.

End Depletion.

Section DepletionRuns.
Import Shopify.

Lemma mf_spins_remaining reqs : ∀ s X n,
  Metafield.remainingOf s X = Some (Some n) → 0 ≤ n →
  ∃ n', Metafield.remainingOf (Metafield.spins reqs s).2 X = Some (Some n') ∧ 0 ≤ n' ≤ n ∧
        (n = 0 → ∀ l k, ¬ In (Metafield.Won X l k) (Metafield.spins reqs s).1).
Proof.
  induction reqs as [|[phone env] reqs IH]; intros s X n HX Hn.
  - exists n. cbn. split; [done|]. split; [lia|]. by intros _ l k [].
  - cbn [Metafield.spins fst snd].
    destruct (mf_spin_remaining phone env s X n HX Hn) as (n1 & H1 & Hn1 & Hw1).
    destruct (IH (store (Metafield.spin phone env s)) X n1 H1 (proj1 Hn1))
      as (n' & H' & Hn' & Hw').
    exists n'. split; [done|]. split; [lia|]. intros -> l k [E|Hin].
    + by apply (Hw1 eq_refl l k).
    + apply (Hw' ltac:(lia) l k Hin).
Qed.

Lemma mo_spins_remaining reqs : ∀ s i q n,
  NoDup (map Metaobject.metaobjectId (Metaobject.catalogOf s)) →
  Metaobject.catalogOf s !! i = Some q → Metaobject.remaining q = Some n →
  ∃ q' n', Metaobject.catalogOf (Metaobject.spins reqs s).2 !! i = Some q' ∧
    Metaobject.metaobjectId q' = Metaobject.metaobjectId q ∧
    Metaobject.remaining q' = Some n' ∧ 0 ≤ n' ≤ n.
Proof.
  induction reqs as [|[phone env] reqs IH]; intros s i q n Hnd Hq Hr.
  - assert (0 ≤ n) as Hn.
    { apply (mo_catalog_remaining_nonneg s q); [|done].
      apply list_elem_of_In. by apply list_elem_of_lookup_2 in Hq. }
    exists q, n. cbn. repeat split; try done; lia.
  - cbn [Metaobject.spins fst snd].
    destruct (mo_spin_remaining phone env s i q n Hnd Hq Hr)
      as (Hnd1 & q1 & n1 & Hq1 & Hid1 & Hr1 & Hn1).
    destruct (IH _ i q1 n1 Hnd1 Hq1 Hr1) as (q' & n' & Hq' & Hid' & Hr' & Hn').
    exists q', n'. repeat split; try done; try lia. congruence.
Qed.

(** C3.  Over any run of spin requests, with no reset in between, the
  remaining count of a capped prize stays within [0, its earlier value]:
  a decrement is [Math.max(0, remaining - 1)], so it never goes negative.
  Once the count is 0 it stays 0, the prize is not in the available
  subset, and the weighted draw never selects it.  In index.js the prize
  is named by its id; in the metaobject-backed server it is the catalog
  entry at a position, the entries having distinct handles, and its
  loaded count is never negative in the first place. *)
Theorem remaining_never_negative_and_depleted_excluded :
  (∀ reqs s X n,
     Metafield.remainingOf s X = Some (Some n) → 0 ≤ n →
     let out := Metafield.spins reqs s in
     ∃ n', Metafield.remainingOf out.2 X = Some (Some n') ∧ 0 ≤ n' ≤ n ∧
       (n = 0 →
        (∀ q, In q (Metafield.availableOf out.2) → Metafield.id q ≠ X) ∧
        ∀ l k, ¬ In (Metafield.Won X l k) out.1)) ∧
  (∀ reqs s i q n,
     NoDup (map Metaobject.metaobjectId (Metaobject.catalogOf s)) →
     Metaobject.catalogOf s !! i = Some q → Metaobject.remaining q = Some n →
     let out := Metaobject.spins reqs s in
     0 ≤ n ∧
     ∃ q' n', Metaobject.catalogOf out.2 !! i = Some q' ∧
       Metaobject.metaobjectId q' = Metaobject.metaobjectId q ∧
       Metaobject.remaining q' = Some n' ∧ 0 ≤ n' ≤ n ∧
       (n = 0 →
        ¬ In q' (Metaobject.availableOf out.2) ∧
        ∀ rnd first others, Metaobject.availableOf out.2 = first :: others →
          select Metaobject.prob rnd first others ≠ q')).
Proof.
  split.
  - intros reqs s X n HX Hn out. subst out.
    destruct (mf_spins_remaining reqs s X n HX Hn) as (n' & H' & Hn' & Hw).
    exists n'. split; [done|]. split; [done|]. intros ->. split; [|by apply Hw].
    intros q Hq <-. assert (n' = 0) as -> by lia.
    destruct (mf_available_positive _ q Hq) as [H|(m & H & Hm)]; rewrite H' in H; [done|].
    injection H as <-. lia.
  - intros reqs s i q n Hnd Hq Hr out. subst out.
    split.
    { apply (mo_catalog_remaining_nonneg s q); [|done].
      apply list_elem_of_In. by apply list_elem_of_lookup_2 in Hq. }
    destruct (mo_spins_remaining reqs s i q n Hnd Hq Hr) as (q' & n' & Hq' & Hid' & Hr' & Hn').
    exists q', n'. do 4 (split; [done|]). intros ->. assert (n' = 0) as -> by lia.
    assert (¬ In q' (Metaobject.availableOf (Metaobject.spins reqs s).2)) as Hout.
    { intros [_ Hav]%filter_In. unfold Metaobject.available in Hav. by rewrite Hr' in Hav. }
    split; [done|]. intros rnd first others Hav <-. apply Hout. rewrite Hav.
    apply select_In.
Qed.

Lemma remaining_never_negative_and_depleted_excluded_witness :
  let reqs := [(JS.Str "11", Example.env); (JS.Str "22", Example.env')] in
  (∃ n', Metafield.remainingOf (Metafield.spins reqs Example.partly).2 "kivo_easy_lite" =
           Some (Some n') ∧ 0 ≤ n' ≤ 0 ∧
     (0 = 0 →
      (∀ q, In q (Metafield.availableOf (Metafield.spins reqs Example.partly).2) →
            Metafield.id q ≠ "kivo_easy_lite") ∧
      ∀ l k, ¬ In (Metafield.Won "kivo_easy_lite" l k) (Metafield.spins reqs Example.partly).1)) ∧
  (0 ≤ 0 ∧
   ∃ q' n', Metaobject.catalogOf (Metaobject.spins reqs Example.partly).2 !! 0%nat = Some q' ∧
     Metaobject.metaobjectId q' = "gid://shopify/Metaobject/3" ∧
     Metaobject.remaining q' = Some n' ∧ 0 ≤ n' ≤ 0 ∧
     (0 = 0 →
      ¬ In q' (Metaobject.availableOf (Metaobject.spins reqs Example.partly).2) ∧
      ∀ rnd first others,
        Metaobject.availableOf (Metaobject.spins reqs Example.partly).2 = first :: others →
        select Metaobject.prob rnd first others ≠ q')).
Proof.
  intros reqs. split.
  - refine (proj1 remaining_never_negative_and_depleted_excluded reqs Example.partly
              "kivo_easy_lite" 0 _ _); [reflexivity|lia].
  - refine (proj2 remaining_never_negative_and_depleted_excluded reqs Example.partly 0%nat
              (Metaobject.mkPrize "C" "Prize C" 0.1 (Some 2) (Some 0) 2
                 "gid://shopify/Metaobject/3") 0 _ _ _);
      [|reflexivity|reflexivity].
    apply (bool_decide_unpack _). vm_compute. reflexivity.
Defined.

End DepletionRuns.

Section Reset.
Import Shopify.

Lemma initialCounts_caps q :
  In q Metafield.PRIZES → Metafield.initialCounts !! Metafield.id q = Some (Metafield.max q).
Proof. cbn. intros H. repeat destruct H as [<-|H]; try done. Qed.

Lemma refill_refill q : Metaobject.refill (Metaobject.refill q) = Metaobject.refill q.
Proof. done. Qed.

(** The catalog after an authorised reset. *)
Lemma mo_reset_catalog penv adminKey env s :
  JS.strictEq adminKey (JS.ofEnv (ADMIN_RESET_KEY penv)) = true →
  NoDup (map Metaobject.metaobjectId (Metaobject.catalogOf s)) →
  Metaobject.catalogOf (store (Metaobject.resetPrizes penv adminKey env s)) =
    map Metaobject.refill (Metaobject.catalogOf s).
Proof.
  intros Hk Hnd. destruct (mo_reset_run penv adminKey env s Hk) as [_ H].
  destruct (Metaobject.catalogOf s) as [|p0 ps] eqn:Hcat.
  - destruct H as [_ ->]. by rewrite Hcat.
  - destruct H as [_ ->]. by apply (catalog_after_resets env (p0 :: ps) s []).
Qed.

(** C6.  An authorised reset puts the remaining count of every prize back
  to its cap ([null], stored as the sentinel -1 in a metaobject, for a
  prize without a cap) and leaves every totalDistributed as it was.  A
  second reset changes nothing more: in index.js the store after two
  resets is the store after one; in the metaobject-backed server, whose
  reset also stamps the clock reading, the catalog loaded after two resets
  is the catalog loaded after one.  In both the statistics after two
  resets are the statistics after one. *)
Theorem reset_restores_caps_and_is_idempotent :
  (∀ penv adminKey s,
     adminKey = JS.ofEnv (ADMIN_RESET_KEY penv) →
     let r1 := Metafield.resetPrizes penv adminKey s in
     let r2 := Metafield.resetPrizes penv adminKey (store r1) in
     (∀ q, In q Metafield.PRIZES →
           Metafield.remainingOf (store r1) (Metafield.id q) = Some (Metafield.max q)) ∧
     (∀ X, Metafield.totalDistributedOf (store r1) X = Metafield.totalDistributedOf s X) ∧
     metafields (store r1) !! Metafield.PRIZE_DISTRIBUTION_KEY =
       metafields s !! Metafield.PRIZE_DISTRIBUTION_KEY ∧
     store r2 = store r1 ∧
     result (Metafield.stats penv adminKey (store r2)) =
       result (Metafield.stats penv adminKey (store r1))) ∧
  (∀ penv adminKey env env' s,
     adminKey = JS.ofEnv (ADMIN_RESET_KEY penv) →
     NoDup (map Metaobject.metaobjectId (Metaobject.catalogOf s)) →
     let r1 := Metaobject.resetPrizes penv adminKey env s in
     let r2 := Metaobject.resetPrizes penv adminKey env' (store r1) in
     Metaobject.catalogOf (store r1) = map Metaobject.refill (Metaobject.catalogOf s) ∧
     (∀ q, In q (Metaobject.catalogOf (store r1)) →
           Metaobject.remaining q = Metaobject.max q) ∧
     map Metaobject.totalDistributed (Metaobject.catalogOf (store r1)) =
       map Metaobject.totalDistributed (Metaobject.catalogOf s) ∧
     Metaobject.catalogOf (store r2) = Metaobject.catalogOf (store r1) ∧
     result (Metaobject.stats penv adminKey (store r2)) =
       result (Metaobject.stats penv adminKey (store r1))).
Proof.
  split.
  - intros penv adminKey s Hk%strictEq_ofEnv r1 r2. subst r1 r2.
    destruct (mf_reset_run penv adminKey s Hk) as [_ Hs1].
    destruct (mf_reset_run penv adminKey (store (Metafield.resetPrizes penv adminKey s)) Hk)
      as [_ Hs2].
    assert (store (Metafield.resetPrizes penv adminKey
                     (store (Metafield.resetPrizes penv adminKey s))) =
            store (Metafield.resetPrizes penv adminKey s)) as Hidem.
    { rewrite Hs2, Hs1. unfold with_metafields.
      cbn [customers next_customer_id metafields metaobjects]. by rewrite insert_insert_eq. }
    rewrite Hidem. repeat split; try done.
    + intros q Hq. rewrite Hs1. unfold Metafield.remainingOf.
      rewrite countsOf_with, lookup_insert_eq. by apply initialCounts_caps.
    + intros X. rewrite Hs1. unfold Metafield.totalDistributedOf.
      rewrite distributionOf_with, lookup_insert_ne by apply keys_differ. done.
    + rewrite Hs1. cbn [metafields with_metafields].
      by rewrite lookup_insert_ne by apply keys_differ.
  - intros penv adminKey env env' s Hk%strictEq_ofEnv Hnd r1 r2. subst r1 r2.
    pose proof (mo_reset_catalog penv adminKey env s Hk Hnd) as H1.
    assert (NoDup (map Metaobject.metaobjectId
                     (Metaobject.catalogOf (store (Metaobject.resetPrizes penv adminKey env s)))))
      as Hnd1.
    { rewrite H1, map_map. exact Hnd. }
    pose proof (mo_reset_catalog penv adminKey env' _ Hk Hnd1) as H2.
    assert (Metaobject.catalogOf
              (store (Metaobject.resetPrizes penv adminKey env'
                        (store (Metaobject.resetPrizes penv adminKey env s)))) =
            Metaobject.catalogOf (store (Metaobject.resetPrizes penv adminKey env s))) as Hidem.
    { rewrite H2, H1, map_map. apply map_ext. intros q. apply refill_refill. }
    split; [done|]. split; [|split; [|split; [done|]]].
    + rewrite H1. intros q (q0 & <- & _)%in_map_iff. done.
    + rewrite H1, map_map. done.
    + rewrite !(mo_stats_run penv adminKey _ Hk). by rewrite Hidem.
Qed.

Lemma reset_restores_caps_and_is_idempotent_witness :
  Metafield.remainingOf
    (store (Metafield.resetPrizes (mkProcessEnv (Some "s3cret")) (JS.Str "s3cret") Example.exhausted))
    "kivo_easy_lite" = Some (Some 1) ∧
  Metaobject.catalogOf
    (store (Metaobject.resetPrizes (mkProcessEnv (Some "s3cret")) (JS.Str "s3cret") Example.env
              Example.partly)) =
    map Metaobject.refill (Metaobject.catalogOf Example.partly).
Proof.
  split.
  - refine (proj1 (proj1 reset_restores_caps_and_is_idempotent (mkProcessEnv (Some "s3cret"))
                     (JS.Str "s3cret") Example.exhausted _)
              (Metafield.mkPrize "kivo_easy_lite" "Kivo Easy Lite" 0.001 (Some 1)) _);
      [reflexivity|cbn; tauto].
  - refine (proj1 (proj2 reset_restores_caps_and_is_idempotent (mkProcessEnv (Some "s3cret"))
                     (JS.Str "s3cret") Example.env Example.env' Example.partly _ _));
      [reflexivity|apply (bool_decide_unpack _); vm_compute; reflexivity].
Defined.

(** The statistics of the metaobject-backed server on [Example.partly]
  after one award of A and a reset: the remaining counts are the caps
  again, the award is still counted. *)
Example reset_partly :
  result (Metaobject.stats (mkProcessEnv None) JS.Undefined
            (store (Metaobject.resetPrizes (mkProcessEnv None) JS.Undefined Example.env'
                      (store (Metaobject.spin (JS.Str "11") Example.env' Example.partly))))) =
    Metaobject.StatsAre
      [Metaobject.mkStat "C" "Prize C" 10 (Some 2) (Some 2) 2 true;
       Metaobject.mkStat "A" "Prize A" 50 (Some 1) (Some 1) 1 true;
       Metaobject.mkStat "B" "Prize B" 50 None None 0 true].
Proof. vm_compute. reflexivity. Qed.

End Reset.

Section Stamps.
Import Shopify.

Lemma bind_sent_all {A B} (P : Call → Prop) (m : M A) (f : A → M B) s :
  (∀ c, In c (sent (m s)) → P c) →
  (∀ a s1 c, In c (sent (f a s1)) → P c) →
  ∀ c, In c (sent (bind m f s)) → P c.
Proof.
  intros Hm Hf c. rewrite bind_sent. intros [H|H]%in_app_or; [by apply Hm|by eapply Hf].
Qed.

Ltac sent_all :=
  repeat first
    [ apply bind_sent_all; [|intros ? ?]
    | progress cbn [sent snd ret In]
    | match goal with
      | |- ∀ c, In c (sent (match ?x with _ => _ end _)) → _ => destruct x
      | |- ∀ c, In c (sent ((if ?x then _ else _) _)) → _ => destruct x
      end
    | by intros ? [<-|[]]
    | by intros ? [] ].

Lemma mf_allocate_sent customer env s c :
  In c (sent (Metafield.allocate customer env s)) → restCall c = true.
Proof.
  revert c. unfold Metafield.allocate, Metafield.ensureShopPrizeCounts,
    Metafield.ensurePrizeDistribution, Metafield.incrementPrizeDistribution,
    Metafield.addPrizeToCustomer, Metafield.updateCounts, Metafield.setShopPrizeCounts,
    updateCustomerTags.
  sent_all.
Qed.

Lemma mf_spin_sent phone env s c :
  In c (sent (Metafield.spin phone env s)) → restCall c = true.
Proof.
  revert c. unfold Metafield.spin, findCustomerByPhone, createCustomerWithPhone.
  destruct (JS.trimOf _) as [p|]; [|by intros ? []].
  destruct (String.eqb p ""); [by intros ? []|].
  apply bind_sent_all; [by intros ? [<-|[]]|]. intros [customer|] s1.
  - destruct (Metafield.hasPlayedWheel customer); [by intros ? []|].
    intros c. apply mf_allocate_sent.
  - apply bind_sent_all; [by intros ? [<-|[]]|]. intros customer s2 c. apply mf_allocate_sent.
Qed.

Lemma restCall_unstamped c : restCall c = true → stamped c = false.
Proof. by destruct c. Qed.

Lemma restCall_counter_keys c :
  restCall c = true → writesCounters c = true → written_keys c = ["id"; "value"; "type"].
Proof. by destruct c. Qed.

Lemma awardUpdates_stamped handle chosen env :
  stamped (UpdateMetaobject handle (Metaobject.awardUpdates chosen env)) = true ∧
  In (last_updated_is (now env)) (Metaobject.awardUpdates chosen env).
Proof.
  unfold Metaobject.awardUpdates. destruct (Metaobject.remaining chosen); cbn; tauto.
Qed.

Lemma mo_spin_sent phone env s c :
  In c (sent (Metaobject.spin phone env s)) → writesCounters c = true →
  ∃ handle updates, c = UpdateMetaobject handle updates ∧
    In (last_updated_is (now env)) updates ∧ stamped c = true.
Proof.
  intros Hin Hw.
  assert ((∀ p, identityOf phone = Some p → p ≠ "" → Metaobject.mayPlay s p = false) ∨
          ∃ p, identityOf phone = Some p ∧ p ≠ "" ∧ Metaobject.mayPlay s p = true) as [H|H].
  { destruct (identityOf phone) as [p|]; [|by left].
    destruct (decide (p = "")) as [->|Hne]; [left; by intros ? [= <-]|].
    destruct (Metaobject.mayPlay s p) eqn:Hmay; [right; eauto|left; by intros ? [= <-]]. }
  - destruct (mo_spin_refused phone env s H) as (resp & l & Hrun & _ & _ & Hl).
    rewrite Hrun in Hin. apply Hl in Hin. congruence.
  - destruct H as (p & Hid & Hne & Hmay).
    destruct (mo_spin_awards phone env s p Hid Hne Hmay) as [_ H].
    destruct (Metaobject.awardedOn s env) as [chosen|].
    + destruct H as (_ & _ & Hs). rewrite (Hs c Hin Hw).
      destruct (awardUpdates_stamped (Metaobject.metaobjectId chosen) chosen env) as [H1 H2].
      by eexists _, _.
    + destruct H as (_ & _ & Hs). apply Hs in Hin. congruence.
Qed.

(** C9, as the code has it.  In the metaobject-backed server every write of
  inventory counters, the award write of a spin request and the writes of
  a reset, is a metaobject update that carries 'last_updated' with the
  clock reading.  In index.js no request carries a stamp: the counters are
  written as whole metafields, whose record holds 'id', 'value' and 'type'
  only. *)
Theorem counter_writes_stamped_by_metaobject_server_only :
  (∀ phone env s c,
     In c (sent (Metaobject.spin phone env s)) → writesCounters c = true →
     ∃ handle updates, c = UpdateMetaobject handle updates ∧
       In (last_updated_is (now env)) updates ∧ stamped c = true) ∧
  (∀ penv adminKey env s c,
     In c (sent (Metaobject.resetPrizes penv adminKey env s)) → writesCounters c = true →
     stamped c = true) ∧
  (∀ phone env s c,
     In c (sent (Metafield.spin phone env s)) →
     stamped c = false ∧
     (writesCounters c = true → written_keys c = ["id"; "value"; "type"])).
Proof.
  split; [exact mo_spin_sent|]. split.
  - intros penv adminKey env s c Hin Hw.
    destruct (JS.strictEq adminKey (JS.ofEnv (ADMIN_RESET_KEY penv))) eqn:Hk.
    + by apply (proj1 (mo_reset_run penv adminKey env s Hk)).
    + unfold Metaobject.resetPrizes in Hin. by rewrite Hk in Hin.
  - intros phone env s c Hin%mf_spin_sent.
    split; [by apply restCall_unstamped|by apply restCall_counter_keys].
Qed.

Lemma counter_writes_stamped_by_metaobject_server_only_witness :
  ∃ handle updates,
    UpdateMetaobject "gid://shopify/Metaobject/1"
      [remaining_count_is 0; is_available_is false; total_distributed_is 1;
       last_updated_is "2025-01-03T10:00:00.000Z"] = UpdateMetaobject handle updates ∧
    In (last_updated_is (now Example.env')) updates ∧
    stamped (UpdateMetaobject "gid://shopify/Metaobject/1"
               [remaining_count_is 0; is_available_is false; total_distributed_is 1;
                last_updated_is "2025-01-03T10:00:00.000Z"]) = true.
Proof.
  refine (proj1 counter_writes_stamped_by_metaobject_server_only (JS.Str "11") Example.env'
            Example.partly _ _ _); [|reflexivity].
  vm_compute. tauto.
Defined.

(** C9, as stated, fails on index.js: the spin request of a new customer on
  [Example.partly] writes both counter metafields, and neither write
  carries a last-updated stamp. *)
Lemma metafield_counter_writes_unstamped :
  ¬ (∀ c, In c (sent (Metafield.spin (JS.Str "12345") Example.env Example.partly)) →
          writesCounters c = true → stamped c = true).
Proof.
  intros H.
  assert (existsb (λ c, writesCounters c && negb (stamped c))
            (sent (Metafield.spin (JS.Str "12345") Example.env Example.partly)) = true) as Hex
    by (vm_compute; reflexivity).
  apply existsb_exists in Hex as (c & Hin & [Hw Hs]%andb_true_iff).
  rewrite (H c Hin Hw) in Hs. discriminate.
Qed.

End Stamps.


(* ===================================================================== *)
(** * Scenarios *)
(* ===================================================================== *)

Section Scenarios.
Import Shopify.

(** The catalog A (weight 0.5, cap 1, one left), B (weight 0.5, no cap):
    the first award goes to A; after it the available subset is B alone, and
    every later request of a new customer is answered with B, whatever the
    random value. *)
Lemma scenario_only_uncapped_left :
  let r1 := Metaobject.spin (JS.Str "11") Example.env' Example.fresh in
  result r1 = Metaobject.Won "A" "Prize A" 1 ∧
  map Metaobject.id (Metaobject.availableOf (store r1)) = ["B"] ∧
  ∀ env, result (Metaobject.spin (JS.Str "22") env (store r1)) =
         Metaobject.Won "B" "Prize B" 1.
Proof.
  intros r1. split; [by vm_compute|]. split; [by vm_compute|]. intros env.
  destruct (mo_spin_awards (JS.Str "22") env (store r1) "22") as [_ H];
    [reflexivity|discriminate|by vm_compute|].
  unfold Metaobject.awardedOn in H.
  assert (Metaobject.availableOf (store r1) =
          [Metaobject.mkPrize "B" "Prize B" 0.5 None None 0 "gid://shopify/Metaobject/2"])
    as Hav by (by vm_compute).
  rewrite Hav, select_single in H. by destruct H as [-> _].
Qed.

(** A customer who was awarded a prize by index.js is, on the next request,
    told the label, the date and the number of that award. *)
Example replay_after_award :
  let r1 := Metafield.spin (JS.Str "12345") Example.env Example.partly in
  result r1 = Metafield.Won "mobile_holder" "Mobile Holder" 1 ∧
  result (Metafield.spin (JS.Str "12345") Example.env' (store r1)) =
    Metafield.AlreadyPlayed
      (Metafield.Recorded
         (Metafield.PrizeInfo.mk "Mobile Holder" (Some "2025-01-02") (Some "1"))).
Proof. split; vm_compute; reflexivity. Qed.

(** A marker without a recorded prize is answered with the placeholder. *)
Example replay_without_record :
  result (Metafield.spin (JS.Str "5") Example.env
            (mkShop [mkCustomer 1 "5" "vip, wheel_played" ""] 2 ∅ [])) =
    Metafield.AlreadyPlayed (Metafield.LabelOnly "Already Played").
Proof. vm_compute. reflexivity. Qed.

(** With nothing available the metaobject-backed server awards the entry
    whose id is 'better_luck' also when that entry has a cap and is not the
    last one. *)
Example fallback_by_id :
  Metaobject.availableOf Example.luckFirst = [] ∧
  result (Metaobject.spin (JS.Str "5") Example.env Example.luckFirst) =
    Metaobject.Fallback "Better Luck Next Time" 4.
Proof. split; vm_compute; reflexivity. Qed.

(** A body whose phone is a number makes [trim] throw: the answer is 500. *)
Example phone_not_a_string :
  Metafield.spin (JS.Num 98765) Example.env Example.fresh =
    (Metafield.ServerError "server error", Example.fresh, []).
Proof. reflexivity. Qed.

End Scenarios.

(* ===================================================================== *)
(** * Strings *)
(* ===================================================================== *)

Section Text.

Lemma append_cons c (a b : string) : String c a +:+ b = String c (a +:+ b).
Proof. reflexivity. Qed.

Lemma append_nil_l (b : string) : "" +:+ b = b.
Proof. reflexivity. Qed.

Lemma append_nil_r (a : string) : a +:+ "" = a.
Proof. induction a as [|c a IH]; [done|]. by rewrite append_cons, IH. Qed.

Lemma append_assoc (a b c : string) : (a +:+ b) +:+ c = a +:+ b +:+ c.
Proof. induction a as [|x a IH]; [done|]. by rewrite !append_cons, IH. Qed.

(** ** Reversal *)

Lemma rev_app_spec (s acc : string) : String.rev_app s acc = String.rev s +:+ acc.
Proof.
  unfold String.rev. revert acc. induction s as [|c s IH]; intros acc; [done|].
  cbn [String.rev_app]. rewrite (IH (String c acc)), (IH (String c "")).
  by rewrite append_assoc.
Qed.

Lemma string_rev_cons c (s : string) : String.rev (String c s) = String.rev s +:+ String c "".
Proof. unfold String.rev at 1. cbn [String.rev_app]. apply rev_app_spec. Qed.

Lemma string_rev_app (a b : string) : String.rev (a +:+ b) = String.rev b +:+ String.rev a.
Proof.
  induction a as [|c a IH]; [by rewrite append_nil_r|].
  by rewrite append_cons, !string_rev_cons, IH, append_assoc.
Qed.

Lemma string_rev_involutive (s : string) : String.rev (String.rev s) = s.
Proof. induction s as [|c s IH]; [done|]. by rewrite string_rev_cons, string_rev_app, IH. Qed.

(** ** [trim] *)

Lemma trimStart_app (a b : string) :
  JS.trimStart (a +:+ b) =
    if String.eqb (JS.trimStart a) "" then JS.trimStart b else JS.trimStart a +:+ b.
Proof.
  induction a as [|c a IH]; [done|]. rewrite append_cons. cbn [JS.trimStart].
  destruct (JS.is_space c); [done|]. done.
Qed.

(** [trimEnd], read from the front of the string. *)
Lemma trimEnd_cons c (s : string) :
  JS.trimEnd (String c s) =
    if JS.is_space c && String.eqb (JS.trimEnd s) "" then ""
    else String c (JS.trimEnd s).
Proof.
  unfold JS.trimEnd. rewrite string_rev_cons, trimStart_app.
  destruct (String.eqb_spec (JS.trimStart (String.rev s)) "") as [E|E].
  - rewrite E. cbn [JS.trimStart]. by destruct (JS.is_space c).
  - rewrite string_rev_app. cbn.
    destruct (String.eqb_spec (String.rev (JS.trimStart (String.rev s))) "") as [E'|_].
    + destruct E. by rewrite <- (string_rev_involutive (JS.trimStart _)), E'.
    + by rewrite andb_false_r.
Qed.

Lemma trimEnd_nil : JS.trimEnd "" = "".
Proof. done. Qed.

Lemma trimStart_idem (s : string) : JS.trimStart (JS.trimStart s) = JS.trimStart s.
Proof.
  induction s as [|c s IH]; [done|]. cbn [JS.trimStart].
  destruct (JS.is_space c) eqn:E; [done|]. cbn [JS.trimStart]. by rewrite E.
Qed.

Lemma trimEnd_idem (s : string) : JS.trimEnd (JS.trimEnd s) = JS.trimEnd s.
Proof.
  induction s as [|c s IH]; [done|]. rewrite trimEnd_cons.
  destruct (JS.is_space c && String.eqb (JS.trimEnd s) "") eqn:E; [done|].
  by rewrite trimEnd_cons, IH, E.
Qed.

Lemma trim_commute (s : string) :
  JS.trimStart (JS.trimEnd s) = JS.trimEnd (JS.trimStart s).
Proof.
  induction s as [|c s IH]; [done|]. rewrite trimEnd_cons. cbn [JS.trimStart].
  destruct (JS.is_space c) eqn:Hc; cbn [andb].
  - destruct (String.eqb_spec (JS.trimEnd s) "") as [E|_].
    + by rewrite <- IH, E.
    + cbn [JS.trimStart]. by rewrite Hc.
  - cbn [JS.trimStart]. rewrite Hc, trimEnd_cons, Hc. done.
Qed.

Lemma trim_idem (s : string) : JS.trim (JS.trim s) = JS.trim s.
Proof.
  unfold JS.trim. by rewrite (trim_commute (JS.trimStart s)), trimStart_idem, trimEnd_idem.
Qed.

(** Trailing white space of the text does not show after [trim]. *)
Lemma trim_trimEnd (s : string) : JS.trim (JS.trimEnd s) = JS.trim s.
Proof. unfold JS.trim. by rewrite trim_commute, trimEnd_idem. Qed.

Lemma trim_space (s : string) : JS.trim (String " " s) = JS.trim s.
Proof. reflexivity. Qed.

(** ** Characters *)

Lemma all_app f (a b : string) : Tags.all f (a +:+ b) = Tags.all f a && Tags.all f b.
Proof.
  induction a as [|c a IH]; [done|]. rewrite append_cons. cbn [Tags.all].
  by rewrite IH, andb_assoc.
Qed.

Lemma all_trimStart f (s : string) : Tags.all f s = true → Tags.all f (JS.trimStart s) = true.
Proof.
  induction s as [|c s IH]; [done|]. cbn [JS.trimStart Tags.all].
  intros [Hc Hs]%andb_true_iff. destruct (JS.is_space c); [by apply IH|].
  cbn [Tags.all]. by rewrite Hc, Hs.
Qed.

Lemma all_trimEnd f (s : string) : Tags.all f s = true → Tags.all f (JS.trimEnd s) = true.
Proof.
  induction s as [|c s IH]; [done|]. rewrite trimEnd_cons. cbn [Tags.all].
  intros [Hc Hs]%andb_true_iff. destruct (_ && _); [done|].
  cbn [Tags.all]. by rewrite Hc, IH.
Qed.

Lemma all_trim f (s : string) : Tags.all f s = true → Tags.all f (JS.trim s) = true.
Proof. intros H. by apply all_trimEnd, all_trimStart. Qed.

Lemma all_impl (f g : ascii → bool) (s : string) :
  (∀ c, f c = true → g c = true) → Tags.all f s = true → Tags.all g s = true.
Proof.
  intros Hfg. induction s as [|c s IH]; [done|]. cbn [Tags.all].
  intros [Hc Hs]%andb_true_iff. by rewrite (Hfg c Hc), IH.
Qed.

(** A text without white space is its own [trim]. *)
Lemma trim_no_space (s : string) :
  Tags.all (λ c, negb (JS.is_space c)) s = true → JS.trim s = s.
Proof.
  intros H. unfold JS.trim.
  assert (JS.trimStart s = s) as ->.
  { destruct s as [|c s]; [done|]. cbn [Tags.all] in H. cbn [JS.trimStart].
    apply andb_true_iff in H as [Hc _]. by destruct (JS.is_space c). }
  induction s as [|c s IH]; [done|]. cbn [Tags.all] in H.
  apply andb_true_iff in H as [Hc Hs]. rewrite trimEnd_cons, IH by done.
  by destruct (JS.is_space c).
Qed.

(** ** Prefixes and occurrences *)

Lemma string_prefix_app (p b : string) : String.prefix p (p +:+ b) = true.
Proof.
  induction p as [|c p IH]; [by destruct b|]. rewrite append_cons. cbn.
  by destruct (ascii_dec c c).
Qed.

Lemma prefix_split (p s : string) : String.prefix p s = true → ∃ b, s = p +:+ b.
Proof.
  revert p. induction s as [|c s IH]; intros [|d p]; cbn; try done; eauto.
  destruct (ascii_dec d c) as [->|]; [|done]. intros (b & ->)%IH. by exists b.
Qed.

Lemma includes_unfold (s p : string) :
  JS.includes s p =
    JS.startsWith s p || match s with String _ s' => JS.includes s' p | "" => false end.
Proof. by destruct s. Qed.

Lemma includes_app (a p b : string) : JS.includes (a +:+ p +:+ b) p = true.
Proof.
  induction a as [|c a IH].
  - rewrite append_nil_l, includes_unfold. unfold JS.startsWith. by rewrite string_prefix_app.
  - rewrite append_cons, includes_unfold, IH. apply orb_true_r.
Qed.

Lemma toLowerCase_app (a b : string) :
  JS.toLowerCase (a +:+ b) = JS.toLowerCase a +:+ JS.toLowerCase b.
Proof.
  induction a as [|c a IH]; [done|]. rewrite append_cons. cbn [JS.toLowerCase].
  by rewrite IH.
Qed.

Lemma occurs_refl (s : string) : Tags.occurs s s.
Proof. exists "", "". by rewrite append_nil_r. Qed.

Lemma occurs_trans (x y z : string) : Tags.occurs x y → Tags.occurs y z → Tags.occurs x z.
Proof.
  intros (a & b & ->) (a' & b' & ->). exists (a' +:+ a), (b +:+ b').
  by rewrite !append_assoc.
Qed.

Lemma occurs_cons c (x s : string) : Tags.occurs x s → Tags.occurs x (String c s).
Proof. intros (a & b & ->). by exists (String c a), b. Qed.

Lemma occurs_includes (x s : string) : Tags.occurs x s → JS.includes s x = true.
Proof. intros (a & b & ->). apply includes_app. Qed.

Lemma occurs_lower (x s : string) :
  Tags.occurs x s → Tags.occurs (JS.toLowerCase x) (JS.toLowerCase s).
Proof. intros (a & b & ->). rewrite !toLowerCase_app. by eexists _, _. Qed.

Lemma occurs_trimStart (s : string) : Tags.occurs (JS.trimStart s) s.
Proof.
  induction s as [|c s IH]; [apply occurs_refl|]. cbn [JS.trimStart].
  destruct (JS.is_space c); [by apply occurs_cons|apply occurs_refl].
Qed.

Lemma occurs_trimEnd (s : string) : Tags.occurs (JS.trimEnd s) s.
Proof.
  induction s as [|c s IH]; [apply occurs_refl|]. rewrite trimEnd_cons.
  destruct (_ && _).
  - by exists "", (String c s).
  - destruct IH as (a & b & Hs).
    assert (∃ b', s = JS.trimEnd s +:+ b') as [b' Hb'].
    { clear a b Hs. induction s as [|d s IH]; [by exists ""|]. rewrite trimEnd_cons.
      destruct (_ && _); [by eexists|]. destruct IH as [b' Hb'].
      exists b'. by rewrite append_cons, <- Hb'. }
    exists "", b'. by rewrite append_nil_l, append_cons, <- Hb'.
Qed.

Lemma occurs_trim (s : string) : Tags.occurs (JS.trim s) s.
Proof.
  unfold JS.trim. eapply occurs_trans; [apply occurs_trimEnd|apply occurs_trimStart].
Qed.

Lemma occurs_split sep (s x : string) : In x (JS.split sep s) → Tags.occurs x s.
Proof.
  revert x. induction s as [|c s IH]; intros x.
  - intros [<-|[]]. apply occurs_refl.
  - cbn [JS.split]. destruct (Ascii.eqb c sep).
    + intros [<-|Hin]; [by exists "", (String c s)|]. by apply occurs_cons, IH.
    + destruct (JS.split sep s) as [|piece rest] eqn:E.
      * intros [<-|[]]. exists "", s. by rewrite append_nil_l.
      * intros [<-|Hin].
        -- destruct (IH piece (or_introl eq_refl)) as (a & b & Hs).
           (* the first piece is a prefix *)
           assert (∃ b', s = piece +:+ b') as [b' ->].
           { clear -E. revert piece rest E. induction s as [|d s IH]; intros piece rest.
             - intros [= <- <-]. by exists "".
             - cbn [JS.split]. destruct (Ascii.eqb d sep).
               + intros [= <- <-]. by eexists.
               + destruct (JS.split sep s) as [|piece' rest'] eqn:E'.
                 * intros [= <- <-]. exists s. by rewrite append_cons.
                 * intros [= <- <-]. destruct (IH _ _ eq_refl) as [b' ->].
                   by exists b'. }
           exists "", b'. by rewrite append_nil_l.
        -- apply occurs_cons, IH. by right.
Qed.

(** ** [split] and [join] *)

Lemma split_cons_sep sep (s : string) :
  JS.split sep (String sep s) = "" :: JS.split sep s.
Proof. cbn [JS.split]. by rewrite Ascii.eqb_refl. Qed.

Lemma split_nonempty sep (s : string) : JS.split sep s ≠ [].
Proof.
  destruct s as [|c s]; [done|]. cbn [JS.split].
  destruct (Ascii.eqb c sep); [done|]. by destruct (JS.split sep s).
Qed.

(** A piece without the separator, followed by the separator. *)
Lemma split_app sep (x rest : string) :
  Tags.all (λ c, negb (Ascii.eqb c sep)) x = true →
  JS.split sep (x +:+ String sep rest) = x :: JS.split sep rest.
Proof.
  induction x as [|c x IH]; [intros _; apply split_cons_sep|]. cbn [Tags.all].
  intros [Hc Hx]%andb_true_iff. rewrite append_cons. cbn [JS.split].
  apply negb_true_iff in Hc. by rewrite Hc, IH.
Qed.

Lemma split_last sep (x : string) :
  Tags.all (λ c, negb (Ascii.eqb c sep)) x = true → JS.split sep x = [x].
Proof.
  induction x as [|c x IH]; [done|]. cbn [Tags.all].
  intros [Hc Hx]%andb_true_iff. cbn [JS.split].
  apply negb_true_iff in Hc. by rewrite Hc, IH.
Qed.

Lemma pieces_noSep sep (s x : string) :
  In x (JS.split sep s) → Tags.all (λ c, negb (Ascii.eqb c sep)) x = true.
Proof.
  revert x. induction s as [|c s IH]; intros x.
  - by intros [<-|[]].
  - cbn [JS.split]. destruct (Ascii.eqb c sep) eqn:Hc.
    + intros [<-|Hin]; [done|by apply IH].
    + destruct (JS.split sep s) as [|piece rest] eqn:E.
      * intros [<-|[]]. cbn. by rewrite Hc.
      * intros [<-|Hin].
        -- cbn [Tags.all]. rewrite Hc. cbn. apply IH. by left.
        -- apply IH. by right.
Qed.

Lemma split_join_from (l : list string) : ∀ x pre,
  Tags.noComma pre = true → (∀ z, In z (x :: l) → Tags.noComma z = true) →
  JS.split "," (pre +:+ JS.join ", " (x :: l)) = (pre +:+ x) :: map (String " ") l.
Proof.
  induction l as [|y l IH]; intros x pre Hpre Hl.
  - cbn [JS.join String.concat map]. apply split_last. unfold Tags.noComma in *.
    by rewrite all_app, Hpre, (Hl x (or_introl eq_refl)).
  - change (JS.join ", " (x :: y :: l))
      with (x +:+ String "," (" " +:+ JS.join ", " (y :: l))).
    rewrite <- append_assoc, split_app.
    + rewrite (IH y " " eq_refl) by (intros z Hz; apply Hl; by right). done.
    + unfold Tags.noComma in *. by rewrite all_app, Hpre, (Hl x (or_introl eq_refl)).
Qed.

(** The stored text of a list of tags, read back: the tags, each of them
  trimmed. *)
Lemma split_join (l : list string) :
  l ≠ [] → (∀ x, In x l → Tags.noComma x = true) →
  map JS.trim (JS.split "," (JS.join ", " l)) = map JS.trim l.
Proof.
  intros Hne Hl. destruct l as [|x l]; [done|].
  rewrite <- (append_nil_l (JS.join ", " (x :: l))), split_join_from by done.
  rewrite append_nil_l. cbn [map]. f_equal. rewrite map_map. done.
Qed.

Lemma join_In sep (l : list string) x : In x l → Tags.occurs x (JS.join sep l).
Proof.
  induction l as [|y l IH]; [done|]. intros [->|Hin].
  - destruct l as [|z l]; [apply occurs_refl|]. by exists "", (sep +:+ JS.join sep (z :: l)).
  - destruct l as [|z l]; [done|]. destruct (IH Hin) as (a & b & Hj).
    exists (y +:+ sep +:+ a), b. change (JS.join sep (y :: z :: l))
      with (y +:+ sep +:+ JS.join sep (z :: l)).
    by rewrite Hj, !append_assoc.
Qed.

(** ** [unique] *)

Lemma existsb_eqb_In x (seen : list string) :
  existsb (String.eqb x) seen = true ↔ In x seen.
Proof.
  rewrite existsb_exists. split.
  - intros (y & Hin & ->%String.eqb_eq). done.
  - intros Hin. exists x. by rewrite String.eqb_refl.
Qed.

Lemma unique_from_In seen (l : list string) x :
  In x (JS.unique_from seen l) ↔ In x l ∧ ¬ In x seen.
Proof.
  revert seen. induction l as [|y l IH]; intros seen; [cbn; tauto|].
  cbn [JS.unique_from]. destruct (existsb (String.eqb y) seen) eqn:E.
  - apply existsb_eqb_In in E. rewrite IH. cbn [In]. split; [tauto|].
    intros [[->|H] Hn]; [done|tauto].
  - assert (¬ In y seen) as Hy by (rewrite <- existsb_eqb_In; congruence).
    cbn [In]. rewrite IH. cbn [In]. split.
    + intros [->|[H Hn]]; [tauto|]. split; [tauto|]. tauto.
    + intros [[->|H] Hn]; [tauto|]. destruct (decide (y = x)) as [->|Hne]; [tauto|].
      right. split; [done|]. intros [?|?]; tauto.
Qed.

Lemma unique_In (l : list string) x : In x (JS.unique l) ↔ In x l.
Proof. unfold JS.unique. rewrite unique_from_In. cbn. tauto. Qed.

(** The first element that passes a test is not affected by [unique]. *)
Lemma find_unique_from (Q : string → bool) seen (l : list string) :
  (∀ y, In y seen → Q y = false) →
  List.find Q (JS.unique_from seen l) = List.find Q l.
Proof.
  revert seen. induction l as [|x l IH]; intros seen Hseen; [done|].
  cbn [JS.unique_from]. destruct (existsb (String.eqb x) seen) eqn:E.
  - apply existsb_eqb_In in E. cbn [List.find]. rewrite (Hseen x E). by apply IH.
  - cbn [List.find]. destruct (Q x) eqn:Hx; [done|]. apply IH.
    intros y [<-|Hy]; [done|by apply Hseen].
Qed.

Lemma find_unique (Q : string → bool) (l : list string) :
  List.find Q (JS.unique l) = List.find Q l.
Proof. by apply find_unique_from. Qed.

Lemma find_map {A B} (Q : B → bool) (f : A → B) (l : list A) :
  List.find Q (map f l) = f <$> List.find (λ x, Q (f x)) l.
Proof.
  induction l as [|x l IH]; [done|]. cbn [map List.find]. by destruct (Q (f x)).
Qed.

Lemma find_app_none {A} (Q : A → bool) (l l' : list A) :
  List.find Q l = None → List.find Q (l ++ l') = List.find Q l'.
Proof.
  induction l as [|x l IH]; [done|]. cbn [List.find app].
  destruct (Q x); [done|]. exact IH.
Qed.

Lemma find_app_some {A} (Q : A → bool) (l l' : list A) x :
  List.find Q l = Some x → List.find Q (l ++ l') = Some x.
Proof.
  induction l as [|y l IH]; [done|]. cbn [List.find app].
  destruct (Q y); [done|]. exact IH.
Qed.

Lemma find_ext_in {A} (Q Q' : A → bool) (l : list A) :
  (∀ x, In x l → Q x = Q' x) → List.find Q l = List.find Q' l.
Proof.
  induction l as [|x l IH]; [done|]. intros H. cbn [List.find].
  rewrite (H x (or_introl eq_refl)), IH; [done|]. intros y Hy. apply H. by right.
Qed.

(** ** The tags of a customer *)

(** A tag read from the stored text has no comma and is trimmed. *)
Lemma tagList_tag customer t :
  In t (tagList customer) → Tags.noComma t = true ∧ JS.trim t = t.
Proof.
  unfold tagList. destruct (String.eqb _ _); [done|].
  intros (x & <- & Hx)%in_map_iff. split; [|apply trim_idem].
  apply all_trim. by apply (pieces_noSep _ _ _ Hx).
Qed.

Lemma tagList_occurs customer t :
  In t (tagList customer) → Tags.occurs t (Shopify.tags customer).
Proof.
  unfold tagList. destruct (String.eqb _ _); [done|].
  intros (x & <- & Hx)%in_map_iff.
  eapply occurs_trans; [apply occurs_trim|by apply (occurs_split _ _ _ Hx)].
Qed.

(** ** Numbers *)

Lemma pretty_N_go_chars (f : ascii → bool) x s :
  (∀ d, (d < 10)%N → f (pretty_N_char d) = true) →
  Tags.all f s = true → Tags.all f (pretty_N_go x s) = true.
Proof.
  intros Hf. revert s. induction (N.lt_wf_0 x) as [x _ IH]; intros s Hs.
  assert (x = 0 ∨ 0 < x)%N as [->|Hx] by lia; [by rewrite pretty_N_go_0|].
  rewrite pretty_N_go_step by done. apply IH; [by apply N.div_lt|].
  cbn [Tags.all]. rewrite Hs, Hf; [done|]. by apply N.mod_lt.
Qed.

Lemma ofNumber_chars (f : ascii → bool) (n : Z) :
  (∀ d, (d < 10)%N → f (pretty_N_char d) = true) → f "-"%char = true →
  Tags.all f (JS.ofNumber n) = true.
Proof.
  intros Hf Hdash.
  assert (∀ x : N, Tags.all f (pretty x) = true) as HN.
  { intros x. unfold pretty, pretty_N. destruct (decide (x = 0%N)).
    - pose proof (Hf 0%N eq_refl) as H0. cbn in H0 |- *. by rewrite H0.
    - by apply pretty_N_go_chars. }
  unfold JS.ofNumber, pretty, pretty_Z. destruct n as [|x|x].
  - pose proof (Hf 0%N eq_refl) as H0. cbn in H0 |- *. by rewrite H0.
  - apply HN.
  - rewrite append_cons, append_nil_l. cbn [Tags.all]. rewrite Hdash. apply HN.
Qed.

Lemma digit_cases (f : ascii → bool) :
  (f "0" && f "1" && f "2" && f "3" && f "4" && f "5" && f "6" && f "7" && f "8"
   && f "9")%char = true →
  ∀ d, (d < 10)%N → f (pretty_N_char d) = true.
Proof.
  intros H d Hd. repeat (apply andb_true_iff in H as [H ?]).
  assert (d = 0 ∨ d = 1 ∨ d = 2 ∨ d = 3 ∨ d = 4 ∨ d = 5 ∨ d = 6 ∨ d = 7 ∨ d = 8 ∨ d = 9)%N
    as Hc by lia.
  repeat (destruct Hc as [->|Hc]; [done|]). by subst d.
Qed.

Lemma ofNumber_noComma (n : Z) : Tags.noComma (JS.ofNumber n) = true.
Proof.
  apply (ofNumber_chars (λ c, negb (Ascii.eqb c ","%char)));
    [by apply (digit_cases (λ c, negb (Ascii.eqb c ","%char)))|done].
Qed.

Lemma ofNumber_trim (n : Z) : JS.trim (JS.ofNumber n) = JS.ofNumber n.
Proof.
  apply trim_no_space, (ofNumber_chars (λ c, negb (JS.is_space c)));
    [by apply (digit_cases (λ c, negb (JS.is_space c)))|done].
Qed.

End Text.

(* ===================================================================== *)
(** * The customer record after a request *)
(* ===================================================================== *)

Section CustomerRecord.
Import Shopify.

Lemma occurs_nonempty (x s : string) : Tags.occurs x s → x ≠ "" → s ≠ "".
Proof.
  intros (a & b & ->) Hx E. destruct a as [|c a]; [|done].
  rewrite append_nil_l in E. by destruct x.
Qed.

(** The tags stored by an award hold each of the award's tags. *)
Lemma merged_occurs customer new t :
  In t new → Tags.occurs t (Tags.merged customer new).
Proof.
  intros Hin. apply join_In, unique_In, in_or_app. by right.
Qed.

Lemma mf_marked customer new :
  In "wheel_played" new →
  ∀ i p n, Metafield.hasPlayedWheel (mkCustomer i p (Tags.merged customer new) n) = true.
Proof.
  intros Hin i p n. pose proof (merged_occurs customer new _ Hin) as Hocc.
  unfold Metafield.hasPlayedWheel. cbn [tags].
  destruct (String.eqb_spec (Tags.merged customer new) "") as [E|_].
  { by destruct (occurs_nonempty _ _ Hocc). }
  apply occurs_lower, occurs_includes in Hocc. change (JS.toLowerCase "wheel_played")
    with "wheel_played" in Hocc. by rewrite Hocc.
Qed.

Lemma mo_marked customer new label :
  In ("Spin Prize: " +:+ label) new →
  ∀ i p n, Metaobject.hasPlayedWheel (mkCustomer i p (Tags.merged customer new) n) = true.
Proof.
  intros Hin i p n. pose proof (merged_occurs customer new _ Hin) as Hocc.
  unfold Metaobject.hasPlayedWheel. cbn [tags].
  destruct (String.eqb_spec (Tags.merged customer new) "") as [E|_].
  { by destruct (occurs_nonempty _ _ Hocc). }
  assert (Tags.occurs "Spin Prize:" (Tags.merged customer new)) as Hocc'.
  { eapply occurs_trans; [|exact Hocc]. by exists "", (" " +:+ label). }
  apply occurs_lower, occurs_includes in Hocc'. exact Hocc'.
Qed.

(** The customer a request works for is the one the next search finds. *)
Lemma enter_customer s p :
  customerOf (store (enter s p)) p = Some (result (enter s p)) ∧
  match customerOf s p with
  | Some c => result (enter s p) = c
  | None => tags (result (enter s p)) = ""
  end.
Proof.
  unfold enter, customerOf. destruct (List.find _ (customers s)) as [c|] eqn:Hc.
  - done.
  - cbn [result store fst snd postCustomer with_customers customers tags].
    split; [|done]. rewrite find_app_none by done. cbn. by rewrite String.eqb_refl.
Qed.

(** The record the search finds after its tags and its note were written. *)
Lemma customerOf_written s s' p c t n :
  customerOf s p = Some c →
  customers s' = map (set_note (cid c) n) (map (set_tags (cid c) t) (customers s)) →
  customerOf s' p = Some (mkCustomer (cid c) (phone c) t n).
Proof.
  unfold customerOf. intros Hc ->.
  rewrite map_map, find_map.
  erewrite find_ext_in.
  - rewrite Hc. cbn. unfold set_tags, set_note. rewrite Z.eqb_refl. cbn. by rewrite Z.eqb_refl.
  - intros x _. cbn beta. unfold set_tags, set_note.
    destruct (Z.eqb (cid x) (cid c)) eqn:E; cbn; rewrite ?E; done.
Qed.

(** A customer who has played stays so when any record is rewritten with
  tags that carry a marker. *)
Lemma customerOf_kept (played : Customer → bool) s s' p id t n :
  (∀ i ph nt, played (mkCustomer i ph t nt) = true) →
  (∀ c nt, played (mkCustomer (cid c) (phone c) (tags c) nt) = played c) →
  customers s' = map (set_note id n) (map (set_tags id t) (customers s)) →
  (∃ c, customerOf s p = Some c ∧ played c = true) →
  ∃ c, customerOf s' p = Some c ∧ played c = true.
Proof.
  unfold customerOf. intros Ht Hn -> (c & Hc & Hpl).
  rewrite map_map, find_map. erewrite find_ext_in.
  - rewrite Hc. cbn. eexists. split; [done|]. unfold set_tags, set_note.
    destruct (Z.eqb (cid c) id) eqn:E; cbn; rewrite ?E; [apply Ht|done].
  - intros x _. cbn beta. unfold set_tags, set_note.
    destruct (Z.eqb (cid x) id) eqn:E; cbn; rewrite ?E; done.
Qed.

(** ** index.js *)

(** The customer record after the catalog read and the award. *)
Lemma mf_allocate_customers customer env s :
  let r := Metafield.allocate customer env s in
  ∃ X note, Metafield.awardedOn s env = Some X ∧
    (result r = Metafield.Won (Metafield.id X) (Metafield.label X)
                  (Metafield.totalDistributedOf s (Metafield.id X) + 1) ∨
     result r = Metafield.Fallback (Metafield.label X)
                  (Metafield.totalDistributedOf s (Metafield.id X) + 1)) ∧
    customers (store r) =
      map (set_note (cid customer) note)
        (map (set_tags (cid customer)
                (Tags.merged customer
                   (Tags.ofMetafieldAward (Metafield.id X) (Metafield.label X)
                      (Metafield.totalDistributedOf s (Metafield.id X) + 1) env)))
           (customers s)).
Proof.
  intros r. subst r.
  unfold Metafield.allocate, Metafield.awardedOn, Metafield.availableOf,
    Metafield.totalDistributedOf.
  erewrite bind_step by apply ensureShopPrizeCounts_run.
  erewrite bind_step by apply ensurePrizeDistribution_run.
  cbn [Metafield.value]. rewrite distributionOf_with, lookup_insert_ne by apply keys_differ.
  fold (Metafield.distributionOf s).
  destruct (List.filter (Metafield.isAvailable (Metafield.countsOf s)) Metafield.PRIZES)
    as [|first others].
  - rewrite better_luck_entry. cbn [Metafield.id Metafield.label].
    erewrite bind_step by apply incrementPrizeDistribution_run.
    unfold Metafield.addPrizeToCustomer, updateCustomerTags, putCustomerTags,
      putCustomerNote, bind, ret.
    cbn [result store fst snd metafields metaobjects with_metafields with_customers
           customers next_customer_id Metafield.metafield Metafield.value].
    eexists _, _. split; [done|]. split; [by right|]. reflexivity.
  - set (chosen := select Metafield.prob (random env) first others).
    erewrite bind_step.
    2:{ apply updateCounts_run. cbn. by simplify_map_eq. }
    erewrite bind_step by apply incrementPrizeDistribution_run.
    unfold Metafield.addPrizeToCustomer, updateCustomerTags, putCustomerTags,
      putCustomerNote, bind, ret.
    cbn [result store fst snd metafields metaobjects with_metafields with_customers
           customers next_customer_id Metafield.metafield Metafield.value].
    eexists _, _. split; [done|]. split; [by left|]. reflexivity.
Qed.

(** The customer record after the request of a customer who may play. *)
Lemma mf_spin_customer phone env s p :
  identityOf phone = Some p → p ≠ "" → Metafield.mayPlay s p = true →
  let r := Metafield.spin phone env s in
  let customer := result (enter s p) in
  ∃ X note, Metafield.awardedOn s env = Some X ∧
    (result r = Metafield.Won (Metafield.id X) (Metafield.label X)
                  (Metafield.totalDistributedOf s (Metafield.id X) + 1) ∨
     result r = Metafield.Fallback (Metafield.label X)
                  (Metafield.totalDistributedOf s (Metafield.id X) + 1)) ∧
    customerOf (store r) p =
      Some (mkCustomer (cid customer) (Shopify.phone customer)
              (Tags.merged customer
                 (Tags.ofMetafieldAward (Metafield.id X) (Metafield.label X)
                    (Metafield.totalDistributedOf s (Metafield.id X) + 1) env))
              note).
Proof.
  intros Hid Hne Hmay r customer. subst r customer.
  rewrite (mf_spin_allocates _ _ _ _ Hid Hne Hmay).
  destruct (mf_allocate_customers (result (enter s p)) env (store (enter s p)))
    as (X & note & HX & Hr & Hc).
  destruct (Metafield.allocate _ _ _) as [[b s2] l2]. cbn [result store fst snd] in *.
  unfold Metafield.awardedOn, Metafield.availableOf, Metafield.totalDistributedOf,
    Metafield.countsOf, Metafield.distributionOf in *.
  rewrite enter_metafields in HX, Hr, Hc.
  exists X, note. split; [done|]. split; [done|].
  eapply customerOf_written; [apply enter_customer|exact Hc].
Qed.

(** A request leaves a customer who has played as one who has played. *)
Lemma mf_spin_keeps_played phone env s q :
  Metafield.mayPlay s q = false →
  Metafield.mayPlay (store (Metafield.spin phone env s)) q = false.
Proof.
  intros Hq.
  assert ((∀ p, identityOf phone = Some p → p ≠ "" → Metafield.mayPlay s p = false) ∨
          ∃ p, identityOf phone = Some p ∧ p ≠ "" ∧ Metafield.mayPlay s p = true) as [H|H].
  { destruct (identityOf phone) as [p|]; [|by left].
    destruct (decide (p = "")) as [->|Hne]; [left; by intros ? [= <-]|].
    destruct (Metafield.mayPlay s p) eqn:Hmay; [right; eauto|left; by intros ? [= <-]]. }
  { by destruct (mf_spin_refused phone env s H) as (-> & _). }
  destruct H as (p & Hid & Hne & Hmay).
  rewrite (mf_spin_allocates _ _ _ _ Hid Hne Hmay).
  destruct (mf_allocate_customers (result (enter s p)) env (store (enter s p)))
    as (X & note & HX & Hr & Hc).
  destruct (Metafield.allocate _ _ _) as [[b s2] l2]. cbn [result store fst snd] in *.
  assert (∃ c, customerOf (store (enter s p)) q = Some c ∧ Metafield.hasPlayedWheel c = true)
    as Hbefore.
  { unfold Metafield.mayPlay in Hq. unfold enter, customerOf.
    destruct (List.find _ (customers s)) as [c|] eqn:Hc'; [|done].
    apply negb_false_iff in Hq. exists c.
    destruct (List.find (λ c0, String.eqb (Shopify.phone c0) p) (customers s)); cbn.
    - done.
    - split; [by apply find_app_some|done]. }
  edestruct (customerOf_kept Metafield.hasPlayedWheel) as (c & Hc2 & Hpl);
    [| |exact Hc|exact Hbefore|].
  - intros. apply mf_marked. cbn. tauto.
  - done.
  - unfold Metafield.mayPlay. unfold customerOf in Hc2. by rewrite Hc2, Hpl.
Qed.

Lemma mf_spins_keep_played reqs : ∀ s q,
  Metafield.mayPlay s q = false → Metafield.mayPlay (Metafield.spins reqs s).2 q = false.
Proof.
  induction reqs as [|[phone env] reqs IH]; intros s q Hq; [done|].
  cbn [Metafield.spins snd]. by apply IH, mf_spin_keeps_played.
Qed.

(** ** The metaobject-backed server *)

Lemma mo_allocate_customers customer env s :
  let r := Metaobject.allocate customer env s in
  match Metaobject.awardedOn s env with
  | Some X =>
      ∃ note,
        customers (store r) =
          map (set_note (cid customer) note)
            (map (set_tags (cid customer)
                    (Tags.merged customer (Tags.ofMetaobjectAward (Metaobject.label X) env)))
               (customers s))
  | None => store r = s
  end.
Proof.
  intros r. subst r. unfold Metaobject.allocate, Metaobject.awardedOn, Metaobject.availableOf.
  destruct (getCurrentPrizes_run s) as (loaded & Hrun & Hloaded).
  erewrite bind_step by apply Hrun.
  destruct (Metaobject.catalogOf s) as [|p0 ps] eqn:Hcat.
  { by destruct Hloaded as [message ->]. }
  rewrite Hloaded.
  destruct (List.filter Metaobject.available (p0 :: ps)) as [|first others] eqn:Hav.
  - destruct (Metaobject.fallbackOf (p0 :: ps)) as [fallback|] eqn:Hfb; [|done].
    erewrite bind_step by apply updatePrizeAfterSpin_run.
    unfold Metaobject.addPrizeToCustomer, updateCustomerTags, putCustomerTags,
      putCustomerNote, bind, ret.
    cbn [result store fst snd with_metaobjects with_customers customers]. by eexists.
  - erewrite bind_step by apply updatePrizeAfterSpin_run.
    unfold Metaobject.addPrizeToCustomer, updateCustomerTags, putCustomerTags,
      putCustomerNote, bind, ret.
    cbn [result store fst snd with_metaobjects with_customers customers]. by eexists.
Qed.

Lemma mo_spin_customer phone env s p :
  identityOf phone = Some p → p ≠ "" → Metaobject.mayPlay s p = true →
  let r := Metaobject.spin phone env s in
  let customer := result (enter s p) in
  match Metaobject.awardedOn s env with
  | Some X =>
      ∃ note,
        customerOf (store r) p =
          Some (mkCustomer (cid customer) (Shopify.phone customer)
                  (Tags.merged customer (Tags.ofMetaobjectAward (Metaobject.label X) env))
                  note)
  | None => store r = store (enter s p)
  end.
Proof.
  intros Hid Hne Hmay r customer. subst r customer.
  rewrite (mo_spin_allocates _ _ _ _ Hid Hne Hmay).
  pose proof (mo_allocate_customers (result (enter s p)) env (store (enter s p))) as H.
  destruct (Metaobject.allocate _ _ _) as [[b s2] l2]. cbn [result store fst snd] in *.
  destruct (mo_views_same (store (enter s p)) s (enter_metaobjects s p)) as (_ & _ & Hw).
  rewrite Hw in H. destruct (Metaobject.awardedOn s env) as [X|]; [|done].
  destruct H as [note Hc]. exists note.
  eapply customerOf_written; [apply enter_customer|exact Hc].
Qed.

Lemma mo_spin_keeps_played phone env s q :
  Metaobject.mayPlay s q = false →
  Metaobject.mayPlay (store (Metaobject.spin phone env s)) q = false.
Proof.
  intros Hq.
  assert ((∀ p, identityOf phone = Some p → p ≠ "" → Metaobject.mayPlay s p = false) ∨
          ∃ p, identityOf phone = Some p ∧ p ≠ "" ∧ Metaobject.mayPlay s p = true) as [H|H].
  { destruct (identityOf phone) as [p|]; [|by left].
    destruct (decide (p = "")) as [->|Hne]; [left; by intros ? [= <-]|].
    destruct (Metaobject.mayPlay s p) eqn:Hmay; [right; eauto|left; by intros ? [= <-]]. }
  { by destruct (mo_spin_refused phone env s H) as (resp & l & -> & _). }
  destruct H as (p & Hid & Hne & Hmay).
  rewrite (mo_spin_allocates _ _ _ _ Hid Hne Hmay).
  pose proof (mo_allocate_customers (result (enter s p)) env (store (enter s p))) as H.
  destruct (Metaobject.allocate _ _ _) as [[b s2] l2]. cbn [result store fst snd] in *.
  assert (∃ c, customerOf (store (enter s p)) q = Some c ∧ Metaobject.hasPlayedWheel c = true)
    as Hbefore.
  { unfold Metaobject.mayPlay in Hq. unfold enter, customerOf.
    destruct (List.find _ (customers s)) as [c|] eqn:Hc'; [|done].
    apply negb_false_iff in Hq. exists c.
    destruct (List.find (λ c0, String.eqb (Shopify.phone c0) p) (customers s)); cbn.
    - done.
    - split; [by apply find_app_some|done]. }
  destruct (Metaobject.awardedOn (store (enter s p)) env) as [X|].
  - destruct H as [note Hc].
    edestruct (customerOf_kept Metaobject.hasPlayedWheel) as (c & Hc2 & Hpl);
      [| |exact Hc|exact Hbefore|].
    + intros. eapply mo_marked. cbn. left. reflexivity.
    + done.
    + unfold Metaobject.mayPlay. unfold customerOf in Hc2. by rewrite Hc2, Hpl.
  - subst s2. destruct Hbefore as (c & Hc & Hpl). unfold Metaobject.mayPlay.
    unfold customerOf in Hc. by rewrite Hc, Hpl.
Qed.

Lemma mo_spins_keep_played reqs : ∀ s q,
  Metaobject.mayPlay s q = false → Metaobject.mayPlay (Metaobject.spins reqs s).2 q = false.
Proof.
  induction reqs as [|[phone env] reqs IH]; intros s q Hq; [done|].
  cbn [Metaobject.spins snd]. by apply IH, mo_spin_keeps_played.
Qed.

(** A customer who may not play is one the search finds, with a marker. *)
Lemma mf_played_customer s p :
  Metafield.mayPlay s p = false →
  ∃ c, customerOf s p = Some c ∧ Metafield.hasPlayedWheel c = true.
Proof.
  unfold Metafield.mayPlay, customerOf. destruct (List.find _ _) as [c|]; [|done].
  intros H%negb_false_iff. eauto.
Qed.

Lemma mo_played_customer s p :
  Metaobject.mayPlay s p = false →
  ∃ c, customerOf s p = Some c ∧ Metaobject.hasPlayedWheel c = true.
Proof.
  unfold Metaobject.mayPlay, customerOf. destruct (List.find _ _) as [c|]; [|done].
  intros H%negb_false_iff. eauto.
Qed.

End CustomerRecord.

(* ===================================================================== *)
(** * One award for each identity *)
(* ===================================================================== *)

Section Participation.
Import Shopify.

(** X1.  index.js.  After a spin request with a non-empty identity the customer
  behind the identity carries the played marker, whatever the request
  awarded, and no later request removes it: after any further run of spin
  requests, of this identity or of others, a request of the identity is
  answered [alreadyPlayed], sends the customer search only and leaves the
  store as it is.  Over requests served one after the other an identity
  is therefore awarded at most once. *)
Theorem mf_identity_awarded_once phone env s p :
  identityOf phone = Some p → p ≠ "" →
  let r := Metafield.spin phone env s in
  Metafield.mayPlay (store r) p = false ∧
  ∀ reqs phone' env', identityOf phone' = Some p →
    let s' := (Metafield.spins reqs (store r)).2 in
    ∃ replay, Metafield.spin phone' env' s' =
                (Metafield.AlreadyPlayed replay, s', [SearchCustomers p]).
Proof.
  intros Hid Hne r.
  assert (Metafield.mayPlay (store r) p = false) as Hr.
  { subst r. destruct (Metafield.mayPlay s p) eqn:Hmay.
    - destruct (mf_spin_customer phone env s p Hid Hne Hmay) as (X & note & _ & _ & Hc).
      unfold Metafield.mayPlay. unfold customerOf in Hc. rewrite Hc.
      rewrite mf_marked; [done|]. cbn. tauto.
    - by apply mf_spin_keeps_played. }
  split; [done|]. intros reqs phone' env' Hid' s'.
  destruct (mf_played_customer s' p) as (c & Hc & Hpl).
  { by apply mf_spins_keep_played. }
  eexists. by apply (mf_spin_played phone' env' s' p c).
Qed.

Lemma mf_identity_awarded_once_witness :
  let r := Metafield.spin (JS.Str "12345") Example.env Example.partly in
  Metafield.mayPlay (store r) "12345" = false ∧
  ∀ reqs phone' env', identityOf phone' = Some "12345" →
    let s' := (Metafield.spins reqs (store r)).2 in
    ∃ replay, Metafield.spin phone' env' s' =
                (Metafield.AlreadyPlayed replay, s', [SearchCustomers "12345"]).
Proof.
  refine (mf_identity_awarded_once (JS.Str "12345") Example.env Example.partly "12345" _ _);
    [reflexivity|discriminate].
Defined.

(** X2.  The metaobject-backed server.  When the catalog can be loaded, a spin
  request with a non-empty identity leaves the customer with the played
  marker, and after any further run of spin requests a request of the
  identity is answered [alreadyPlayed] and changes nothing.  When the
  catalog cannot be loaded, the request of a customer who may play is
  answered 500 and the customer may still play afterwards: a failed request
  does not use up the participation. *)
Theorem mo_identity_awarded_once phone env s p :
  identityOf phone = Some p → p ≠ "" →
  let r := Metaobject.spin phone env s in
  (Metaobject.catalogOf s ≠ [] →
   Metaobject.mayPlay (store r) p = false ∧
   ∀ reqs phone' env', identityOf phone' = Some p →
     let s' := (Metaobject.spins reqs (store r)).2 in
     ∃ replay, Metaobject.spin phone' env' s' =
                 (Metaobject.AlreadyPlayed replay, s', [SearchCustomers p])) ∧
  (Metaobject.catalogOf s = [] → Metaobject.mayPlay s p = true →
   result r = Metaobject.ServerError "server error" ∧
   Metaobject.mayPlay (store r) p = true).
Proof.
  intros Hid Hne r. split.
  - intros Hcat.
    assert (Metaobject.mayPlay (store r) p = false) as Hr.
    { subst r. destruct (Metaobject.mayPlay s p) eqn:Hmay.
      - pose proof (mo_spin_customer phone env s p Hid Hne Hmay) as H. cbn zeta in H.
        assert (is_Some (Metaobject.awardedOn s env)) as [X HX].
        { unfold Metaobject.awardedOn. destruct (Metaobject.availableOf s); [|by eexists].
          by apply fallbackOf_nonempty. }
        rewrite HX in H. destruct H as [note Hc].
        unfold Metaobject.mayPlay. unfold customerOf in Hc. rewrite Hc.
        erewrite mo_marked; [done|]. cbn. left. reflexivity.
      - by apply mo_spin_keeps_played. }
    split; [done|]. intros reqs phone' env' Hid' s'.
    destruct (mo_played_customer s' p) as (c & Hc & Hpl).
    { by apply mo_spins_keep_played. }
    eexists. by apply (mo_spin_played phone' env' s' p c).
  - intros Hcat Hmay. subst r.
    assert (Metaobject.awardedOn s env = None) as HX.
    { unfold Metaobject.awardedOn, Metaobject.availableOf. by rewrite Hcat. }
    destruct (mo_spin_awards phone env s p Hid Hne Hmay) as [_ H]. rewrite HX in H.
    destruct H as (Hres & _). split; [done|].
    pose proof (mo_spin_customer phone env s p Hid Hne Hmay) as H. cbn zeta in H.
    rewrite HX in H. rewrite H.
    destruct (enter_customer s p) as [Hc Hwho].
    unfold Metaobject.mayPlay in *. unfold customerOf in *. rewrite Hc.
    destruct (List.find _ (customers s)) as [c|].
    + by rewrite Hwho.
    + unfold Metaobject.hasPlayedWheel. by rewrite Hwho.
Qed.

Lemma mo_identity_awarded_once_witness :
  let r := Metaobject.spin (JS.Str "12345") Example.env Example.partly in
  Metaobject.mayPlay (store r) "12345" = false ∧
  ∀ reqs phone' env', identityOf phone' = Some "12345" →
    let s' := (Metaobject.spins reqs (store r)).2 in
    ∃ replay, Metaobject.spin phone' env' s' =
                (Metaobject.AlreadyPlayed replay, s', [SearchCustomers "12345"]).
Proof.
  refine (proj1 (mo_identity_awarded_once (JS.Str "12345") Example.env Example.partly
                   "12345" _ _) _);
    [reflexivity|discriminate|vm_compute; discriminate].
Defined.

End Participation.

(* ===================================================================== *)
(** * The stored tags, read back *)
(* ===================================================================== *)

Section TagsReadBack.
Import Shopify.

Lemma trimEnd_app (a b : string) :
  JS.trimEnd a = a → JS.trimEnd (a +:+ b) = a +:+ JS.trimEnd b.
Proof.
  induction a as [|c a IH]; [done|]. rewrite append_cons, !trimEnd_cons.
  destruct (JS.is_space c && String.eqb (JS.trimEnd a) "") eqn:E; [done|].
  intros [= Ha]. rewrite (IH Ha). rewrite Ha in E.
  destruct (JS.is_space c) eqn:Hc; [|done]. cbn [andb] in *.
  destruct a as [|d a]; [done|]. by rewrite append_cons.
Qed.

(** A tag that starts with a fixed word, trimmed. *)
Lemma trim_tagged (word rest : string) :
  JS.trimStart word = word → word ≠ "" → JS.trimEnd word = word →
  JS.trim (word +:+ rest) = word +:+ JS.trimEnd rest.
Proof.
  intros Hs Hne He. unfold JS.trim. rewrite trimStart_app, Hs.
  destruct (String.eqb_spec word "") as [|_]; [done|]. by apply trimEnd_app.
Qed.

Lemma drop_length_app (p x : string) : JS.drop (String.length p) (p +:+ x) = x.
Proof.
  induction p as [|c p IH]; [by destruct x|]. by rewrite append_cons.
Qed.

Lemma replace_prefix (p x : string) : JS.replace (p +:+ x) p "" = x.
Proof.
  assert (JS.replace (p +:+ x) p "" =
          if JS.startsWith (p +:+ x) p then "" +:+ JS.drop (String.length p) (p +:+ x)
          else match p +:+ x with
               | String c s' => String c (JS.replace s' p "")
               | EmptyString => EmptyString
               end) as -> by (by destruct (p +:+ x)).
  unfold JS.startsWith. by rewrite string_prefix_app, append_nil_l, drop_length_app.
Qed.

(** What is read back from a tag [word: text]. *)
Lemma tag_text (word text : string) :
  JS.trimStart word = word → word ≠ "" → JS.trimEnd word = word →
  JS.startsWith (JS.trim (word +:+ String " " text)) word = true ∧
  JS.trim (JS.replace (JS.trim (word +:+ String " " text)) word "") = JS.trim text.
Proof.
  intros Hs Hne He. rewrite trim_tagged by done. split.
  - apply string_prefix_app.
  - by rewrite replace_prefix, trim_trimEnd, trim_space.
Qed.

Lemma find_none_intro {A} (Q : A → bool) (l : list A) :
  (∀ x, In x l → Q x = false) → List.find Q l = None.
Proof.
  induction l as [|x l IH]; [done|]. intros H. cbn [List.find].
  rewrite (H x (or_introl eq_refl)). apply IH. intros y Hy. apply H. by right.
Qed.

(** The tags list read back from the stored text of an award. *)
Lemma merged_tags customer new t i ph nt :
  In t new → t ≠ "" → (∀ t, In t new → Tags.noComma t = true) →
  tagList (mkCustomer i ph (Tags.merged customer new) nt) =
    map JS.trim (JS.unique (tagList customer ++ new)) ∧
  Tags.merged customer new ≠ "".
Proof.
  intros Hin Hne Hnew.
  assert (∀ x, In x (JS.unique (tagList customer ++ new)) → Tags.noComma x = true) as Hall.
  { intros x [Hx|Hx]%unique_In%in_app_or; [by apply (tagList_tag customer)|by apply Hnew]. }
  assert (JS.unique (tagList customer ++ new) ≠ []) as Hne'.
  { assert (In t (JS.unique (tagList customer ++ new))) as Hin'
      by (apply unique_In, in_or_app; by right).
    intros E. by rewrite E in Hin'. }
  pose proof (split_join _ Hne' Hall) as Hsj. fold (Tags.merged customer new) in Hsj.
  assert (Tags.merged customer new ≠ "") as Hm.
  { apply (occurs_nonempty t); [by apply merged_occurs|done]. }
  split; [|done]. unfold tagList at 1. cbn [tags].
  destruct (String.eqb_spec (Tags.merged customer new) "") as [E|_]; [done|]. exact Hsj.
Qed.

(** The first tag with a given first word, among the tags read back. *)
Lemma find_read_back (word : string) customer new t :
  (∀ x, In x (tagList customer) → JS.startsWith x word = false) →
  List.find (λ x, JS.startsWith (JS.trim x) word) new = Some t →
  List.find (λ x, JS.startsWith x word) (map JS.trim (JS.unique (tagList customer ++ new))) =
    Some (JS.trim t).
Proof.
  intros HE Hnew. rewrite find_map, find_unique, find_app_none, Hnew; [done|].
  apply find_none_intro. intros x Hx. destruct (tagList_tag _ _ Hx) as [_ ->].
  by apply HE.
Qed.

Lemma unrecorded_tags customer x :
  Tags.unrecorded customer = true → In x (tagList customer) →
  JS.startsWith x "Spin Prize:" = false ∧ JS.startsWith x "Spin Date:" = false ∧
  JS.startsWith x "Prize Number:" = false.
Proof.
  unfold Tags.unrecorded. rewrite forallb_forall. intros H Hx. specialize (H x Hx).
  apply andb_true_iff in H as [[H1 H2]%andb_true_iff H3].
  by rewrite !negb_true_iff in *.
Qed.

(** index.js: what [getPrizeFromTags] reads from the tags of an award. *)
Lemma mf_read_back customer prizeId label n env i ph nt :
  Tags.unrecorded customer = true →
  Tags.noComma prizeId = true → Tags.noComma label = true →
  Tags.noComma (currentDate env) = true →
  Metafield.getPrizeFromTags
    (mkCustomer i ph (Tags.merged customer (Tags.ofMetafieldAward prizeId label n env)) nt) =
    Some (Metafield.PrizeInfo.mk (JS.trim label) (Some (JS.trim (currentDate env)))
            (Some (JS.ofNumber n))).
Proof.
  intros Hun Hid Hlabel Hdate.
  destruct (merged_tags customer (Tags.ofMetafieldAward prizeId label n env) "wheel_played"
              i ph nt) as [Htags Hne].
  { cbn. tauto. }
  { done. }
  { pose proof (ofNumber_noComma n) as Hn. unfold Tags.noComma, Tags.ofMetafieldAward in *.
    intros t [<-|[<-|[<-|[<-|[<-|[]]]]]]; rewrite ?all_app, ?Hid, ?Hlabel, ?Hdate, ?Hn; done. }
  unfold Metafield.getPrizeFromTags. cbn [tags].
  destruct (String.eqb_spec (Tags.merged customer (Tags.ofMetafieldAward prizeId label n env)) "")
    as [E|_]; [done|].
  unfold tagList in Htags at 1. cbn [tags] in Htags.
  destruct (String.eqb_spec (Tags.merged customer (Tags.ofMetafieldAward prizeId label n env)) "")
    as [E|_]; [done|].
  rewrite Htags. unfold JS.find.
  destruct (tag_text "Spin Prize:" label) as [P1 T1]; [done..|].
  destruct (tag_text "Spin Date:" (currentDate env)) as [P2 T2]; [done..|].
  destruct (tag_text "Prize Number:" (JS.ofNumber n)) as [P3 T3]; [done..|].
  rewrite (find_read_back "Spin Prize:" customer _ ("Spin Prize: " +:+ label)).
  2:{ intros x Hx. by destruct (unrecorded_tags _ _ Hun Hx) as (? & ? & ?). }
  2:{ unfold Tags.ofMetafieldAward. cbn [List.find].
      change ("Spin Prize: " +:+ label) with ("Spin Prize:" +:+ String " " label).
      by rewrite P1. }
  rewrite (find_read_back "Spin Date:" customer _ ("Spin Date: " +:+ currentDate env)).
  2:{ intros x Hx. by destruct (unrecorded_tags _ _ Hun Hx) as (? & ? & ?). }
  2:{ unfold Tags.ofMetafieldAward. cbn [List.find].
      change ("Spin Prize: " +:+ label) with ("Spin Prize:" +:+ String " " label).
      change ("Spin Date: " +:+ currentDate env)
        with ("Spin Date:" +:+ String " " (currentDate env)).
      rewrite (trim_tagged "Spin Prize:") by done. rewrite P2.
      change (JS.startsWith ("Spin Prize:" +:+ JS.trimEnd (String " " label)) "Spin Date:")
        with false. done. }
  rewrite (find_read_back "Prize Number:" customer _ ("Prize Number: " +:+ JS.ofNumber n)).
  2:{ intros x Hx. by destruct (unrecorded_tags _ _ Hun Hx) as (? & ? & ?). }
  2:{ unfold Tags.ofMetafieldAward. cbn [List.find].
      change ("Spin Prize: " +:+ label) with ("Spin Prize:" +:+ String " " label).
      change ("Spin Date: " +:+ currentDate env)
        with ("Spin Date:" +:+ String " " (currentDate env)).
      change ("Prize Number: " +:+ JS.ofNumber n)
        with ("Prize Number:" +:+ String " " (JS.ofNumber n)).
      rewrite (trim_tagged "Spin Prize:"), (trim_tagged "Spin Date:") by done. rewrite P3.
      change (JS.startsWith ("Spin Prize:" +:+ JS.trimEnd (String " " label)) "Prize Number:")
        with false.
      change (JS.startsWith ("Spin Date:" +:+ JS.trimEnd (String " " (currentDate env)))
                "Prize Number:") with false.
      done. }
  cbn [fmap option_fmap option_map].
  change ("Spin Prize: " +:+ label) with ("Spin Prize:" +:+ String " " label).
  change ("Spin Date: " +:+ currentDate env)
    with ("Spin Date:" +:+ String " " (currentDate env)).
  change ("Prize Number: " +:+ JS.ofNumber n)
    with ("Prize Number:" +:+ String " " (JS.ofNumber n)).
  by rewrite T1, T2, T3, ofNumber_trim.
Qed.

(** The metaobject-backed server: the same, for its two tags. *)
Lemma mo_read_back customer label env i ph nt :
  Tags.unrecorded customer = true →
  Tags.noComma label = true → Tags.noComma (currentDate env) = true →
  Metaobject.getPrizeFromTags
    (mkCustomer i ph (Tags.merged customer (Tags.ofMetaobjectAward label env)) nt) =
    Some (Metaobject.PrizeInfo.mk (JS.trim label) (Some (JS.trim (currentDate env)))).
Proof.
  intros Hun Hlabel Hdate.
  destruct (merged_tags customer (Tags.ofMetaobjectAward label env) ("Spin Prize: " +:+ label)
              i ph nt) as [Htags Hne].
  { cbn. tauto. }
  { done. }
  { unfold Tags.noComma, Tags.ofMetaobjectAward.
    intros t [<-|[<-|[]]]; rewrite ?all_app, ?Hlabel, ?Hdate; done. }
  unfold Metaobject.getPrizeFromTags. cbn [tags].
  destruct (String.eqb_spec (Tags.merged customer (Tags.ofMetaobjectAward label env)) "")
    as [E|_]; [done|].
  unfold tagList in Htags at 1. cbn [tags] in Htags.
  destruct (String.eqb_spec (Tags.merged customer (Tags.ofMetaobjectAward label env)) "")
    as [E|_]; [done|].
  rewrite Htags. unfold JS.find.
  destruct (tag_text "Spin Prize:" label) as [P1 T1]; [done..|].
  destruct (tag_text "Spin Date:" (currentDate env)) as [P2 T2]; [done..|].
  rewrite (find_read_back "Spin Prize:" customer _ ("Spin Prize: " +:+ label)).
  2:{ intros x Hx. by destruct (unrecorded_tags _ _ Hun Hx) as (? & ? & ?). }
  2:{ unfold Tags.ofMetaobjectAward. cbn [List.find].
      change ("Spin Prize: " +:+ label) with ("Spin Prize:" +:+ String " " label).
      by rewrite P1. }
  rewrite (find_read_back "Spin Date:" customer _ ("Spin Date: " +:+ currentDate env)).
  2:{ intros x Hx. by destruct (unrecorded_tags _ _ Hun Hx) as (? & ? & ?). }
  2:{ unfold Tags.ofMetaobjectAward. cbn [List.find].
      change ("Spin Prize: " +:+ label) with ("Spin Prize:" +:+ String " " label).
      change ("Spin Date: " +:+ currentDate env)
        with ("Spin Date:" +:+ String " " (currentDate env)).
      rewrite (trim_tagged "Spin Prize:") by done. rewrite P2.
      change (JS.startsWith ("Spin Prize:" +:+ JS.trimEnd (String " " label)) "Spin Date:")
        with false. done. }
  cbn [fmap option_fmap option_map].
  change ("Spin Prize: " +:+ label) with ("Spin Prize:" +:+ String " " label).
  change ("Spin Date: " +:+ currentDate env)
    with ("Spin Date:" +:+ String " " (currentDate env)).
  by rewrite T1, T2.
Qed.

Lemma PRIZES_text X :
  In X Metafield.PRIZES →
  Tags.noComma (Metafield.id X) = true ∧ Tags.noComma (Metafield.label X) = true ∧
  JS.trim (Metafield.label X) = Metafield.label X.
Proof. cbn. intros H. repeat destruct H as [<-|H]; try done. Qed.

Lemma unrecorded_entering s p :
  (∀ c, customerOf s p = Some c → Tags.unrecorded c = true) →
  Tags.unrecorded (result (enter s p)) = true.
Proof.
  intros H. destruct (enter_customer s p) as [_ Hwho].
  destruct (customerOf s p) as [c|].
  - rewrite Hwho. by apply H.
  - unfold Tags.unrecorded, tagList. by rewrite Hwho.
Qed.

(** X3.  index.js.  A customer who is awarded a prize is told, on every later
  request, the label, the date and the number of that award: the tags the
  award stores are read back as what the award was.  The customer is one
  who carries no record of an earlier prize, and the date holds no comma. *)
Theorem mf_replay_returns_award phone env s p :
  identityOf phone = Some p → p ≠ "" → Metafield.mayPlay s p = true →
  (∀ c, customerOf s p = Some c → Tags.unrecorded c = true) →
  Tags.noComma (currentDate env) = true →
  let r := Metafield.spin phone env s in
  ∃ X n, In X Metafield.PRIZES ∧
    (result r = Metafield.Won (Metafield.id X) (Metafield.label X) n ∨
     result r = Metafield.Fallback (Metafield.label X) n) ∧
    ∀ phone' env', identityOf phone' = Some p →
      Metafield.spin phone' env' (store r) =
        (Metafield.AlreadyPlayed
           (Metafield.Recorded
              (Metafield.PrizeInfo.mk (Metafield.label X)
                 (Some (JS.trim (currentDate env))) (Some (JS.ofNumber n)))),
         store r, [SearchCustomers p]).
Proof.
  intros Hid Hne Hmay Hun Hdate r. subst r.
  destruct (mf_spin_customer phone env s p Hid Hne Hmay) as (X & note & HX & Hr & Hc).
  apply mf_awardedOn_In in HX. destruct (PRIZES_text X HX) as (Hi & Hl & Ht).
  exists X, (Metafield.totalDistributedOf s (Metafield.id X) + 1).
  split; [done|]. split; [done|]. intros phone' env' Hid'.
  rewrite (mf_spin_played phone' env' _ p _ Hid' Hne Hc).
  - rewrite mf_read_back, Ht; try done. by apply unrecorded_entering.
  - apply mf_marked. cbn. tauto.
Qed.

Lemma mf_replay_returns_award_witness :
  let r := Metafield.spin (JS.Str " 5550100") Example.env Visitors.store in
  ∃ X n, In X Metafield.PRIZES ∧
    (result r = Metafield.Won (Metafield.id X) (Metafield.label X) n ∨
     result r = Metafield.Fallback (Metafield.label X) n) ∧
    ∀ phone' env', identityOf phone' = Some "5550100" →
      Metafield.spin phone' env' (store r) =
        (Metafield.AlreadyPlayed
           (Metafield.Recorded
              (Metafield.PrizeInfo.mk (Metafield.label X)
                 (Some (JS.trim (currentDate Example.env))) (Some (JS.ofNumber n)))),
         store r, [SearchCustomers "5550100"]).
Proof.
  refine (mf_replay_returns_award (JS.Str " 5550100") Example.env Visitors.store "5550100"
            _ _ _ _ _);
    [reflexivity|discriminate|reflexivity| |reflexivity].
  intros c Hc. vm_compute in Hc. injection Hc as <-. reflexivity.
Defined.

(** X4.  The metaobject-backed server.  A customer who is awarded the entry [X]
  is told, on every later request, the label of [X] and the date of the
  award.  The label is the one of the catalog without the white space
  around it; a label that holds a comma is not read back, since the comma
  separates the stored tags. *)
Theorem mo_replay_returns_award phone env s p X :
  identityOf phone = Some p → p ≠ "" → Metaobject.mayPlay s p = true →
  (∀ c, customerOf s p = Some c → Tags.unrecorded c = true) →
  Metaobject.awardedOn s env = Some X →
  Tags.noComma (Metaobject.label X) = true → Tags.noComma (currentDate env) = true →
  let r := Metaobject.spin phone env s in
  (∃ n, result r = Metaobject.Won (Metaobject.id X) (Metaobject.label X) n ∨
        result r = Metaobject.Fallback (Metaobject.label X) n) ∧
  ∀ phone' env', identityOf phone' = Some p →
    Metaobject.spin phone' env' (store r) =
      (Metaobject.AlreadyPlayed
         (Metaobject.Recorded
            (Metaobject.PrizeInfo.mk (JS.trim (Metaobject.label X))
               (Some (JS.trim (currentDate env))))),
       store r, [SearchCustomers p]).
Proof.
  intros Hid Hne Hmay Hun HX Hlabel Hdate r. subst r. split.
  - destruct (mo_spin_awards phone env s p Hid Hne Hmay) as [_ H]. rewrite HX in H.
    destruct H as (Hr & _). rewrite Hr. destruct (Metaobject.availableOf s); eauto.
  - intros phone' env' Hid'.
    pose proof (mo_spin_customer phone env s p Hid Hne Hmay) as H. cbn zeta in H.
    rewrite HX in H. destruct H as [note Hc].
    rewrite (mo_spin_played phone' env' _ p _ Hid' Hne Hc).
    + rewrite mo_read_back; try done. by apply unrecorded_entering.
    + eapply mo_marked. cbn. left. reflexivity.
Qed.

Lemma mo_replay_returns_award_witness :
  let r := Metaobject.spin (JS.Str " 5550100") Example.env Visitors.store in
  (∃ n, result r = Metaobject.Won "A" "Prize A" n ∨
        result r = Metaobject.Fallback "Prize A" n) ∧
  ∀ phone' env', identityOf phone' = Some "5550100" →
    Metaobject.spin phone' env' (store r) =
      (Metaobject.AlreadyPlayed
         (Metaobject.Recorded
            (Metaobject.PrizeInfo.mk (JS.trim "Prize A")
               (Some (JS.trim (currentDate Example.env))))),
       store r, [SearchCustomers "5550100"]).
Proof.
  refine (mo_replay_returns_award (JS.Str " 5550100") Example.env Visitors.store "5550100"
            (Metaobject.mkPrize "A" "Prize A" 0.5 (Some 1) (Some 1) 0
               "gid://shopify/Metaobject/1")
            _ _ _ _ _ _ _);
    [reflexivity|discriminate|reflexivity| |vm_compute; reflexivity|reflexivity|reflexivity].
  intros c Hc. vm_compute in Hc. injection Hc as <-. reflexivity.
Defined.

End TagsReadBack.

(* ===================================================================== *)
(** * The tags a customer had before *)
(* ===================================================================== *)

Section EarlierTags.
Import Shopify.

(** Splitting at a separator, piece by piece. *)
Lemma split_at_sep sep (a b : string) :
  JS.split sep (a +:+ String sep b) = JS.split sep a ++ JS.split sep b.
Proof.
  induction a as [|c a IH]; [apply split_cons_sep|]. rewrite append_cons.
  cbn [JS.split]. rewrite IH. destruct (Ascii.eqb c sep); [done|].
  pose proof (split_nonempty sep a) as Hne. by destruct (JS.split sep a).
Qed.

(** A tag without a comma is one of the pieces of the stored text, after
  the blank that follows the separator. *)
Lemma join_piece (l : list string) x : ∀ pre,
  In x l → Tags.noComma x = true → Tags.noComma pre = true →
  ∃ q, (q = pre ∨ q = " ") ∧ In (q +:+ x) (JS.split "," (pre +:+ JS.join ", " l)).
Proof.
  induction l as [|y l IH]; intros pre Hin Hx Hpre; [done|].
  destruct l as [|z l].
  - destruct Hin as [->|[]]. exists pre. split; [by left|].
    cbn [JS.join String.concat]. rewrite split_last; [by left|].
    unfold Tags.noComma in *. by rewrite all_app, Hpre, Hx.
  - change (JS.join ", " (y :: z :: l))
      with (y +:+ String "," (" " +:+ JS.join ", " (z :: l))).
    rewrite <- append_assoc, split_at_sep. destruct Hin as [->|Hin].
    + exists pre. split; [by left|]. apply in_or_app. left.
      rewrite split_last; [by left|]. unfold Tags.noComma in *. by rewrite all_app, Hpre, Hx.
    + destruct (IH " " Hin Hx eq_refl) as (q & Hq & Hin').
      exists " ". split; [by right|]. apply in_or_app. right.
      by destruct Hq as [->| ->].
Qed.

(** A tag the customer had is among the tags read back after an award. *)
Lemma merged_keeps customer new t' t i ph nt :
  In t' new → t' ≠ "" → In t (tagList customer) →
  In t (tagList (mkCustomer i ph (Tags.merged customer new) nt)).
Proof.
  intros Hin' Hne Hin. destruct (tagList_tag _ _ Hin) as [Hc Ht].
  unfold tagList at 1. cbn [tags].
  destruct (String.eqb_spec (Tags.merged customer new) "") as [E|_].
  { destruct (occurs_nonempty t' (Tags.merged customer new)); try done.
    by apply merged_occurs. }
  destruct (join_piece (JS.unique (tagList customer ++ new)) t "") as (q & Hq & Hp);
    [apply unique_In, in_or_app; by left|done|done|].
  rewrite append_nil_l in Hp. fold (Tags.merged customer new) in Hp.
  apply in_map_iff. exists (q +:+ t). split; [|done].
  by destruct Hq as [->| ->]; rewrite ?append_nil_l, ?append_cons, ?trim_space.
Qed.

(** X5.  An award adds tags to the customer record and takes none away: every
  tag the customer carried before the request is among the tags read from
  the record after it, in both servers.  The record keeps its id and its
  phone. *)
Theorem award_keeps_earlier_tags :
  (∀ phone env s p c,
     identityOf phone = Some p → p ≠ "" → Metafield.mayPlay s p = true →
     customerOf s p = Some c →
     ∃ c', customerOf (store (Metafield.spin phone env s)) p = Some c' ∧
       cid c' = cid c ∧ Shopify.phone c' = Shopify.phone c ∧
       ∀ t, In t (tagList c) → In t (tagList c')) ∧
  (∀ phone env s p c,
     identityOf phone = Some p → p ≠ "" → Metaobject.mayPlay s p = true →
     customerOf s p = Some c →
     ∃ c', customerOf (store (Metaobject.spin phone env s)) p = Some c' ∧
       cid c' = cid c ∧ Shopify.phone c' = Shopify.phone c ∧
       ∀ t, In t (tagList c) → In t (tagList c')).
Proof.
  split; intros phone env s p c Hid Hne Hmay Hc.
  - destruct (mf_spin_customer phone env s p Hid Hne Hmay) as (X & note & _ & _ & Hc').
    destruct (enter_customer s p) as [_ Hwho]. rewrite Hc in Hwho. rewrite Hwho in Hc'.
    eexists. split; [exact Hc'|]. split; [done|]. split; [done|].
    intros t Ht. apply (merged_keeps c _ "wheel_played"); [cbn; tauto|done|done].
  - pose proof (mo_spin_customer phone env s p Hid Hne Hmay) as H. cbn zeta in H.
    destruct (enter_customer s p) as [Hfound Hwho]. rewrite Hc in Hwho. rewrite Hwho in *.
    destruct (Metaobject.awardedOn s env) as [X|].
    + destruct H as [note Hc']. eexists. split; [exact Hc'|]. split; [done|]. split; [done|].
      intros t Ht.
      apply (merged_keeps c _ ("Spin Prize: " +:+ Metaobject.label X)); [cbn; tauto|done|done].
    + rewrite H. exists c. by rewrite Hfound.
Qed.

Lemma award_keeps_earlier_tags_witness :
  ∃ c', customerOf (store (Metafield.spin (JS.Str "5550100") Example.env Visitors.store))
          "5550100" = Some c' ∧
    cid c' = cid Visitors.regular ∧ Shopify.phone c' = Shopify.phone Visitors.regular ∧
    ∀ t, In t (tagList Visitors.regular) → In t (tagList c').
Proof.
  refine (proj1 award_keeps_earlier_tags (JS.Str "5550100") Example.env Visitors.store
            "5550100" Visitors.regular _ _ _ _);
    [reflexivity|discriminate|reflexivity|reflexivity].
Defined.

End EarlierTags.

(* ===================================================================== *)
(** * The routes that only read *)
(* ===================================================================== *)

Section ReadOnlyRoutes.
Import Shopify.

(** A customer of the metaobject-backed server from whose tags a prize is
  read carries the played marker of that server. *)
Lemma mo_prize_means_played c info :
  Metaobject.getPrizeFromTags c = Some info → Metaobject.hasPlayedWheel c = true.
Proof.
  unfold Metaobject.getPrizeFromTags, Metaobject.hasPlayedWheel.
  destruct (String.eqb (tags c) ""); [done|].
  destruct (JS.find _ _) as [t|] eqn:Hf; [|done]. intros _.
  apply find_some in Hf as [Hin Hp].
  apply in_map_iff in Hin as (x & <- & Hx).
  apply prefix_split in Hp as [b Hb].
  apply occurs_includes, (occurs_lower "Spin Prize:").
  eapply occurs_trans; [|by apply (occurs_split _ _ _ Hx)].
  eapply occurs_trans; [|apply occurs_trim]. rewrite Hb. by exists "", b.
Qed.

(** X11.  GET /customer/:phone reads and writes nothing but the customer search,
  and what it reports is what POST /spin acts on: [hasPlayed] is true
  exactly when a spin request of that identity is refused, and then the
  request replays the reported prize (the placeholder when none is
  reported).  In the metaobject-backed server a prize is only reported
  together with [hasPlayed: true]. *)
Theorem customer_route_agrees_with_spin :
  (∀ p s,
     let a := MetafieldRoutes.customer p s in
     store a = s ∧ sent a = [SearchCustomers p] ∧
     match result a with
     | MetafieldRoutes.NotFound => customerOf s p = None ∧ Metafield.mayPlay s p = true
     | MetafieldRoutes.Found i hasPlayed prize t n =>
         customerOf s p = Some (mkCustomer i p t n) ∧
         hasPlayed = negb (Metafield.mayPlay s p) ∧
         (hasPlayed = true → ∀ phone env, identityOf phone = Some p → p ≠ "" →
            result (Metafield.spin phone env s) =
              Metafield.AlreadyPlayed
                match prize with
                | Some info => Metafield.Recorded info
                | None => Metafield.LabelOnly "Already Played"
                end)
     end) ∧
  (∀ p s,
     let a := MetaobjectRoutes.customer p s in
     store a = s ∧ sent a = [SearchCustomers p] ∧
     match result a with
     | MetaobjectRoutes.NotFound => customerOf s p = None ∧ Metaobject.mayPlay s p = true
     | MetaobjectRoutes.Found i hasPlayed prize t n =>
         customerOf s p = Some (mkCustomer i p t n) ∧
         hasPlayed = negb (Metaobject.mayPlay s p) ∧
         (prize ≠ None → hasPlayed = true) ∧
         (hasPlayed = true → ∀ phone env, identityOf phone = Some p → p ≠ "" →
            result (Metaobject.spin phone env s) =
              Metaobject.AlreadyPlayed
                match prize with
                | Some info => Metaobject.Recorded info
                | None => Metaobject.LabelOnly "Already Played"
                end)
     end).
Proof.
  split; intros p s a; subst a.
  - unfold MetafieldRoutes.customer, bind, findCustomerByPhone, searchCustomers, ret.
    unfold Metafield.mayPlay, customerOf.
    destruct (List.find _ (customers s)) as [c|] eqn:Hc; cbn [result store sent fst snd app].
    2:{ done. }
    split; [done|]. split; [done|].
    assert (Shopify.phone c = p) as <-.
    { apply find_some in Hc as [_ H]. by apply String.eqb_eq in H. }
    split; [by destruct c|]. split; [by rewrite negb_involutive|].
    intros Hpl phone env Hid Hne.
    by rewrite (mf_spin_played phone env s (Shopify.phone c) c Hid Hne Hc Hpl).
  - unfold MetaobjectRoutes.customer, bind, findCustomerByPhone, searchCustomers, ret.
    unfold Metaobject.mayPlay, customerOf.
    destruct (List.find _ (customers s)) as [c|] eqn:Hc; cbn [result store sent fst snd app].
    2:{ done. }
    split; [done|]. split; [done|].
    assert (Shopify.phone c = p) as <-.
    { apply find_some in Hc as [_ H]. by apply String.eqb_eq in H. }
    split; [by destruct c|]. split; [by rewrite negb_involutive|]. split.
    { destruct (Metaobject.getPrizeFromTags c) as [info|] eqn:Hinfo; [|done].
      intros _. by apply (mo_prize_means_played c info). }
    intros Hpl phone env Hid Hne.
    by rewrite (mo_spin_played phone env s (Shopify.phone c) c Hid Hne Hc Hpl).
Qed.

Lemma customer_route_agrees_with_spin_witness :
  result (Metafield.spin (JS.Str " 98765") Example.env Example.partly) =
    Metafield.AlreadyPlayed
      (Metafield.Recorded
         (Metafield.PrizeInfo.mk "Mobile Holder" (Some "2025-01-02") (Some "1"))).
Proof.
  refine (proj2 (proj2 (proj2 (proj2 (proj1 customer_route_agrees_with_spin "98765"
            Example.partly)))) _ (JS.Str " 98765") Example.env _ _);
    [reflexivity|reflexivity|discriminate].
Defined.

(** In index.js the two do not go together: a customer who carries the
  prize tag of the other server and no marker of index.js is reported with
  a prize and as one who has not played. *)
Example customer_route_prize_without_marker :
  result (MetafieldRoutes.customer "5"
            (mkShop [mkCustomer 1 "5" "Spin Prize: Prize A, Spin Date: 2025-01-02" ""] 2 ∅ [])) =
    MetafieldRoutes.Found 1 false
      (Some (Metafield.PrizeInfo.mk "Prize A" (Some "2025-01-02") None))
      "Spin Prize: Prize A, Spin Date: 2025-01-02" "".
Proof. vm_compute. reflexivity. Qed.

Lemma filter_of_map {A B} (f : B → bool) (g : A → B) (l : list A) :
  List.filter f (map g l) = map g (List.filter (λ x, f (g x)) l).
Proof.
  induction l as [|x l IH]; [done|]. cbn [map List.filter].
  destruct (f (g x)); cbn [map]; by rewrite IH.
Qed.

(** X12.  GET /api/prizes/available of the metaobject-backed server asks for no
  key and writes nothing.  It gives any caller the entries that GET
  /admin/stats gives to a caller who holds the admin key, read from the
  same catalog, and the entries it flags as available are exactly the
  entries the next spin request draws from.  It answers 500 exactly when
  the catalog cannot be loaded. *)
Theorem available_prizes_are_the_admin_stats env s :
  let a := MetaobjectRoutes.availablePrizes env s in
  store a = s ∧ sent a = [QueryMetaobjects] ∧
  (∀ penv adminKey prizes,
     adminKey = JS.ofEnv (ADMIN_RESET_KEY penv) →
     result (Metaobject.stats penv adminKey s) = Metaobject.StatsAre prizes ↔
     result a = MetaobjectRoutes.PrizesAre prizes (now env)) ∧
  (∀ prizes lastUpdated,
     result a = MetaobjectRoutes.PrizesAre prizes lastUpdated →
     map Metaobject.stat_id (List.filter Metaobject.isAvailable prizes) =
       map Metaobject.id (Metaobject.availableOf s)) ∧
  (Metaobject.catalogOf s = [] ↔ result a = MetaobjectRoutes.PrizesError "server error").
Proof.
  intros a. subst a. unfold MetaobjectRoutes.availablePrizes.
  destruct (getCurrentPrizes_run s) as (loaded & Hrun & Hloaded).
  erewrite bind_step by apply Hrun.
  assert (∀ penv adminKey, adminKey = JS.ofEnv (ADMIN_RESET_KEY penv) →
            result (Metaobject.stats penv adminKey s) =
              match Metaobject.catalogOf s with
              | [] => Metaobject.ServerError "server error"
              | ps => Metaobject.StatsAre (map Metaobject.statOf ps)
              end) as Hstats.
  { intros penv adminKey Hk. apply mo_stats_run. by apply strictEq_ofEnv. }
  unfold Metaobject.availableOf.
  destruct (Metaobject.catalogOf s) as [|p0 ps] eqn:Hcat.
  - destruct Hloaded as [message ->]. cbn [result store sent fst snd ret app].
    split; [done|]. split; [done|]. split; [|done].
    intros penv adminKey prizes Hk. rewrite (Hstats penv adminKey Hk). done.
  - rewrite Hloaded. cbn [result store sent fst snd ret app].
    change (map (λ p, Metaobject.mkStat _ _ _ _ _ _ _) (p0 :: ps))
      with (map Metaobject.statOf (p0 :: ps)).
    split; [done|]. split; [done|]. split; [|split; [|done]].
    + intros penv adminKey prizes Hk. rewrite (Hstats penv adminKey Hk).
      split; [by intros [= <-]|by intros [= <-]].
    + intros prizes lastUpdated [= <- _].
      change (Metaobject.statOf p0 :: map Metaobject.statOf ps)
        with (map Metaobject.statOf (p0 :: ps)).
      by rewrite filter_of_map, map_map.
Qed.

Lemma available_prizes_are_the_admin_stats_witness :
  result (MetaobjectRoutes.availablePrizes Example.env Example.partly) =
    MetaobjectRoutes.PrizesAre
      (map Metaobject.statOf (Metaobject.catalogOf Example.partly)) (now Example.env).
Proof.
  refine (proj1 (proj1 (proj2 (proj2 (available_prizes_are_the_admin_stats Example.env
            Example.partly))) (mkProcessEnv None) JS.Undefined _ _) _);
    [reflexivity|vm_compute; reflexivity].
Defined.

(** X13.  The same route of the variant that mirrors its counters, which works on
  the metafields of index.js.  It asks for no key; it reports, for every
  prize of the constant catalog, the remaining count and the distribution
  counter the statistics report, and flags as available exactly the prizes
  the next spin request draws from.  It never rewrites a counter: the
  counts and the distribution the next request works with are those it
  found (a missing metafield is created with them), and customers and
  metaobjects are left alone. *)
Theorem mirror_available_prizes_match_the_draw env s :
  let a := MirrorRoutes.availablePrizes env s in
  (∃ prizes,
     result a = MirrorRoutes.PrizesAre prizes (now env) ∧
     map MirrorRoutes.entry_id prizes = map Metafield.id Metafield.PRIZES ∧
     (∀ e, In e prizes →
        MirrorRoutes.remaining e = Metafield.remainingOf s (MirrorRoutes.entry_id e) ∧
        MirrorRoutes.totalDistributed e =
          Metafield.totalDistributedOf s (MirrorRoutes.entry_id e)) ∧
     map MirrorRoutes.entry_id (List.filter MirrorRoutes.isAvailable prizes) =
       map Metafield.id (Metafield.availableOf s)) ∧
  Metafield.countsOf (store a) = Metafield.countsOf s ∧
  Metafield.distributionOf (store a) = Metafield.distributionOf s ∧
  customers (store a) = customers s ∧ metaobjects (store a) = metaobjects s ∧
  (∀ c, In c (sent a) → writesCounters c = false).
Proof.
  intros a. subst a. unfold MirrorRoutes.availablePrizes.
  erewrite bind_step by apply ensureShopPrizeCounts_run.
  erewrite bind_step by apply ensurePrizeDistribution_run.
  unfold ret. cbn [result store sent fst snd Metafield.value].
  rewrite distributionOf_with, !lookup_insert_ne by apply keys_differ.
  fold (Metafield.distributionOf s). split; [|split; [|split; [|split; [done|split; [done|]]]]].
  - eexists. split; [reflexivity|]. split; [by rewrite map_map|]. split.
    + intros e (q & <- & Hq)%in_map_iff. done.
    + rewrite filter_of_map, map_map. done.
  - rewrite countsOf_with. cbn [metafields with_metafields].
    rewrite lookup_insert_ne by (apply not_eq_sym, keys_differ).
    by rewrite lookup_insert_eq.
  - by rewrite distributionOf_with, lookup_insert_eq.
  - intros c Hin. rewrite app_nil_r in Hin.
    apply in_app_or in Hin as [[<-|Hin]|[<-|Hin]]; try done.
    + destruct (metafields s !! Metafield.SHOP_METAFIELD_KEY); cbn [In] in Hin.
      * destruct Hin.
      * by destruct Hin as [<-|[]].
    + cbn [metafields with_metafields] in Hin.
      rewrite lookup_insert_ne in Hin by apply keys_differ.
      destruct (metafields s !! Metafield.PRIZE_DISTRIBUTION_KEY); cbn [In] in Hin.
      * destruct Hin.
      * by destruct Hin as [<-|[]].
Qed.

End ReadOnlyRoutes.

(* ===================================================================== *)
(** * The inventory over a run of requests *)
(* ===================================================================== *)

Section Inventory.
Import Shopify.

Lemma isSafeInteger_spec n :
  JS.isSafeInteger n = true ↔ - JS.MAX_SAFE_INTEGER ≤ n ≤ JS.MAX_SAFE_INTEGER.
Proof. unfold JS.isSafeInteger. by rewrite andb_true_iff, !Z.leb_le. Qed.

(** What lies between two safe integers is one. *)
Lemma isSafeInteger_between a b x :
  JS.isSafeInteger a = true → JS.isSafeInteger b = true → a ≤ x ≤ b →
  JS.isSafeInteger x = true.
Proof. rewrite !isSafeInteger_spec. lia. Qed.

Lemma wins_cons X a answers :
  wins X (a :: answers) =
    (match a with
     | Metafield.Won i _ _ => if String.eqb i X then 1 else 0
     | _ => 0
     end) + wins X answers.
Proof.
  unfold wins. cbn [List.filter].
  destruct a as [| | | | |i l k| |]; try (cbn; lia).
  destruct (String.eqb i X); cbn [length]; lia.
Qed.

Lemma wins_nonneg X answers : 0 ≤ wins X answers.
Proof. unfold wins. lia. Qed.

(** One request of index.js, for a prize that is not the fallback: either
  it is won, and one unit moves from its remaining count to its
  distribution counter, or both stay as they are. *)
Lemma mf_spin_conserves phone env s X n :
  X ≠ "better_luck" → Metafield.remainingOf s X = Some (Some n) →
  let r := Metafield.spin phone env s in
  ((∃ l k, result r = Metafield.Won X l k) ∧ 0 < n ∧
   Metafield.remainingOf (store r) X = Some (Some (n - 1)) ∧
   Metafield.totalDistributedOf (store r) X = Metafield.totalDistributedOf s X + 1) ∨
  ((∀ l k, result r ≠ Metafield.Won X l k) ∧
   Metafield.remainingOf (store r) X = Some (Some n) ∧
   Metafield.totalDistributedOf (store r) X = Metafield.totalDistributedOf s X).
Proof.
  intros HX Hn r. subst r.
  assert ((∀ p, identityOf phone = Some p → p ≠ "" → Metafield.mayPlay s p = false) ∨
          ∃ p, identityOf phone = Some p ∧ p ≠ "" ∧ Metafield.mayPlay s p = true) as [H|H].
  { destruct (identityOf phone) as [p|]; [|by left].
    destruct (decide (p = "")) as [->|Hne]; [left; by intros ? [= <-]|].
    destruct (Metafield.mayPlay s p) eqn:Hmay; [right; eauto|left; by intros ? [= <-]]. }
  { right. destruct (mf_spin_refused phone env s H) as (-> & Hw & _). split; [|done].
    intros l k. apply Hw. }
  destruct H as (p & Hid & Hne & Hmay).
  destruct (mf_spin_awards phone env s p Hid Hne Hmay) as [_ H].
  unfold Metafield.remainingOf, Metafield.totalDistributedOf in *.
  destruct (Metafield.availableOf s) as [|first others] eqn:Hav.
  - right. destruct H as (-> & -> & ->). split; [done|]. split; [done|].
    rewrite incremented_total. by destruct (decide (X = "better_luck")).
  - set (chosen := select Metafield.prob (random env) first others) in *.
    destruct H as (-> & -> & ->). rewrite incremented_total.
    destruct (decide (X = Metafield.id chosen)) as [->|Hother].
    + left. split; [by eexists _, _|].
      assert (In chosen (Metafield.availableOf s)) as Hin.
      { rewrite Hav. apply select_In. }
      destruct (mf_available_positive s chosen Hin) as [E|(m & E & Hm)];
        unfold Metafield.remainingOf in E; rewrite Hn in E; [done|]. injection E as <-.
      split; [done|]. rewrite (decremented_same _ _ n Hn). split; [|done].
      do 2 f_equal. lia.
    + right. split; [intros l k [= E]; by destruct Hother|].
      by rewrite decremented_other.
Qed.

(** X6.  index.js.  Over any run of spin requests served one after the other, a
  prize with a remaining count [n] that is not the fallback is won at most
  [n] times: what leaves its remaining count is what its distribution
  counter gains, and both change by exactly the number of answers that
  award the prize.  The remaining count, the distribution counter and
  their sum are safe integers at the start, and so are the two counters
  after every request of the run: every sum and difference of the code,
  taken in binary64, is the integer one. *)
Theorem mf_inventory_is_conserved reqs : ∀ s X n,
  X ≠ "better_luck" → Metafield.remainingOf s X = Some (Some n) → 0 ≤ n →
  JS.isSafeInteger n = true →
  JS.isSafeInteger (Metafield.totalDistributedOf s X) = true →
  JS.isSafeInteger (Metafield.totalDistributedOf s X + n) = true →
  let run := Metafield.spins reqs s in
  Metafield.remainingOf run.2 X = Some (Some (n - wins X run.1)) ∧
  Metafield.totalDistributedOf run.2 X = Metafield.totalDistributedOf s X + wins X run.1 ∧
  0 ≤ wins X run.1 ≤ n ∧
  JS.isSafeInteger (Metafield.totalDistributedOf run.2 X) = true.
Proof.
  induction reqs as [|[phone env] reqs IH]; intros s X n HX Hn Hpos Hsafe Hcounter Hsum run;
    subst run.
  - cbn [Metafield.spins fst snd]. unfold wins. cbn. rewrite Hn.
    split; [do 2 f_equal; lia|]. split; [lia|]. split; [lia|done].
  - cbn [Metafield.spins fst snd]. rewrite wins_cons.
    destruct (mf_spin_conserves phone env s X n HX Hn)
      as [((l & k & ->) & Hlt & Hrem & Htot)|(Hw & Hrem & Htot)].
    + destruct (IH _ X (n - 1) HX Hrem ltac:(lia)) as (Hleft & Hgiven & Hwins & Hend).
      * apply (isSafeInteger_between 0 n); [done|done|lia].
      * rewrite Htot. eapply isSafeInteger_between; [exact Hcounter|exact Hsum|lia].
      * rewrite Htot. by replace (Metafield.totalDistributedOf s X + 1 + (n - 1))
                         with (Metafield.totalDistributedOf s X + n) by lia.
      * refine (conj _ (conj _ (conj _ Hend))); rewrite ?Hleft, ?Hgiven;
          cbn [result fst]; rewrite String.eqb_refl, ?Htot; [do 2 f_equal; lia|lia|lia].
    + destruct (IH _ X n HX Hrem Hpos Hsafe) as (Hleft & Hgiven & Hwins & Hend);
        [by rewrite Htot..|].
      assert (match result (Metafield.spin phone env s) with
              | Metafield.Won i _ _ => if String.eqb i X then 1 else 0
              | _ => 0
              end = 0) as ->.
      { destruct (result (Metafield.spin phone env s)) as [| | | | |i l k| |]; try done.
        destruct (String.eqb_spec i X) as [->|_]; [by destruct (Hw l k)|done]. }
      refine (conj _ (conj _ (conj _ Hend))); rewrite ?Hleft, ?Hgiven, ?Htot;
        [do 2 f_equal; lia|lia|lia].
Qed.

(** On [Example.partly], two customers draw with [Math.random()] = 0.5 and
  the first of them asks again: the mobile holder is won twice, its
  remaining count goes from 20 to 18 and its counter from 0 to 2. *)
Lemma mf_inventory_is_conserved_witness :
  let run := Metafield.spins [(JS.Str "11", Example.env); (JS.Str "12", Example.env);
                              (JS.Str "11", Example.env')] Example.partly in
  wins "mobile_holder" run.1 = 2 ∧
  Metafield.remainingOf Example.partly "mobile_holder" = Some (Some 20) ∧
  Metafield.remainingOf run.2 "mobile_holder" = Some (Some 18) ∧
  Metafield.totalDistributedOf Example.partly "mobile_holder" = 0 ∧
  Metafield.totalDistributedOf run.2 "mobile_holder" = 2.
Proof.
  intros run.
  assert (wins "mobile_holder" run.1 = 2) as Hwins by (vm_compute; reflexivity).
  destruct (mf_inventory_is_conserved
              [(JS.Str "11", Example.env); (JS.Str "12", Example.env);
               (JS.Str "11", Example.env')] Example.partly "mobile_holder" 20)
    as (Hremaining & Htotal & _ & _);
    [discriminate|reflexivity|lia|reflexivity|reflexivity|reflexivity|].
  fold run in Hremaining, Htotal. rewrite Hwins in Hremaining, Htotal.
  split; [exact Hwins|]. split; [reflexivity|]. split; [exact Hremaining|].
  split; [reflexivity|exact Htotal].
Defined.

(** ** The metaobject-backed server *)

(** The entry a request awards is never a capped entry without stock,
  unless it is the fallback. *)
Lemma mo_awarded_has_stock s env X n :
  Metaobject.awardedOn s env = Some X → Metaobject.remaining X = Some n →
  Metaobject.id X ≠ "better_luck" →
  (∃ b, In b (Metaobject.catalogOf s) ∧ Metaobject.id b = "better_luck") →
  0 < n.
Proof.
  unfold Metaobject.awardedOn. intros HX Hn Hid (b & Hb & Hbid).
  destruct (Metaobject.availableOf s) as [|first others] eqn:Hav.
  - unfold Metaobject.fallbackOf in HX.
    destruct (JS.find _ (Metaobject.catalogOf s)) as [q|] eqn:Hf.
    + injection HX as ->. apply find_some in Hf as [_ E%String.eqb_eq]. done.
    + pose proof (find_none _ _ Hf b Hb) as E. cbn beta in E.
      rewrite Hbid in E. done.
  - injection HX as <-.
    pose proof (select_In Metaobject.prob (random env) first others) as Hin.
    rewrite <- Hav in Hin. apply filter_In in Hin as [_ Hin].
    unfold Metaobject.available in Hin. rewrite Hn in Hin. by apply Z.ltb_lt.
Qed.

Lemma mo_spin_conserves phone env s i q n :
  NoDup (map Metaobject.metaobjectId (Metaobject.catalogOf s)) →
  Metaobject.catalogOf s !! i = Some q → Metaobject.remaining q = Some n →
  Metaobject.id q ≠ "better_luck" →
  (∃ b, In b (Metaobject.catalogOf s) ∧ Metaobject.id b = "better_luck") →
  let s' := store (Metaobject.spin phone env s) in
  NoDup (map Metaobject.metaobjectId (Metaobject.catalogOf s')) ∧
  (∃ b, In b (Metaobject.catalogOf s') ∧ Metaobject.id b = "better_luck") ∧
  ∃ q' n', Metaobject.catalogOf s' !! i = Some q' ∧
    Metaobject.metaobjectId q' = Metaobject.metaobjectId q ∧
    Metaobject.id q' = Metaobject.id q ∧
    Metaobject.remaining q' = Some n' ∧ 0 ≤ n' ≤ n ∧
    n' + Metaobject.totalDistributed q' = n + Metaobject.totalDistributed q.
Proof.
  intros Hnd Hq Hn Hid Hluck s'. subst s'.
  assert (In q (Metaobject.catalogOf s)) as Hin.
  { apply list_elem_of_In. by apply list_elem_of_lookup_2 in Hq. }
  assert (0 ≤ n) as Hpos by (by apply (mo_catalog_remaining_nonneg s q)).
  assert (Metaobject.catalogOf (store (Metaobject.spin phone env s)) = Metaobject.catalogOf s ∨
          ∃ X, Metaobject.awardedOn s env = Some X ∧
            Metaobject.catalogOf (store (Metaobject.spin phone env s)) =
              map (λ q, if String.eqb (Metaobject.metaobjectId q) (Metaobject.metaobjectId X)
                        then Metaobject.award q else q) (Metaobject.catalogOf s)) as [E|(X & HX & E)].
  { assert ((∀ p, identityOf phone = Some p → p ≠ "" → Metaobject.mayPlay s p = false) ∨
            ∃ p, identityOf phone = Some p ∧ p ≠ "" ∧ Metaobject.mayPlay s p = true) as [H|H].
    { destruct (identityOf phone) as [p|]; [|by left].
      destruct (decide (p = "")) as [->|Hne]; [left; by intros ? [= <-]|].
      destruct (Metaobject.mayPlay s p) eqn:Hmay; [right; eauto|left; by intros ? [= <-]]. }
    - left. by destruct (mo_spin_refused phone env s H) as (resp & l & -> & _).
    - destruct H as (p & Hid' & Hne & Hmay).
      destruct (Metaobject.awardedOn s env) as [X|] eqn:HX.
      + right. exists X. split; [done|]. by apply (mo_spin_catalog phone env s p X).
      + left. destruct (mo_spin_awards phone env s p Hid' Hne Hmay) as [_ H].
        rewrite HX in H. destruct H as (_ & Hs & _). by apply mo_views_same. }
  - rewrite E. split; [done|]. split; [done|]. exists q, n. repeat split; try done; lia.
  - rewrite E. split; [|split].
    + rewrite map_map. erewrite map_ext; [exact Hnd|]. intros a. cbn beta.
      by destruct (String.eqb _ _).
    + destruct Hluck as (b & Hb & Hbid). eexists. split; [apply in_map, Hb|].
      cbn beta. by destruct (String.eqb _ _).
    + rewrite list_lookup_fmap, Hq. cbn [fmap option_fmap option_map].
      destruct (String.eqb_spec (Metaobject.metaobjectId q) (Metaobject.metaobjectId X))
        as [Eh|_].
      * assert (q = X) as <-.
        { apply (handles_unique (Metaobject.catalogOf s)); try done.
          by apply (mo_awardedOn_In s env). }
        pose proof (mo_awarded_has_stock s env q n HX Hn Hid Hluck) as Hlt.
        eexists _, _. split; [done|]. unfold Metaobject.award.
        cbn [Metaobject.metaobjectId Metaobject.id Metaobject.remaining
               Metaobject.totalDistributed]. rewrite Hn. repeat split; try done; lia.
      * exists q, n. repeat split; try done; lia.
Qed.

(** X7.  The metaobject-backed server.  When the catalog holds an entry with the
  id 'better_luck', a capped entry with another id is awarded at most as
  often as its remaining count allows, over any run of spin requests
  served one after the other: its remaining count stays at or above zero
  and what leaves it is what its distribution counter gains.  The
  remaining count, the distribution counter and their sum are safe
  integers at the start, and so are the two counters after every request
  of the run: every sum and difference of the code, taken in binary64, is
  the integer one. *)
Theorem mo_inventory_is_conserved reqs : ∀ s i q n,
  NoDup (map Metaobject.metaobjectId (Metaobject.catalogOf s)) →
  Metaobject.catalogOf s !! i = Some q → Metaobject.remaining q = Some n →
  Metaobject.id q ≠ "better_luck" →
  (∃ b, In b (Metaobject.catalogOf s) ∧ Metaobject.id b = "better_luck") →
  JS.isSafeInteger n = true →
  JS.isSafeInteger (Metaobject.totalDistributed q) = true →
  JS.isSafeInteger (Metaobject.totalDistributed q + n) = true →
  ∃ q' n', Metaobject.catalogOf (Metaobject.spins reqs s).2 !! i = Some q' ∧
    Metaobject.metaobjectId q' = Metaobject.metaobjectId q ∧
    Metaobject.id q' = Metaobject.id q ∧
    Metaobject.remaining q' = Some n' ∧ 0 ≤ n' ≤ n ∧
    Metaobject.totalDistributed q' = Metaobject.totalDistributed q + (n - n') ∧
    JS.isSafeInteger (Metaobject.totalDistributed q') = true.
Proof.
  induction reqs as [|[phone env] reqs IH];
    intros s i q n Hnd Hq Hn Hid Hluck Hsafe Hcounter Hsum.
  - assert (0 ≤ n) as Hpos.
    { apply (mo_catalog_remaining_nonneg s q); [|done].
      apply list_elem_of_In. by apply list_elem_of_lookup_2 in Hq. }
    exists q, n. cbn [Metaobject.spins snd]. repeat split; try done; lia.
  - cbn [Metaobject.spins snd].
    destruct (mo_spin_conserves phone env s i q n Hnd Hq Hn Hid Hluck)
      as (Hnd1 & Hluck1 & q1 & n1 & Hq1 & Hh1 & Hid1 & Hn1 & Hpos1 & Hsum1).
    destruct (IH _ i q1 n1 Hnd1 Hq1 Hn1 ltac:(by rewrite Hid1) Hluck1)
      as (q' & n' & Hq' & Hh' & Hid' & Hn' & Hpos' & Hsum' & Hend).
    + apply (isSafeInteger_between 0 n); [done|done|lia].
    + eapply isSafeInteger_between; [exact Hcounter|exact Hsum|lia].
    + by replace (Metaobject.totalDistributed q1 + n1)
           with (Metaobject.totalDistributed q + n) by lia.
    + exists q', n'. split; [done|]. split; [congruence|]. split; [congruence|].
      split; [done|]. split; [lia|]. split; [lia|done].
Qed.

End Inventory.

Section InventoryExample.
Import Shopify.

(** On the catalog 'better_luck' (used up), E (cap 2, both left) three
  customers play: E is won twice and then the fallback is given; the
  remaining count of E goes from 2 to 0 and its counter from 0 to 2. *)
Lemma mo_inventory_is_conserved_witness :
  let run := Metaobject.spins [(JS.Str "11", Example.env); (JS.Str "12", Example.env');
                               (JS.Str "13", Example.env)] Example.stocked in
  run.1 = [Metaobject.Won "E" "Prize E" 1; Metaobject.Won "E" "Prize E" 2;
           Metaobject.Fallback "Better Luck Next Time" 4] ∧
  Metaobject.catalogOf Example.stocked !! 1%nat =
    Some (Metaobject.mkPrize "E" "Prize E" 0.3 (Some 2) (Some 2) 0
            "gid://shopify/Metaobject/6") ∧
  ∃ q', Metaobject.catalogOf run.2 !! 1%nat = Some q' ∧
    Metaobject.metaobjectId q' = "gid://shopify/Metaobject/6" ∧
    Metaobject.id q' = "E" ∧
    Metaobject.remaining q' = Some 0 ∧
    Metaobject.totalDistributed q' = 2.
Proof.
  intros run. split; [vm_compute; reflexivity|]. split; [vm_compute; reflexivity|].
  destruct (mo_inventory_is_conserved
              [(JS.Str "11", Example.env); (JS.Str "12", Example.env');
               (JS.Str "13", Example.env)] Example.stocked 1%nat
              (Metaobject.mkPrize "E" "Prize E" 0.3 (Some 2) (Some 2) 0
                 "gid://shopify/Metaobject/6") 2)
    as (q' & n' & Hq' & Hhandle & Hid & Hremaining & _ & Htotal & _);
    [apply (bool_decide_unpack _); vm_compute; reflexivity
    |vm_compute; reflexivity|reflexivity|discriminate
    |eexists; split; [left; reflexivity|reflexivity]
    |reflexivity|reflexivity|reflexivity|].
  fold run in Hq'.
  assert (Metaobject.remaining <$> Metaobject.catalogOf run.2 !! 1%nat = Some (Some 0)) as Hleft
    by (vm_compute; reflexivity).
  rewrite Hq' in Hleft. cbn [fmap option_fmap option_map] in Hleft.
  rewrite Hremaining in Hleft. injection Hleft as ->.
  exists q'. split; [exact Hq'|]. split; [exact Hhandle|]. split; [exact Hid|].
  split; [exact Hremaining|exact Htotal].
Defined.

End InventoryExample.

(* ===================================================================== *)
(** * Loading the catalog *)
(* ===================================================================== *)

Section Loader.
Import Shopify.

Lemma parseProb_at_most_one probStr : (1 <? Metaobject.parseProb probStr)%float = false.
Proof.
  unfold Metaobject.parseProb.
  destruct (1 <? match probStr with
                 | Some prob =>
                     if PrimFloat.is_nan prob || (prob <? 0)%float then 1.0%float
                     else (prob / 100)%float
                 | None => 1.0%float
                 end)%float eqn:E; [reflexivity|exact E].
Qed.

Lemma toPrize_named mo p :
  Metaobject.toPrize mo = Some p →
  prize_id mo = Some (Metaobject.id p) ∧ prize_label mo = Some (Metaobject.label p) ∧
  Metaobject.id p ≠ "" ∧ Metaobject.label p ≠ "" ∧
  Metaobject.prob p = Metaobject.parseProb (Shopify.probability mo).
Proof.
  rewrite toPrize_view. destruct (prize_id mo) as [i|], (prize_label mo) as [l|]; try done.
  destruct (String.eqb_spec i "") as [|Hi]; [done|].
  destruct (String.eqb_spec l "") as [|Hl]; [done|]. cbn [orb]. by intros [= <-].
Qed.

Lemma omap_length {A B} (f : A → option B) (l : list A) :
  (length (omap f l) ≤ length l)%nat.
Proof.
  induction l as [|x l IH]; [done|]. cbn [omap list_omap length].
  destruct (f x); cbn [length]; lia.
Qed.

(** X8.  [loadPrizesFromMetaobjects] reads the first 50 metaobjects and writes
  nothing.  It fails exactly when none of them has both a prize id and a
  label; otherwise it returns at least one and at most 50 entries, in the
  order of the store, and every entry has a non-empty id and label taken
  from its metaobject, a weight that is not above 1, and either no cap and
  no remaining count, or a cap and a remaining count between zero and the
  cap. *)
Theorem loaded_catalog_is_well_formed s :
  let r := Metaobject.loadPrizesFromMetaobjects s in
  store r = s ∧ sent r = [QueryMetaobjects] ∧
  match result r with
  | inl _ => ∀ mo, In mo (take 50 (metaobjects s)) → Metaobject.toPrize mo = None
  | inr prizes =>
      prizes = omap Metaobject.toPrize (take 50 (metaobjects s)) ∧
      (1 ≤ length prizes ≤ 50)%nat ∧
      ∀ p, In p prizes →
        Metaobject.id p ≠ "" ∧ Metaobject.label p ≠ "" ∧
        (∃ mo, In mo (metaobjects s) ∧ mo_id mo = Metaobject.metaobjectId p ∧
               prize_id mo = Some (Metaobject.id p) ∧
               prize_label mo = Some (Metaobject.label p)) ∧
        (1 <? Metaobject.prob p)%float = false ∧
        match Metaobject.max p, Metaobject.remaining p with
        | Some m, Some n => 0 ≤ n ≤ m
        | None, None => True
        | _, _ => False
        end
  end.
Proof.
  intros r. subst r.
  unfold Metaobject.loadPrizesFromMetaobjects, Metaobject.getAllWheelPrizeMetaobjects,
    bind, queryMetaobjects, ret.
  destruct (take 50 (metaobjects s)) as [|mo0 l] eqn:Ht.
  { cbn. repeat split; try done. }
  destruct (omap Metaobject.toPrize (mo0 :: l)) as [|p0 ps] eqn:Ho.
  { cbn [result store sent fst snd app]. repeat split; try done.
    intros mo Hin. destruct (Metaobject.toPrize mo) as [p|] eqn:Hp; [|done].
    assert (In p (omap Metaobject.toPrize (mo0 :: l))) as Hin'.
    { apply list_elem_of_In, list_elem_of_omap. exists mo. split; [|done].
      by apply list_elem_of_In. }
    by rewrite Ho in Hin'. }
  cbn [result store sent fst snd app]. split; [done|]. split; [done|].
  split; [done|]. split.
  { split; [cbn; lia|]. rewrite <- Ho, <- Ht.
    etrans; [apply omap_length|]. rewrite length_take. lia. }
  intros p Hin. rewrite <- Ho in Hin.
  apply list_elem_of_In, list_elem_of_omap in Hin as (mo & Hmo & Hp).
  destruct (toPrize_named mo p Hp) as (Hi & Hl & Hine & Hlne & Hprob).
  split; [done|]. split; [done|]. split.
  { exists mo. split.
    - apply list_elem_of_In. rewrite <- Ht in Hmo.
      by apply (subseteq_take 50 (metaobjects s)).
    - by rewrite (toPrize_metaobjectId mo p Hp). }
  split; [rewrite Hprob; apply parseProb_at_most_one|].
  by apply (toPrize_range mo p).
Qed.

End Loader.

(* ===================================================================== *)
(** * The start of index.js *)
(* ===================================================================== *)

Section Startup.
Import Shopify.

Lemma startup_run s :
  MetafieldRoutes.startup s =
    (tt,
     with_metafields s
       (<[Metafield.PRIZE_DISTRIBUTION_KEY := Metafield.distributionOf s]>
          (<[Metafield.SHOP_METAFIELD_KEY := Metafield.countsOf s]> (metafields s))),
     (GetMetafield Metafield.SHOP_METAFIELD_KEY ::
        match metafields s !! Metafield.SHOP_METAFIELD_KEY with
        | Some _ => []
        | None => [PostMetafield Metafield.SHOP_METAFIELD_KEY Metafield.initialCounts]
        end) ++
     (GetMetafield Metafield.PRIZE_DISTRIBUTION_KEY ::
        match metafields s !! Metafield.PRIZE_DISTRIBUTION_KEY with
        | Some _ => []
        | None => [PostMetafield Metafield.PRIZE_DISTRIBUTION_KEY Metafield.initialDistribution]
        end)).
Proof.
  unfold MetafieldRoutes.startup.
  erewrite bind_step by apply ensureShopPrizeCounts_run.
  erewrite bind_step by apply ensurePrizeDistribution_run.
  unfold ret. rewrite distributionOf_with, !lookup_insert_ne by apply keys_differ.
  fold (Metafield.distributionOf s). cbn [metafields with_metafields].
  rewrite app_nil_r, lookup_insert_ne by apply keys_differ. done.
Qed.

Lemma initialDistribution_zero q :
  In q Metafield.PRIZES →
  Metafield.initialDistribution !! Metafield.id q = Some (Some 0).
Proof. cbn. intros H. repeat destruct H as [<-|H]; try done. Qed.

(** X9.  The start of index.js creates each of the two counter metafields when
  it is missing and never overwrites one that exists: afterwards both are
  stored, with the counts and the distribution a request would have worked
  with before.  A metafield that was missing starts with every remaining
  count at its cap, respectively every distribution counter at zero.
  Customers and metaobjects are untouched, and starting again sends the two
  reads only and changes nothing. *)
Theorem startup_creates_missing_counters_only s :
  let s' := store (MetafieldRoutes.startup s) in
  metafields s' !! Metafield.SHOP_METAFIELD_KEY = Some (Metafield.countsOf s) ∧
  metafields s' !! Metafield.PRIZE_DISTRIBUTION_KEY = Some (Metafield.distributionOf s) ∧
  (∀ counts, metafields s !! Metafield.SHOP_METAFIELD_KEY = Some counts →
     Metafield.countsOf s' = counts) ∧
  (∀ distribution, metafields s !! Metafield.PRIZE_DISTRIBUTION_KEY = Some distribution →
     Metafield.distributionOf s' = distribution) ∧
  (metafields s !! Metafield.SHOP_METAFIELD_KEY = None →
   ∀ q, In q Metafield.PRIZES →
     Metafield.remainingOf s' (Metafield.id q) = Some (Metafield.max q)) ∧
  (metafields s !! Metafield.PRIZE_DISTRIBUTION_KEY = None →
   ∀ q, In q Metafield.PRIZES → Metafield.totalDistributedOf s' (Metafield.id q) = 0) ∧
  customers s' = customers s ∧ metaobjects s' = metaobjects s ∧
  MetafieldRoutes.startup s' =
    (tt, s', [GetMetafield Metafield.SHOP_METAFIELD_KEY;
              GetMetafield Metafield.PRIZE_DISTRIBUTION_KEY]).
Proof.
  intros s'. subst s'. rewrite startup_run. cbn [store fst snd].
  set (s' := with_metafields s _).
  assert (metafields s' !! Metafield.SHOP_METAFIELD_KEY = Some (Metafield.countsOf s)) as Hc.
  { subst s'. cbn [metafields with_metafields].
    rewrite lookup_insert_ne by (apply not_eq_sym, keys_differ). by rewrite lookup_insert_eq. }
  assert (metafields s' !! Metafield.PRIZE_DISTRIBUTION_KEY =
          Some (Metafield.distributionOf s)) as Hd.
  { subst s'. cbn [metafields with_metafields]. by rewrite lookup_insert_eq. }
  assert (Metafield.countsOf s' = Metafield.countsOf s) as Hc'.
  { unfold Metafield.countsOf at 1. by rewrite Hc. }
  assert (Metafield.distributionOf s' = Metafield.distributionOf s) as Hd'.
  { unfold Metafield.distributionOf at 1. by rewrite Hd. }
  split; [done|]. split; [done|]. split.
  { intros counts H. rewrite Hc'. unfold Metafield.countsOf. by rewrite H. }
  split.
  { intros distribution H. rewrite Hd'. unfold Metafield.distributionOf. by rewrite H. }
  split.
  { intros H q Hq. unfold Metafield.remainingOf. rewrite Hc'. unfold Metafield.countsOf.
    rewrite H. by apply initialCounts_caps. }
  split.
  { intros H q Hq. unfold Metafield.totalDistributedOf. rewrite Hd'.
    unfold Metafield.distributionOf. rewrite H. cbn [default].
    by rewrite initialDistribution_zero. }
  split; [done|]. split; [done|].
  rewrite startup_run, Hc, Hd, Hc', Hd'. cbn [app]. f_equal. f_equal.
  subst s'. unfold with_metafields. cbn [customers next_customer_id metafields metaobjects].
  f_equal. rewrite (insert_id _ Metafield.SHOP_METAFIELD_KEY).
  - by rewrite insert_insert_eq.
  - rewrite lookup_insert_ne by (apply not_eq_sym, keys_differ). by rewrite lookup_insert_eq.
Qed.

End Startup.

(* ===================================================================== *)
(** * One prize left *)
(* ===================================================================== *)

Section OnePrizeLeft.
Import Shopify.



End OnePrizeLeft.

(* ===================================================================== *)
(** * What a reset and a request leave alone *)
(* ===================================================================== *)

Section Frame.
Import Shopify.

(** X14.  A reset refills the inventory and nothing else: the customer records
  are as before, so whoever has played has still played after it and is
  not given a second award, in both servers and whether or not the key is
  accepted. *)
Theorem reset_keeps_participation penv adminKey env s :
  customers (store (Metafield.resetPrizes penv adminKey s)) = customers s ∧
  customers (store (Metaobject.resetPrizes penv adminKey env s)) = customers s ∧
  ∀ p, Metafield.mayPlay (store (Metafield.resetPrizes penv adminKey s)) p =
         Metafield.mayPlay s p ∧
       Metaobject.mayPlay (store (Metaobject.resetPrizes penv adminKey env s)) p =
         Metaobject.mayPlay s p.
Proof.
  assert (customers (store (Metafield.resetPrizes penv adminKey s)) = customers s) as H1.
  { destruct (JS.strictEq adminKey (JS.ofEnv (ADMIN_RESET_KEY penv))) eqn:Hk.
    - by destruct (mf_reset_run penv adminKey s Hk) as [_ ->].
    - unfold Metafield.resetPrizes. by rewrite Hk. }
  assert (customers (store (Metaobject.resetPrizes penv adminKey env s)) = customers s) as H2.
  { destruct (JS.strictEq adminKey (JS.ofEnv (ADMIN_RESET_KEY penv))) eqn:Hk.
    - destruct (mo_reset_run penv adminKey env s Hk) as [_ H].
      destruct (Metaobject.catalogOf s); by destruct H as [_ ->].
    - unfold Metaobject.resetPrizes. by rewrite Hk. }
  split; [done|]. split; [done|]. intros p.
  unfold Metafield.mayPlay, Metaobject.mayPlay. by rewrite H1, H2.
Qed.

Lemma sameSetup_refl q : sameSetup q q.
Proof. by repeat split. Qed.

Lemma sameSetup_trans q1 q2 q3 : sameSetup q1 q2 → sameSetup q2 q3 → sameSetup q1 q3.
Proof.
  intros (? & ? & ? & ? & ?) (? & ? & ? & ? & ?). repeat split; congruence.
Qed.

Lemma sameSetup_map (f : Metaobject.Prize → Metaobject.Prize) (l : list Metaobject.Prize) :
  (∀ q, sameSetup q (f q)) → Forall2 sameSetup l (map f l).
Proof. intros Hf. induction l as [|q l IH]; constructor; [apply Hf|exact IH]. Qed.

Lemma sameSetup_handles (l l' : list Metaobject.Prize) :
  Forall2 sameSetup l l' → map Metaobject.metaobjectId l' = map Metaobject.metaobjectId l.
Proof.
  induction 1 as [|q q' l l' (_ & _ & _ & _ & Hh) _ IH]; [done|]. cbn [map].
  by rewrite Hh, IH.
Qed.

Lemma Forall2_sameSetup_trans (l1 l2 l3 : list Metaobject.Prize) :
  Forall2 sameSetup l1 l2 → Forall2 sameSetup l2 l3 → Forall2 sameSetup l1 l3.
Proof.
  intros H. revert l3. induction H as [|q1 q2 l1 l2 Hq _ IH]; intros l3 H3.
  - by inversion H3.
  - inversion H3 as [|? q3 ? l3' Hq3 Hl3]; subst. constructor.
    + by apply (sameSetup_trans q1 q2 q3).
    + by apply IH.
Qed.

(** X15.  The metaobject-backed server never writes the configuration of a
  prize: over any run of spin requests, and over a reset, every catalog
  entry keeps its place, its id, its label, its weight, its cap and its
  metaobject.  The entries are those of distinct metaobjects. *)
Theorem mo_setup_is_never_written :
  (∀ reqs s,
     NoDup (map Metaobject.metaobjectId (Metaobject.catalogOf s)) →
     Forall2 sameSetup (Metaobject.catalogOf s)
       (Metaobject.catalogOf (Metaobject.spins reqs s).2)) ∧
  (∀ penv adminKey env s,
     NoDup (map Metaobject.metaobjectId (Metaobject.catalogOf s)) →
     Forall2 sameSetup (Metaobject.catalogOf s)
       (Metaobject.catalogOf (store (Metaobject.resetPrizes penv adminKey env s)))).
Proof.
  split.
  - induction reqs as [|[phone env] reqs IH]; intros s Hnd.
    + cbn [Metaobject.spins snd]. rewrite <- (map_id (Metaobject.catalogOf s)) at 2.
      apply sameSetup_map, sameSetup_refl.
    + cbn [Metaobject.spins snd].
      destruct (mo_spin_step phone env s Hnd) as (f & Hf & Hcases).
      assert (Forall2 sameSetup (Metaobject.catalogOf s)
                (Metaobject.catalogOf (store (Metaobject.spin phone env s)))) as Hstep.
      { rewrite Hf. apply sameSetup_map. intros q.
        destruct (Hcases q) as [->| ->]; [apply sameSetup_refl|by repeat split]. }
      eapply Forall2_sameSetup_trans; [exact Hstep|]. apply IH.
      by rewrite (sameSetup_handles _ _ Hstep).
  - intros penv adminKey env s Hnd.
    destruct (JS.strictEq adminKey (JS.ofEnv (ADMIN_RESET_KEY penv))) eqn:Hk.
    + rewrite (mo_reset_catalog penv adminKey env s Hk Hnd).
      apply sameSetup_map. intros q. by repeat split.
    + unfold Metaobject.resetPrizes. rewrite Hk. cbn [negb ret store fst snd].
      rewrite <- (map_id (Metaobject.catalogOf s)) at 2.
      apply sameSetup_map, sameSetup_refl.
Qed.

Lemma mo_setup_is_never_written_witness :
  Forall2 sameSetup (Metaobject.catalogOf Example.partly)
    (Metaobject.catalogOf
       (Metaobject.spins [(JS.Str "11", Example.env); (JS.Str "12", Example.env')]
          Example.partly).2).
Proof.
  refine (proj1 mo_setup_is_never_written _ Example.partly _).
  apply (bool_decide_unpack _). vm_compute. reflexivity.
Defined.



End Frame.

(* ===================================================================== *)
(** * One customer record for each phone *)
(* ===================================================================== *)

Section CustomerRecords.
Import Shopify.

Lemma phones_written id t n (l : list Customer) :
  map Shopify.phone (map (set_note id n) (map (set_tags id t) l)) = map Shopify.phone l.
Proof.
  rewrite !map_map. apply map_ext. intros c. unfold set_note, set_tags.
  destruct (Z.eqb (cid c) id) eqn:E; cbn; rewrite ?E; done.
Qed.

(** Passing the gate keeps the phones distinct: a record is created only
  for a phone that no record has. *)
Lemma enter_phones s p :
  NoDup (map Shopify.phone (customers s)) →
  NoDup (map Shopify.phone (customers (store (enter s p)))).
Proof.
  intros Hnd. unfold enter, customerOf.
  destruct (List.find _ (customers s)) as [c|] eqn:Hc; [done|].
  cbn [store result fst snd postCustomer with_customers customers].
  rewrite map_app. cbn [map Shopify.phone]. apply NoDup_app. split; [done|]. split.
  - intros x Hx [->|[]]%list_elem_of_In. apply list_elem_of_In, in_map_iff in Hx as (c & Hp & Hin).
    pose proof (find_none _ _ Hc c Hin) as E. cbn beta in E. rewrite Hp in E.
    by rewrite String.eqb_refl in E.
  - apply NoDup_singleton.
Qed.

Lemma mf_spin_phones phone env s :
  NoDup (map Shopify.phone (customers s)) →
  NoDup (map Shopify.phone (customers (store (Metafield.spin phone env s)))).
Proof.
  intros Hnd.
  assert ((∀ p, identityOf phone = Some p → p ≠ "" → Metafield.mayPlay s p = false) ∨
          ∃ p, identityOf phone = Some p ∧ p ≠ "" ∧ Metafield.mayPlay s p = true) as [H|H].
  { destruct (identityOf phone) as [p|]; [|by left].
    destruct (decide (p = "")) as [->|Hne]; [left; by intros ? [= <-]|].
    destruct (Metafield.mayPlay s p) eqn:Hmay; [right; eauto|left; by intros ? [= <-]]. }
  { by destruct (mf_spin_refused phone env s H) as (-> & _). }
  destruct H as (p & Hid & Hne & Hmay).
  rewrite (mf_spin_allocates _ _ _ _ Hid Hne Hmay).
  destruct (mf_allocate_customers (result (enter s p)) env (store (enter s p)))
    as (X & note & _ & _ & Hc).
  destruct (Metafield.allocate _ _ _) as [[b s2] l2]. cbn [result store fst snd] in *.
  rewrite Hc, phones_written. by apply enter_phones.
Qed.

Lemma mo_spin_phones phone env s :
  NoDup (map Shopify.phone (customers s)) →
  NoDup (map Shopify.phone (customers (store (Metaobject.spin phone env s)))).
Proof.
  intros Hnd.
  assert ((∀ p, identityOf phone = Some p → p ≠ "" → Metaobject.mayPlay s p = false) ∨
          ∃ p, identityOf phone = Some p ∧ p ≠ "" ∧ Metaobject.mayPlay s p = true) as [H|H].
  { destruct (identityOf phone) as [p|]; [|by left].
    destruct (decide (p = "")) as [->|Hne]; [left; by intros ? [= <-]|].
    destruct (Metaobject.mayPlay s p) eqn:Hmay; [right; eauto|left; by intros ? [= <-]]. }
  { by destruct (mo_spin_refused phone env s H) as (resp & l & -> & _). }
  destruct H as (p & Hid & Hne & Hmay).
  rewrite (mo_spin_allocates _ _ _ _ Hid Hne Hmay).
  pose proof (mo_allocate_customers (result (enter s p)) env (store (enter s p))) as H.
  destruct (Metaobject.allocate _ _ _) as [[b s2] l2]. cbn [result store fst snd] in *.
  destruct (Metaobject.awardedOn (store (enter s p)) env) as [X|].
  - destruct H as [note Hc]. rewrite Hc, phones_written. by apply enter_phones.
  - subst s2. by apply enter_phones.
Qed.

(** X17.  Neither server creates a second customer record for a phone: when no
  two records of the store have the same phone, that is still so after any
  run of spin requests served one after the other. *)
Theorem phones_stay_unique :
  (∀ reqs s,
     NoDup (map Shopify.phone (customers s)) →
     NoDup (map Shopify.phone (customers (Metafield.spins reqs s).2))) ∧
  (∀ reqs s,
     NoDup (map Shopify.phone (customers s)) →
     NoDup (map Shopify.phone (customers (Metaobject.spins reqs s).2))).
Proof.
  split.
  - induction reqs as [|[phone env] reqs IH]; intros s Hnd; [done|].
    cbn [Metafield.spins snd]. by apply IH, mf_spin_phones.
  - induction reqs as [|[phone env] reqs IH]; intros s Hnd; [done|].
    cbn [Metaobject.spins snd]. by apply IH, mo_spin_phones.
Qed.

Lemma phones_stay_unique_witness :
  NoDup (map Shopify.phone
           (customers (Metafield.spins [(JS.Str "11", Example.env); (JS.Str "11", Example.env');
                                        (JS.Str " 12 ", Example.env')] Visitors.store).2)).
Proof.
  refine (proj1 phones_stay_unique _ Visitors.store _).
  apply (bool_decide_unpack _). vm_compute. reflexivity.
Defined.

End CustomerRecords.

(* ===================================================================== *)
(** * A customer of index.js at the metaobject-backed server *)
(* ===================================================================== *)

Section BothServers.
Import Shopify.

(** The two servers read a prize from the tags in the same way; index.js
  reads the number besides. *)
Lemma getPrizeFromTags_same c :
  Metaobject.getPrizeFromTags c =
    (λ info, Metaobject.PrizeInfo.mk (Metafield.PrizeInfo.label info)
               (Metafield.PrizeInfo.date info)) <$> Metafield.getPrizeFromTags c.
Proof.
  unfold Metaobject.getPrizeFromTags, Metafield.getPrizeFromTags.
  destruct (String.eqb (tags c) ""); [done|]. by destruct (JS.find _ _).
Qed.

(** X18.  A customer who was awarded a prize by index.js has played for the
  metaobject-backed server as well: run against the same store, it refuses
  the customer and replays the label and the date of the award. *)
Theorem metafield_award_is_honoured_by_metaobject_server phone env s p :
  identityOf phone = Some p → p ≠ "" → Metafield.mayPlay s p = true →
  (∀ c, customerOf s p = Some c → Tags.unrecorded c = true) →
  Tags.noComma (currentDate env) = true →
  let r := Metafield.spin phone env s in
  Metaobject.mayPlay (store r) p = false ∧
  ∃ X, In X Metafield.PRIZES ∧
    (∃ n, result r = Metafield.Won (Metafield.id X) (Metafield.label X) n ∨
          result r = Metafield.Fallback (Metafield.label X) n) ∧
    ∀ phone' env', identityOf phone' = Some p →
      Metaobject.spin phone' env' (store r) =
        (Metaobject.AlreadyPlayed
           (Metaobject.Recorded
              (Metaobject.PrizeInfo.mk (Metafield.label X)
                 (Some (JS.trim (currentDate env))))),
         store r, [SearchCustomers p]).
Proof.
  intros Hid Hne Hmay Hun Hdate r. subst r.
  destruct (mf_spin_customer phone env s p Hid Hne Hmay) as (X & note & HX & Hr & Hc).
  apply mf_awardedOn_In in HX. destruct (PRIZES_text X HX) as (Hi & Hl & Ht).
  assert (∀ i ph nt, Metaobject.hasPlayedWheel
            (mkCustomer i ph
               (Tags.merged (result (enter s p))
                  (Tags.ofMetafieldAward (Metafield.id X) (Metafield.label X)
                     (Metafield.totalDistributedOf s (Metafield.id X) + 1) env)) nt) = true)
    as Hpl.
  { eapply mo_marked. cbn. left. reflexivity. }
  split.
  { unfold Metaobject.mayPlay. unfold customerOf in Hc. by rewrite Hc, Hpl. }
  exists X. split; [done|]. split; [destruct Hr; eauto|]. intros phone' env' Hid'.
  rewrite (mo_spin_played phone' env' _ p _ Hid' Hne Hc (Hpl _ _ _)).
  rewrite getPrizeFromTags_same, mf_read_back, Ht; try done.
  by apply unrecorded_entering.
Qed.

Lemma metafield_award_is_honoured_by_metaobject_server_witness :
  let r := Metafield.spin (JS.Str "5550100") Example.env Visitors.store in
  Metaobject.mayPlay (store r) "5550100" = false ∧
  ∃ X, In X Metafield.PRIZES ∧
    (∃ n, result r = Metafield.Won (Metafield.id X) (Metafield.label X) n ∨
          result r = Metafield.Fallback (Metafield.label X) n) ∧
    ∀ phone' env', identityOf phone' = Some "5550100" →
      Metaobject.spin phone' env' (store r) =
        (Metaobject.AlreadyPlayed
           (Metaobject.Recorded
              (Metaobject.PrizeInfo.mk (Metafield.label X)
                 (Some (JS.trim (currentDate Example.env))))),
         store r, [SearchCustomers "5550100"]).
Proof.
  refine (metafield_award_is_honoured_by_metaobject_server (JS.Str "5550100") Example.env
            Visitors.store "5550100" _ _ _ _ _);
    [reflexivity|discriminate|reflexivity| |reflexivity].
  intros c Hc. vm_compute in Hc. injection Hc as <-. reflexivity.
Defined.

(** The other way round it is not so: index.js looks for its own markers
  only, and lets a customer of the metaobject-backed server play again. *)
Example metaobject_award_is_not_seen_by_metafield_server :
  let r := Metaobject.spin (JS.Str "11") Example.env Example.partly in
  result r = Metaobject.Won "A" "Prize A" 1 ∧
  Metaobject.mayPlay (store r) "11" = false ∧
  Metafield.mayPlay (store r) "11" = true.
Proof. vm_compute. tauto. Qed.

End BothServers.
